(** * A shallow embedding of the SaaS-to-Neo4j sync template

    The development follows the Python sources:
    - [{api}_client.py]    : the retrying, paginating HTTP client ([Client]);
    - [neo4j_base.py]      : the graph layer's query primitives ([Graph]);
    - [entities/customer.py], [relationships/customer_relationships.py],
      [analytics/aggregation_nodes.py], [analytics/denormalization.py],
      [metrics/project_metrics.py] : the operations built on them;
    - [orchestrator.py]    : the stage sequencing ([Orchestrator]).

    Python exceptions are values of [exn]; every method is a function in
    the state-and-exception monad [M] over the object it mutates. *)

From stdpp Require Import gmap strings list fin_maps pretty.

Set Default Proof Using "Type".

(** ** Python values, exceptions and the monad of methods *)

(** JSON-like values held by API records and query parameters. Floats and
    arrays are outside the model. *)
#[warnings="-register-all"]
Inductive pyval :=
| PNone
| PBool (b : bool)
| PInt (z : Z)
| PStr (s : string)
| PDict (d : gmap string pyval).

(** Python truthiness, as used by [if x:] and [x or y]. *)
Definition truthy (v : pyval) : bool :=
  match v with
  | PNone => false
  | PBool b => b
  | PInt z => negb (z =? 0)%Z
  | PStr s => negb (String.eqb s "")
  | PDict d => negb (bool_decide (d = ∅))
  end.

(** [d.get(k)] : a missing key reads as [None]. *)
Definition dict_get (d : gmap string pyval) (k : string) : pyval :=
  default PNone (d !! k).

(** [d.get(k, dflt)]. *)
Definition dict_get_default (d : gmap string pyval) (k : string) (dflt : pyval) : pyval :=
  default dflt (d !! k).

(** The exceptions the code raises or lets through. *)
Inductive exn :=
| HTTPError (status : Z)          (* requests.exceptions.HTTPError, with its response *)
| TransportError (kind : string)  (* any other requests.exceptions.RequestException *)
| PlainException (msg : string)   (* Exception(msg) *)
| KeyError (key : string)
| AttributeError (msg : string)
| ValueError (msg : string)
| NameError (name : string)       (* a name that is not defined *)
| Neo4jError (msg : string).      (* raised by the driver *)

(** [isinstance(e, requests.exceptions.RequestException)]. *)
Definition is_RequestException (e : exn) : bool :=
  match e with
  | HTTPError _ | TransportError _ => true
  | _ => false
  end.

(** [str(e)], as interpolated in log lines (the wording that the requests
    library gives an HTTP error is abridged). *)
Definition str_exn (e : exn) : string :=
  match e with
  | HTTPError st => pretty st +:+ " Error"
  | TransportError k => k
  | PlainException m => m
  | KeyError k => "'" +:+ k +:+ "'"
  | AttributeError m => m
  | ValueError m => m
  | NameError n => "name '" +:+ n +:+ "' is not defined"
  | Neo4jError m => m
  end.

Inductive result (A : Type) :=
| Return (a : A)
| Raise (e : exn).
Arguments Return {A} a.
Arguments Raise {A} e.

Definition M (S A : Type) : Type := S → result A * S.

Definition ret {S A} (a : A) : M S A := fun s => (Return a, s).
Definition raise {S A} (e : exn) : M S A := fun s => (Raise e, s).
Definition bind {S A B} (m : M S A) (k : A → M S B) : M S B :=
  fun s => match m s with
           | (Return a, s') => k a s'
           | (Raise e, s') => (Raise e, s')
           end.
Definition modify {S} (f : S → S) : M S unit := fun s => (Return tt, f s).

(** [try: body / except <handles>: handler]. *)
Definition try_except {S A} (body : M S A) (handles : exn → bool)
    (handler : exn → M S A) : M S A :=
  fun s => match body s with
           | (Return a, s') => (Return a, s')
           | (Raise e, s') => if handles e then handler e s' else (Raise e, s')
           end.

Declare Scope py_scope.
Delimit Scope py_scope with py.
Notation "x <- c ;; k" := (bind c (fun x => k))
  (at level 100, c at next level, right associativity) : py_scope.
Notation "c ;;; k" := (bind c (fun _ => k))
  (at level 100, right associativity) : py_scope.
Open Scope py_scope.

(** [range(n)] for an integer [n]: empty when [n <= 0]. *)
Definition range (n : Z) : list Z := Z.of_nat <$> seq 0 (Z.to_nat n).

(** ** The HTTP client ([{api}_client.py]) *)

Module Client.

(** An API record: an attribute map. *)
Abbreviation record := (gmap string pyval).

Record Config := {
  api_url : string;
  max_retries : Z
}.

(** One GET as the server sees it. *)
Record Request := {
  req_url : string;
  req_params : gmap string string;
  req_bearer : option string
}.

(** The decoded body of a response: [data.get("items", [])] reads
    [body_items], [None] standing for a body without the field. *)
Record Body := { body_items : option (list record) }.

(** What [session.get] produces: a response with its status, its body
    (taken as already decoded by [response.json()]) and its
    [NextPageToken] header, or a transport-level exception. *)
Inductive Reply :=
| Response (status : Z) (body : Body) (next_page_token : option string)
| NoResponse (kind : string).

(** What the token endpoint does with a POST: it grants a token, it fails
    with a [RequestException] (HTTP error status or transport error), or
    it answers 2xx without an [access_token] field. *)
Inductive AuthReply :=
| Granted (access_token : string)
| Refused
| Malformed.

(** The remote side: its answer to the n-th GET and to the n-th POST. *)
Record Server := {
  on_get : nat → Request → Reply;
  on_auth : nat → AuthReply
}.

(** The client object: the token and header it holds, and what it has done
    so far (GETs sent, POSTs sent, sleeps taken). *)
Record Session := {
  token : option string;
  sent : list Request;
  auth_calls : nat;
  slept : list Z
}.

Definition new_session : Session :=
  {| token := None; sent := []; auth_calls := 0; slept := [] |}.

Section WithServer.
Variable srv : Server.
Variable config : Config.

(** [self.session.get(url, params=params, timeout=...)]. *)
Definition session_get (url : string) (params : gmap string string) : M Session Reply :=
  fun s =>
    let req := {| req_url := url; req_params := params; req_bearer := token s |} in
    (Return (on_get srv (length (sent s)) req),
     {| token := token s; sent := sent s ++ [req];
        auth_calls := auth_calls s; slept := slept s |}).

(** [time.sleep(wait_time)]. *)
Definition sleep (wait_time : Z) : M Session unit :=
  modify (fun s => {| token := token s; sent := sent s;
                      auth_calls := auth_calls s; slept := slept s ++ [wait_time] |}).

(** [authenticate]: POST the credentials; on success store the token and
    the Authorization header and return True; a [RequestException] is
    caught and gives False; a body without [access_token] raises
    KeyError, which is not caught. *)
Definition authenticate : M Session bool :=
  fun s =>
    let n := auth_calls s in
    match on_auth srv n with
    | Granted t =>
        (Return true, {| token := Some t; sent := sent s;
                         auth_calls := S n; slept := slept s |})
    | Refused =>
        (Return false, {| token := token s; sent := sent s;
                          auth_calls := S n; slept := slept s |})
    | Malformed =>
        (Raise (KeyError "access_token"),
         {| token := token s; sent := sent s;
            auth_calls := S n; slept := slept s |})
    end.

(** [response.raise_for_status()] raises for 4xx and 5xx. *)
Definition raises_for_status (status : Z) : bool :=
  (400 <=? status)%Z && (status <? 600)%Z.

Definition max_retries_message (url : string) : string :=
  "Max retries (" +:+ pretty (max_retries config) +:+ ") exceeded for " +:+ url.

(** The body of [for attempt in range(max_retries)], over the attempts
    still to run; the empty list is the fall-through after the loop. *)
Fixpoint attempts (url : string) (params : gmap string string) (todo : list Z)
    : M Session (Body * option string) :=
  match todo with
  | [] => raise (PlainException (max_retries_message url))
  | attempt :: rest =>
      reply <- session_get url params ;;
      match reply with
      | Response status data next_token =>
          if raises_for_status status then
            if (status =? 401)%Z then
              ok <- authenticate ;;
              if ok then attempts url params rest
              else raise (HTTPError status)
            else if (status =? 429)%Z then
              sleep (2 ^ attempt) ;;; attempts url params rest
            else if (500 <=? status)%Z && (status <? 600)%Z then
              sleep (2 ^ attempt) ;;; attempts url params rest
            else raise (HTTPError status)
          else ret (data, next_token)
      | NoResponse kind =>
          if (attempt <? max_retries config - 1)%Z then
            sleep (2 ^ attempt) ;;; attempts url params rest
          else raise (TransportError kind)
      end
  end.

Definition _make_single_request (url : string) (params : gmap string string)
    : M Session (Body * option string) :=
  attempts url params (range (max_retries config)).

(** Truthiness of [next_page_token : Optional[str]]. *)
Definition token_truthy (t : option string) : bool :=
  match t with
  | Some s => negb (String.eqb s "")
  | None => false
  end.

(** The [while True] loop of [_make_request]; [fuel] bounds the number
    of iterations and [None] means the bound was reached. *)
Fixpoint request_loop (fuel : nat) (url : string) (params : gmap string string)
    (paginated : bool) (next_page_token : option string)
    (all_items : list record) (s : Session)
    : option (result (list record) * Session) :=
  match fuel with
  | O => None
  | S fuel' =>
      let paginated_params :=
        if paginated && token_truthy next_page_token
        then <["pageToken" := default "" next_page_token]> params
        else params in
      match _make_single_request url paginated_params s with
      | (Raise e, s') => Some (Raise e, s')
      | (Return (data, next_token), s') =>
          let items := default [] (body_items data) in
          let all_items' := all_items ++ items in
          if negb paginated || negb (token_truthy next_token)
          then Some (Return all_items', s')
          else request_loop fuel' url params paginated next_token all_items' s'
      end
  end.

Definition _make_request (fuel : nat) (endpoint : string)
    (params : option (gmap string string)) (paginated : bool) (s : Session)
    : option (result (list record) * Session) :=
  let url := api_url config +:+ endpoint in
  request_loop fuel url (default ∅ params) paginated None [] s.

End WithServer.

(** The request the client sends while it holds the token of [s]. *)
Definition request_of (url : string) (params : gmap string string) (s : Session) : Request :=
  {| req_url := url; req_params := params; req_bearer := token s |}.

(** The server's answers to the requests [reqs], the first of which is its
    GET number [start]. *)
Fixpoint replies_to (srv : Server) (start : nat) (reqs : list Request) : list Reply :=
  match reqs with
  | [] => []
  | r :: rest => on_get srv start r :: replies_to srv (S start) rest
  end.

Definition is_401 (r : Reply) : bool :=
  match r with
  | Response status _ _ => (status =? 401)%Z
  | NoResponse _ => false
  end.

(** How many of the replies are 401s. *)
Fixpoint count_401 (rs : list Reply) : nat :=
  match rs with
  | [] => 0
  | r :: rest => (if is_401 r then 1 else 0) + count_401 rest
  end.

(** The client after one more GET. *)
Definition after_get (url : string) (params : gmap string string) (s : Session) : Session :=
  {| token := token s; sent := sent s ++ [request_of url params s];
     auth_calls := auth_calls s; slept := slept s |}.

(** A server that answers from two scripts, by position; past the end of
    a script the connection fails, respectively the token is refused. *)
Definition scripted (gets : list Reply) (auths : list AuthReply) : Server :=
  {| on_get := fun n _ => nth n gets (NoResponse "ConnectionError");
     on_auth := fun n => nth n auths Refused |}.

(** A page as the server delivers it: its items and its cursor. *)
Abbreviation Page := (Body * option string)%type.

(** Pages chained by cursors: every page but the last carries a truthy
    cursor, the last carries none. *)
Fixpoint chained (pages : list Page) : bool :=
  match pages with
  | [] => false
  | [(_, t)] => negb (token_truthy t)
  | (_, t) :: rest => token_truthy t && chained rest
  end.

(** The parameters of the request that follows a page with cursor [t]. *)
Definition next_params (params : gmap string string) (t : option string)
    : gmap string string :=
  <["pageToken" := default "" t]> params.

(** The requests that fetch [pages], the first one sent with [first]. *)
Fixpoint page_requests (url : string) (params first : gmap string string)
    (bearer : option string) (pages : list Page) : list Request :=
  match pages with
  | [] => []
  | (_, t) :: rest =>
      {| req_url := url; req_params := first; req_bearer := bearer |}
      :: page_requests url params (next_params params t) bearer rest
  end.

Definition page_items (p : Page) : list record := default [] (body_items p.1).

End Client.

(** ** The property graph and the statements sent to it

    The store is a Neo4j database, which the sources drive with Cypher
    text. A statement is kept as its shape and parameters, and the shapes
    whose effect matters below are given the meaning Cypher gives them. *)

Module Graph.

(** Property values kept on nodes (booleans, integers, strings). *)
Inductive value :=
| VBool (b : bool)
| VInt (z : Z)
| VStr (s : string).

#[global] Instance value_eq_dec : EqDecision value.
Proof. solve_decision. Defined.

(** [str(v)] of a value read back from the store. *)
Definition str_value (v : value) : string :=
  match v with
  | VBool true => "True"
  | VBool false => "False"
  | VInt z => pretty z
  | VStr s => s
  end.

Record Node := {
  node_labels : gset string;
  node_props : gmap string value
}.

(** A directed, typed relationship between two nodes, named by their
    positions in the node list (nodes are never deleted). *)
Record Rel := {
  rel_type : string;
  rel_src : nat;
  rel_dst : nat
}.

#[global] Instance Rel_eq_dec : EqDecision Rel.
Proof. solve_decision. Defined.

Record Db := {
  nodes : list Node;
  rels : list Rel
}.

Definition empty_db : Db := {| nodes := []; rels := [] |}.

(** A row of a result: column name to value. *)
Abbreviation Row := (gmap string value).

(** The Cypher statements the sources build, with their parameters. *)
Inductive Statement :=
(* MERGE (n:label {key: $key}) SET n.p1 = $v1, ... RETURN n.key *)
| MergeSet (label key : string) (key_value : pyval) (sets : list (string * pyval))
(* UNWIND $batch AS item MERGE (n:label {guid: item.guid}) SET n.k = item.k, ... *)
| UnwindMergeSet (label : string) (set_keys : list string) (batch : list (gmap string pyval))
(* MATCH (p:dep) WHERE p.fk IS NOT NULL MATCH (c:target {guid: p.fk})
   MERGE (c)-[r:rtype]->(p) RETURN count(r) as count *)
| LinkByForeignKey (dep_label fk_prop target_label rtype : string)
(* the month-truncating RECORDED_IN statement of link_facts_to_periods *)
| LinkFactsToMonths (fact_entity date_property : string)
(* the period statement of calculate_period_metrics; [periods] is the
   $periods parameter of its WHERE clause, None when there is no clause *)
| PeriodMetrics (label : string) (periods : option (list string))
(* the project statement of calculate_project_metrics *)
| EntityMetrics (label : string) (guids : option (list string))
(* any other statement text *)
| Cypher (text : string) (params : gmap string pyval).

(** The driver: what [session.run] followed by consuming the result does
    to the database. A failed statement leaves the database as it was. *)
Abbreviation Driver := (Statement → Db → result (Db * list Row)).

(** *** Semantics of the statements *)

Definition has_label (l : string) (n : Node) : bool :=
  bool_decide (l ∈ node_labels n).

Definition prop (n : Node) (k : string) : option value := node_props n !! k.

(** A parameter as a property value: null is [Some None]; a map cannot be
    stored and makes the statement fail ([None]). *)
Definition to_prop (v : pyval) : option (option value) :=
  match v with
  | PNone => Some None
  | PBool b => Some (Some (VBool b))
  | PInt z => Some (Some (VInt z))
  | PStr s => Some (Some (VStr s))
  | PDict _ => None
  end.

(** [SET n.k = v]: setting null removes the property. *)
Definition set_prop (k : string) (v : option value) (n : Node) : Node :=
  {| node_labels := node_labels n;
     node_props := match v with
                   | Some x => <[k := x]> (node_props n)
                   | None => delete k (node_props n)
                   end |}.

Definition set_props (sets : list (string * option value)) (n : Node) : Node :=
  foldl (fun acc kv => set_prop kv.1 kv.2 acc) n sets.

(** Does [n] match the pattern [(:label {key: v})]? *)
Definition matches (label key : string) (v : value) (n : Node) : bool :=
  has_label label n && bool_decide (prop n key = Some v).

(** [MERGE (n:label {key: v}) SET ...]: update every matching node, or
    create one when there is none. *)
Definition merge_node (label key : string) (v : value)
    (sets : list (string * option value)) (ns : list Node) : list Node :=
  if existsb (matches label key v) ns
  then (fun n => if matches label key v n then set_props sets n else n) <$> ns
  else ns ++ [set_props sets {| node_labels := {[label]}; node_props := {[key := v]} |}].

(** Evaluate the right-hand sides of a SET clause. *)
Fixpoint eval_sets (sets : list (string * pyval)) : option (list (string * option value)) :=
  match sets with
  | [] => Some []
  | (k, v) :: rest =>
      match to_prop v, eval_sets rest with
      | Some ov, Some r => Some ((k, ov) :: r)
      | _, _ => None
      end
  end.

(** One MERGE ... SET with parameters; [None] when it cannot run (null or
    unstorable key, unstorable property). *)
Definition merge_set (label key : string) (kv : pyval) (sets : list (string * pyval))
    (ns : list Node) : option (list Node) :=
  match to_prop kv, eval_sets sets with
  | Some (Some v), Some sets' => Some (merge_node label key v sets' ns)
  | _, _ => None
  end.

(** [RETURN n.key]: one row per node the MERGE matched or created. *)
Definition merged_rows (label key : string) (kv : pyval) (ns : list Node) : list Row :=
  match to_prop kv with
  | Some (Some v) =>
      (fun _ => {[ key := v ]}) <$> filter (fun n => matches label key v n = true) ns
  | _ => []
  end.

(** The SET clause of the UNWIND statement for one item: [item.k] of a
    missing key is null. *)
Definition item_sets (set_keys : list string) (item : gmap string pyval)
    : list (string * pyval) :=
  let keys := match set_keys with [] => ["guid"] | _ => set_keys end in
  (fun k => (k, dict_get item k)) <$> keys.

Fixpoint unwind_merge_set (label : string) (set_keys : list string)
    (batch : list (gmap string pyval)) (ns : list Node) : option (list Node) :=
  match batch with
  | [] => Some ns
  | item :: rest =>
      match merge_set label "guid" (dict_get item "guid") (item_sets set_keys item) ns with
      | Some ns' => unwind_merge_set label set_keys rest ns'
      | None => None
      end
  end.

(** The pairs (target, dependent) matched by the linking statement. *)
Definition link_rows (dep_label fk_prop target_label : string) (ns : list Node)
    : list (nat * nat) :=
  flat_map (fun '(i, p) =>
    if has_label dep_label p then
      match prop p fk_prop with
      | Some fk =>
          flat_map (fun '(j, c) =>
            if matches target_label "guid" fk c then [(j, i)] else [])
            (imap pair ns)
      | None => []
      end
    else [])
    (imap pair ns).

(** [MERGE (c)-[:rtype]->(p)]. *)
Definition merge_rel (rtype : string) (rs : list Rel) (cp : nat * nat) : list Rel :=
  let r := {| rel_type := rtype; rel_src := cp.1; rel_dst := cp.2 |} in
  if bool_decide (r ∈ rs) then rs else rs ++ [r].

Definition link_by_foreign_key (dep_label fk_prop target_label rtype : string)
    (db : Db) : Db * list Row :=
  let rows := link_rows dep_label fk_prop target_label (nodes db) in
  ({| nodes := nodes db; rels := foldl (merge_rel rtype) (rels db) rows |},
   [{[ "count" := VInt (Z.of_nat (length rows)) ]}]).


(** The nodes targeted by the period statement: those carrying the label
    and, when there is a WHERE clause, an [id] among [$periods]. *)
Definition period_target (label : string) (periods : option (list string))
    (n : Node) : bool :=
  has_label label n &&
  match periods with
  | None => true
  | Some ids =>
      match prop n "id" with
      | Some (VStr x) => bool_decide (x ∈ ids)
      | _ => false
      end
  end.

Section Neo4j.
(** What the model takes from outside: the clock read by [datetime()],
    the aggregate expressions of the period statement (the metric
    properties computed for the node at a position, [None] on a type
    error), and the statements whose semantics is not spelled out. *)
Variable now : value.
Variable period_aggregates : Db → nat → option (list (string * option value)).
Variable other : Driver.

(** Aggregates are computed for all targets first, then SET. *)
Fixpoint period_updates (label : string) (periods : option (list string))
    (db : Db) (i : nat) (ns : list Node) : option (list Node) :=
  match ns with
  | [] => Some []
  | n :: rest =>
      match period_updates label periods db (S i) rest with
      | None => None
      | Some rest' =>
          if period_target label periods n then
            match period_aggregates db i with
            | Some bag =>
                Some (set_props (bag ++ [("lastDenormalizedAt", Some now)]) n :: rest')
            | None => None
            end
          else Some (n :: rest')
      end
  end.

Definition period_metrics (label : string) (periods : option (list string))
    (db : Db) : option (Db * list Row) :=
  match period_updates label periods db 0 (nodes db) with
  | Some ns' =>
      let count := length (filter (fun n => period_target label periods n = true) (nodes db)) in
      Some ({| nodes := ns'; rels := rels db |},
            [{[ "periodCount" := VInt (Z.of_nat count) ]}])
  | None => None
  end.

Definition statement_failed : exn := Neo4jError "statement failed".

Definition neo4j : Driver :=
  fun stmt db =>
    match stmt with
    | MergeSet label key kv sets =>
        match merge_set label key kv sets (nodes db) with
        | Some ns' =>
            Return ({| nodes := ns'; rels := rels db |}, merged_rows label key kv ns')
        | None => Raise statement_failed
        end
    | UnwindMergeSet label set_keys batch =>
        match unwind_merge_set label set_keys batch (nodes db) with
        | Some ns' => Return ({| nodes := ns'; rels := rels db |}, [])
        | None => Raise statement_failed
        end
    | LinkByForeignKey dep fk target rtype =>
        Return (link_by_foreign_key dep fk target rtype db)
    | PeriodMetrics label periods =>
        match period_metrics label periods db with
        | Some r => Return r
        | None => Raise statement_failed
        end
    | _ => other stmt db
    end.
End Neo4j.

End Graph.

(** ** The graph layer ([neo4j_base.py]) and the modules built on it *)

Module Layer.
Import Graph.

Inductive LogLine :=
| Info (msg : string)
| Error (msg : string)
| DebugQuery (stmt : Statement)    (* logger.debug(f"Query: {query}") *)
| DebugParams (stmt : Statement).  (* logger.debug(f"Parameters: {parameters}") *)

(** A component instance: its view of the database, the statements it has
    sent through [session.run], and what it has logged. *)
Record World := {
  db : Db;
  ran : list Statement;
  log : list LogLine
}.

Definition new_world (d : Db) : World := {| db := d; ran := []; log := [] |}.

(** [except Exception] catches every exception of the model. *)
Definition any_exception (e : exn) : bool := true.

(** ASCII case mapping, for [str.capitalize]. *)
Definition upper_ascii (c : Ascii.ascii) : Ascii.ascii :=
  let n := Ascii.nat_of_ascii c in
  if (97 <=? n)%nat && (n <=? 122)%nat then Ascii.ascii_of_nat (n - 32) else c.

Definition lower_ascii (c : Ascii.ascii) : Ascii.ascii :=
  let n := Ascii.nat_of_ascii c in
  if (65 <=? n)%nat && (n <=? 90)%nat then Ascii.ascii_of_nat (n + 32) else c.

Fixpoint lower (s : string) : string :=
  match s with
  | EmptyString => EmptyString
  | String c rest => String (lower_ascii c) (lower rest)
  end.

Definition capitalize (s : string) : string :=
  match s with
  | EmptyString => EmptyString
  | String c rest => String (upper_ascii c) (lower rest)
  end.

(** [items[i:i + batch_size] for i in range(0, len(items), batch_size)],
    for a positive step. *)
Fixpoint chunks {A} (fuel : nat) (size : nat) (items : list A) : list (list A) :=
  match fuel with
  | O => []
  | S fuel' =>
      match items with
      | [] => []
      | _ => take size items :: chunks fuel' size (drop size items)
      end
  end.

Section WithDriver.
Variable run : Driver.
(** The name the template leaves to be filled in. *)
Variable Entity : string.

Definition logger (l : LogLine) : M World unit :=
  modify (fun w => {| db := db w; ran := ran w; log := log w ++ [l] |}).

(** [session.run(query, parameters)] with its result consumed. *)
Definition session_run (stmt : Statement) : M World (list Row) :=
  fun w =>
    match run stmt (db w) with
    | Return (db', rows) =>
        (Return rows, {| db := db'; ran := ran w ++ [stmt]; log := log w |})
    | Raise e =>
        (Raise e, {| db := db w; ran := ran w ++ [stmt]; log := log w |})
    end.

Definition _execute_query (stmt : Statement) : M World bool :=
  try_except
    (session_run stmt ;;; ret true)
    any_exception
    (fun e =>
       logger (Error ("Query execution failed: " +:+ str_exn e)) ;;;
       logger (DebugQuery stmt) ;;;
       logger (DebugParams stmt) ;;;
       raise e).

Definition _execute_query_with_result (stmt : Statement) : M World (list Row) :=
  try_except
    (session_run stmt)
    any_exception
    (fun e =>
       logger (Error ("Query execution failed: " +:+ str_exn e)) ;;;
       logger (DebugQuery stmt) ;;;
       logger (DebugParams stmt) ;;;
       raise e).

(** [tx.run] for each query, then [tx.commit()]: the statements run
    against the transaction's view; nothing is kept when one fails. *)
Fixpoint tx_run (queries : list Statement) (view : Db) (w : World)
    : result Db * World :=
  match queries with
  | [] => (Return view, w)
  | q :: rest =>
      let w' := {| db := db w; ran := ran w ++ [q]; log := log w |} in
      match run q view with
      | Return (view', _) => tx_run rest view' w'
      | Raise e => (Raise e, w')
      end
  end.

Definition transaction (queries : list Statement) : M World unit :=
  fun w =>
    match tx_run queries (db w) w with
    | (Return view, w') =>
        (Return tt, {| db := view; ran := ran w'; log := log w' |})
    | (Raise e, w') => (Raise e, w')
    end.

Definition _execute_batch (queries : list Statement) : M World Z :=
  try_except
    (transaction queries ;;; ret (Z.of_nat (length queries)))
    any_exception
    (fun e =>
       logger (Error ("Batch execution failed: " +:+ str_exn e)) ;;;
       raise e).

(** [[key for key in sample_item.keys() if key != "guid"]]. *)
Definition set_clause_keys (sample_item : gmap string pyval) : list string :=
  filter (fun k => k ≠ "guid") (fst <$> map_to_list sample_item).

(** The statement built for one chunk. *)
Definition batch_statement (label : string) (batch : list (gmap string pyval))
    : Statement :=
  UnwindMergeSet label (set_clause_keys (default ∅ (head batch))) batch.

(** The body of the [for] loop of [batch_merge_nodes]. *)
Fixpoint merge_batches (label : string) (batches : list (list (gmap string pyval)))
    (total_merged : Z) : M World Z :=
  match batches with
  | [] => ret total_merged
  | batch :: rest =>
      match batch with
      | [] => merge_batches label rest total_merged
      | _ =>
          total <- try_except
            (session_run (batch_statement label batch) ;;;
             ret (total_merged + Z.of_nat (length batch))%Z)
            any_exception
            (fun e =>
               logger (Error ("Batch merge failed for " +:+ label +:+ ": " +:+ str_exn e)) ;;;
               raise e) ;;
          merge_batches label rest total
      end
  end.

Definition batch_merge_nodes (label : string) (items : list (gmap string pyval))
    (batch_size : Z) : M World Z :=
  match items with
  | [] => ret 0%Z
  | _ =>
      if (batch_size =? 0)%Z then
        raise (ValueError "range() arg 3 must not be zero")
      else
        total <- merge_batches label
                   (if (batch_size <? 0)%Z then []
                    else chunks (length items) (Z.to_nat batch_size) items) 0%Z ;;
        logger (Info ("  Merged " +:+ pretty total +:+ " " +:+ label +:+ " nodes")) ;;;
        ret total
  end.

(** [type(v).__name__]. *)
Definition type_name (v : pyval) : string :=
  match v with
  | PNone => "NoneType"
  | PBool _ => "bool"
  | PInt _ => "int"
  | PStr _ => "str"
  | PDict _ => "dict"
  end.

(** The error of [v.get] on a value that is no map. *)
Definition no_get (v : pyval) : exn :=
  AttributeError ("'" +:+ type_name v +:+ "' object has no attribute 'get'").

(** [if data.get(field): guid = data[field].get("guid")], else None.
    A truthy value that is no map has no [get]. *)
Definition nested_guid (data : gmap string pyval) (field : string) : M World pyval :=
  if truthy (dict_get data field) then
    match dict_get data field with
    | PDict d => ret (dict_get d "guid")
    | v => raise (no_get v)
    end
  else ret PNone.

(** [CustomerSync.sync_customer]. *)
Definition sync_customer (customer_data : gmap string pyval) : M World bool :=
  business_unit_guid <- nested_guid customer_data "businessUnit" ;;
  account_owner_guid <- nested_guid customer_data "accountOwner" ;;
  _execute_query
    (MergeSet "Customer" "guid" (dict_get customer_data "guid")
       [ ("name", dict_get_default customer_data "name" (PStr ""));
         ("number", dict_get_default customer_data "number" (PStr ""));
         ("isActive", dict_get_default customer_data "isActive" (PBool true));
         ("businessUnitGuid", business_unit_guid);
         ("accountOwnerGuid", account_owner_guid);
         ("lastModified", dict_get_default customer_data "lastModifiedDateTime" (PStr "")) ]).

(** [record = result.single(); count = record[col] if record else 0]:
    an empty record is falsy, a missing column raises KeyError. *)
Definition single_count (rows : list Row) (col : string) : M World value :=
  match head rows with
  | Some record =>
      if bool_decide (record = ∅) then ret (VInt 0)
      else match record !! col with
           | Some v => ret v
           | None => raise (KeyError col)
           end
  | None => ret (VInt 0)
  end.

(** The text of the statement of [create_customer_project_relationships]:
    a plain string, in which the placeholders of the template stand as
    they are. *)
Definition project_query : string :=
  "
        MATCH (p:{Entity2})
        WHERE p.customerGuid IS NOT NULL
        MATCH (c:Customer {guid: p.customerGuid})
        MERGE (c)-[r:HAS_{ENTITY2}]->(p)
        RETURN count(r) as count
        ".

(** A name in an f-string that nothing defines. *)
Definition undefined_name (name : string) : M World string :=
  raise (NameError name).

(** [CustomerRelationships.create_customer_project_relationships]. Its two
    log lines are f-strings that read the name [Entity2], which the module
    does not define: the first raises NameError inside the [try], and the
    handler, entered for it or for a failure of the statement, raises
    NameError in turn. *)
Definition create_customer_project_relationships : M World value :=
  try_except
    (rows <- session_run (Cypher project_query ∅) ;;
     count <- single_count rows "count" ;;
     entity2 <- undefined_name "Entity2" ;;
     logger (Info ("  Created " +:+ str_value count +:+ " Customer→" +:+ entity2
                   +:+ " relationships")) ;;;
     ret count)
    any_exception
    (fun e =>
       entity2 <- undefined_name "Entity2" ;;
       logger (Error ("Failed to create Customer→" +:+ entity2 +:+ " relationships: "
                      +:+ str_exn e)) ;;;
       ret (VInt 0)).

(** [AggregationNodes.link_facts_to_periods]. *)
Definition link_facts_to_periods (fact_entity date_property : string) : M World value :=
  try_except
    (rows <- session_run (LinkFactsToMonths fact_entity date_property) ;;
     count <- single_count rows "count" ;;
     logger (Info ("  ✓ Linked " +:+ str_value count +:+ " " +:+ fact_entity
                   +:+ " entities to Month periods")) ;;;
     ret count)
    any_exception
    (fun e =>
       logger (Error ("Failed to link " +:+ fact_entity +:+ " to periods: " +:+ str_exn e)) ;;;
       ret (VInt 0)).

(** [Denormalization.calculate_period_metrics]. After the guard,
    [periods] is falsy only when it is None. *)
Definition calculate_period_metrics (period_type : string)
    (periods : option (list string)) : M World value :=
  match periods with
  | Some [] => ret (VInt 0)
  | _ =>
      let stmt := PeriodMetrics (capitalize period_type) periods in
      try_except
        (rows <- session_run stmt ;;
         count <- single_count rows "periodCount" ;;
         logger (Info ("  ✓ Denormalized " +:+ str_value count +:+ " "
                       +:+ capitalize period_type +:+ " metrics")) ;;;
         ret count)
        any_exception
        (fun e =>
           logger (Error ("Failed to calculate " +:+ period_type +:+ " metrics: "
                          +:+ str_exn e)) ;;;
           logger (DebugQuery stmt) ;;;
           logger (DebugParams stmt) ;;;
           ret (VInt 0))
  end.

(** [ProjectMetrics.calculate_project_metrics]. *)
Definition calculate_project_metrics (project_guids : option (list string))
    : M World value :=
  match project_guids with
  | Some [] => ret (VInt 0)
  | _ =>
      let stmt := EntityMetrics Entity project_guids in
      try_except
        (rows <- session_run stmt ;;
         count <- single_count rows "projectsUpdated" ;;
         logger (Info ("  ✓ Updated " +:+ str_value count +:+ " " +:+ Entity +:+ " metrics")) ;;;
         ret count)
        any_exception
        (fun e =>
           logger (Error ("Failed to calculate " +:+ Entity +:+ " metrics: " +:+ str_exn e)) ;;;
           logger (DebugQuery stmt) ;;;
           logger (DebugParams stmt) ;;;
           ret (VInt 0))
  end.

End WithDriver.

End Layer.

(** ** The orchestrator ([orchestrator.py]) *)

Module Orchestrator.

(** The steps of [run_full_sync], in order. *)
Inductive Stage :=
| AUTH | INDEX | REFERENCE | CORE_ENTITIES | TRANSACTIONAL
| RELATIONSHIPS | METRICS | ANALYTICS | SUMMARY.

#[global] Instance Stage_eq_dec : EqDecision Stage.
Proof. solve_decision. Defined.

Record SyncConfig := {
  enable_metrics : bool;
  enable_analytics : bool
}.

(** The orchestrator object: its API client, its graph component, whether
    the driver connection is open, and the steps entered so far. *)
Record State := {
  api : Client.Session;
  store : Layer.World;
  connected : bool;
  entered : list Stage
}.

Definition new_state (d : Graph.Db) : State :=
  {| api := Client.new_session; store := Layer.new_world d;
     connected := true; entered := [] |}.

(** [try: body / finally: cleanup]. *)
Definition try_finally {S A} (body : M S A) (cleanup : M S unit) : M S A :=
  fun s =>
    match body s with
    | (r, s') =>
        match cleanup s' with
        | (Return _, s'') => (r, s'')
        | (Raise e, s'') => (Raise e, s'')
        end
    end.

Section WithCollaborators.
Variable srv : Client.Server.
Variable sync_config : SyncConfig.
(** The step methods, which the template leaves to be filled in. *)
Variables _create_indexes _sync_reference_data _sync_core_entities
          _sync_transactional_data _create_relationships
          _calculate_metrics _create_analytics : M State unit.

Definition enter (st : Stage) : M State unit :=
  modify (fun s => {| api := api s; store := store s;
                      connected := connected s; entered := entered s ++ [st] |}).

(** [self.api.authenticate()] on the orchestrator's client. *)
Definition api_authenticate : M State bool :=
  fun s =>
    match Client.authenticate srv (api s) with
    | (r, a') => (r, {| api := a'; store := store s;
                        connected := connected s; entered := entered s |})
    end.

Definition _authenticate : M State bool :=
  enter AUTH ;;;
  ok <- api_authenticate ;;
  if negb ok then ret false else ret true.

Definition _print_summary : M State unit := enter SUMMARY.

Definition _close_connections : M State unit :=
  modify (fun s => {| api := api s; store := store s;
                      connected := false; entered := entered s |}).

(** [if cond: step()]. *)
Definition step_if (cond : bool) (st : Stage) (step : M State unit) : M State unit :=
  if cond then enter st ;;; step else ret tt.

Definition run_full_sync (create_indexes dry_run : bool) : M State bool :=
  try_finally
    (try_except
       (ok <- _authenticate ;;
        if negb ok then ret false
        else
          step_if (create_indexes && negb dry_run) INDEX _create_indexes ;;;
          step_if (negb dry_run) REFERENCE _sync_reference_data ;;;
          step_if (negb dry_run) CORE_ENTITIES _sync_core_entities ;;;
          step_if (negb dry_run) TRANSACTIONAL _sync_transactional_data ;;;
          step_if (negb dry_run) RELATIONSHIPS _create_relationships ;;;
          step_if (enable_metrics sync_config && negb dry_run) METRICS _calculate_metrics ;;;
          step_if (enable_analytics sync_config && negb dry_run) ANALYTICS _create_analytics ;;;
          _print_summary ;;;
          ret true)
       Layer.any_exception
       (fun e => ret false))
    _close_connections.

End WithCollaborators.

(** A step as the template ships it: it only logs. *)
Definition template_step : M State unit := ret tt.

End Orchestrator.

(** ** Concrete inputs used by the examples *)

Module Scenario.
Import Client.

Definition cfg (n : Z) : Config :=
  {| api_url := "https://api.example.com"; max_retries := n |}.

Definition no_body : Body := {| body_items := None |}.
Definition empty_page : Body := {| body_items := Some [] |}.

Definition unauthorized : Reply := Response 401 no_body None.
Definition server_error : Reply := Response 500 no_body None.
Definition success : Reply := Response 200 empty_page None.

(** The server of the re-authentication test: 401, then 200; the token
    endpoint grants a token. *)
Definition srv_401_200 : Server := scripted [unauthorized; success] [Granted "t1"].

(** 401 twice, then 200; the token endpoint grants a token each time. *)
Definition srv_401_401_200 : Server :=
  scripted [unauthorized; unauthorized; success] [Granted "t1"; Granted "t2"].

(** The same, with a token endpoint that refuses. *)
Definition srv_401_refused : Server := scripted [unauthorized; success] [Refused].

(** A server that always answers 500. *)
Definition srv_500 : Server :=
  {| on_get := fun _ _ => server_error; on_auth := fun _ => Refused |}.

(** A server that cannot be reached. *)
Definition srv_down : Server :=
  {| on_get := fun _ _ => NoResponse "ConnectionError"; on_auth := fun _ => Refused |}.

Definition item (id : Z) : record := {[ "id" := PInt id ]}.

(** The three pages of the pagination test. *)
Definition three_pages : list Page :=
  [ ({| body_items := Some [item 1; item 2] |}, Some "page2_token");
    ({| body_items := Some [item 3; item 4] |}, Some "page3_token");
    ({| body_items := Some [item 5] |}, None) ].

Definition srv_pages : Server :=
  scripted ((fun p : Page => Response 200 p.1 p.2) <$> three_pages) [].

(** The customer records of the merge scenario: as the specification
    writes them ([owner]), and with the field the code reads
    ([accountOwner]). *)
Definition acme_owner : record :=
  {[ "guid" := PStr "c-1"; "name" := PStr "Acme";
     "owner" := PDict {[ "guid" := PStr "u-9" ]} ]}.

Definition acme : record :=
  {[ "guid" := PStr "c-1"; "name" := PStr "Acme";
     "accountOwner" := PDict {[ "guid" := PStr "u-9" ]} ]}.

Definition acme_corp : record :=
  {[ "guid" := PStr "c-1"; "name" := PStr "Acme Corp" ]}.

(** The Customer node after the first and after the second merge. *)
Definition acme_node : Graph.Node :=
  {| Graph.node_labels := {["Customer"]};
     Graph.node_props :=
       {[ "guid" := Graph.VStr "c-1"; "name" := Graph.VStr "Acme";
          "number" := Graph.VStr ""; "isActive" := Graph.VBool true;
          "accountOwnerGuid" := Graph.VStr "u-9";
          "lastModified" := Graph.VStr "" ]} |}.

Definition acme_corp_node : Graph.Node :=
  {| Graph.node_labels := {["Customer"]};
     Graph.node_props :=
       {[ "guid" := Graph.VStr "c-1"; "name" := Graph.VStr "Acme Corp";
          "number" := Graph.VStr ""; "isActive" := Graph.VBool true;
          "lastModified" := Graph.VStr "" ]} |}.

(** A store with one dependent node whose foreign key has no target. *)
Definition project_node : Graph.Node :=
  {| Graph.node_labels := {["Project"]};
     Graph.node_props := {[ "guid" := Graph.VStr "p-1";
                            "customerGuid" := Graph.VStr "c-404" ]} |}.

Definition dangling_db : Graph.Db :=
  {| Graph.nodes := [project_node]; Graph.rels := [] |}.

(** A store with one Month node. *)
Definition month_node : Graph.Node :=
  {| Graph.node_labels := {["Month"]};
     Graph.node_props := {[ "id" := Graph.VStr "2025-01" ]} |}.

Definition month_db : Graph.Db :=
  {| Graph.nodes := [month_node]; Graph.rels := [] |}.

(** A batch whose second item carries a key the first lacks. *)
Definition first_item : record := {[ "guid" := PStr "1"; "name" := PStr "A" ]}.
Definition later_item : record :=
  {[ "guid" := PStr "2"; "name" := PStr "B"; "email" := PStr "b@example.com" ]}.

(** A driver for a store that cannot be reached. *)
Definition unreachable : Graph.Driver :=
  fun _ _ => Raise (Neo4jError "ServiceUnavailable").

(** The externals of the concrete driver in the examples: a fixed clock,
    no aggregate properties, every other statement refused. *)
Definition clock : Graph.value := Graph.VStr "2025-01-31T23:59:00Z".
Definition no_aggregates : Graph.Db → nat → option (list (string * option Graph.value)) :=
  fun _ _ => Some [].
Definition neo4j : Graph.Driver := Graph.neo4j clock no_aggregates unreachable.

End Scenario.


(** ** Further vocabulary for the client *)

Module ClientMore.
Import Client.

(** A reply the client answers with a backoff sleep and another attempt:
    429, or any 5xx. *)
Definition is_transient (r : Reply) : bool :=
  match r with
  | Response status _ _ =>
      (status =? 429)%Z || ((500 <=? status)%Z && (status <? 600)%Z)
  | NoResponse _ => false
  end.

(** The GETs of one call: same URL and parameters, whatever the token. *)
Definition same_target (url : string) (params : gmap string string) (r : Request) : Prop :=
  req_url r = url ∧ req_params r = params.

(** The cursor the loop of [_make_request] holds after the pages [pages],
    when it held [t] before them. *)
Fixpoint cursor_after (t : option string) (pages : list Page) : option string :=
  match pages with
  | [] => t
  | (_, t') :: rest => cursor_after t' rest
  end.

(** The parameters sent while the loop holds the cursor [t]. *)
Definition params_with (params : gmap string string) (t : option string)
    : gmap string string :=
  if token_truthy t then next_params params t else params.

(** What one call of the attempts loop can have done between [s] and
    [s'] with [budget] attempts: it has sent at most [budget] GETs, all to
    [url] with [params], and followed each by at most one sleep or one
    call of [authenticate]. *)
Definition bounded_run (url : string) (params : gmap string string) (budget : nat)
    (s s' : Session) : Prop :=
  ∃ more naps,
    sent s' = sent s ++ more ∧
    slept s' = slept s ++ naps ∧
    length more ≤ budget ∧
    Forall (same_target url params) more ∧
    auth_calls s ≤ auth_calls s' ∧
    length naps + (auth_calls s' - auth_calls s) ≤ length more.

End ClientMore.

(** ** More of the graph layer: the other entity, relationship and
    aggregation modules *)

Module LayerMore.
Import Graph Layer.

(** [Neo4jBase.extract_nested_guid]: the nested object's guid when the
    field holds a non-empty map, None otherwise. *)
Definition extract_nested_guid (data : gmap string pyval) (nested_field : string) : pyval :=
  match dict_get data nested_field with
  | PDict d => if truthy (PDict d) then dict_get d "guid" else PNone
  | _ => PNone
  end.

(** A value that is truthy and no map: the inline extraction of the
    entity modules calls [get] on it. *)
Definition truthy_non_map (v : pyval) : bool :=
  truthy v && match v with PDict _ => false | _ => true end.

(** [range(a, b)] for integers. *)
Definition range_from (a b : Z) : list Z :=
  (fun i => (a + Z.of_nat i)%Z) <$> seq 0 (Z.to_nat (b - a)).

(** [f"{n:02d}"]. *)
Definition two_digits (n : Z) : string :=
  if (0 <=? n)%Z && (n <? 10)%Z then "0" +:+ pretty n else pretty n.

(** [f"{year}-Q{quarter}"] and [f"{year}-{month:02d}"]. *)
Definition quarter_id (year quarter : Z) : string :=
  pretty year +:+ "-Q" +:+ pretty quarter.

Definition month_id (year month : Z) : string :=
  pretty year +:+ "-" +:+ two_digits month.

(** The statement of [create_year_nodes] for one year. *)
Definition year_query (year : Z) : Statement :=
  MergeSet "Year" "year" (PInt year) [("yearString", PStr (pretty year))].

Definition quarter_text : string :=
  "
                    MATCH (y:Year {year: $year})
                    MERGE (q:Quarter {id: $quarter_id})
                    SET q.year = $year,
                        q.quarter = $quarter,
                        q.yearQuarter = $quarter_id
                    MERGE (y)-[:CONTAINS]->(q)
                    ".

Definition month_text : string :=
  "
                    MATCH (q:Quarter {id: $quarter_id})
                    MERGE (m:Month {id: $month_id})
                    SET m.year = $year,
                        m.month = $month,
                        m.yearMonth = $month_id,
                        m.quarter = $quarter
                    MERGE (q)-[:CONTAINS]->(m)
                    ".

(** The statement of [create_quarter_nodes] for one quarter of one year. *)
Definition quarter_query (year quarter : Z) : Statement :=
  Cypher quarter_text
    {[ "year" := PInt year; "quarter" := PInt quarter;
       "quarter_id" := PStr (quarter_id year quarter) ]}.

(** The statement of [create_month_nodes] for one month of one year. *)
Definition month_query (year month : Z) : Statement :=
  let quarter := ((month - 1) / 3 + 1)%Z in
  Cypher month_text
    {[ "year" := PInt year; "month" := PInt month; "quarter" := PInt quarter;
       "quarter_id" := PStr (quarter_id year quarter);
       "month_id" := PStr (month_id year month) ]}.

(** The queries the three methods collect, in order. *)
Definition year_queries (start_year end_year : Z) : list Statement :=
  year_query <$> range_from start_year (end_year + 1).

Definition quarter_queries (start_year end_year : Z) : list Statement :=
  year ← range_from start_year (end_year + 1);
  quarter_query year <$> range_from 1 5.

Definition month_queries (start_year end_year : Z) : list Statement :=
  year ← range_from start_year (end_year + 1);
  month_query year <$> range_from 1 13.

(** The parameters of a statement kept as text. *)
Definition statement_params (stmt : Statement) : gmap string pyval :=
  match stmt with
  | Cypher _ params => params
  | _ => ∅
  end.

(** The three linking methods of [CustomerRelationships] that are
    shipped with their labels filled in, the label of the dependent
    nodes of each and its relationship type. *)
Inductive Linkage := Contact | Address | Invoice.

Definition dependent (l : Linkage) : string :=
  match l with
  | Contact => "ContactPerson"
  | Address => "Address"
  | Invoice => "Invoice"
  end.

Definition relationship (l : Linkage) : string :=
  match l with
  | Contact => "HAS_CONTACT"
  | Address => "HAS_ADDRESS"
  | Invoice => "HAS_INVOICE"
  end.

Section WithDriver.
Variable run : Driver.

(** [UserSync.sync_user]. *)
Definition sync_user (user_data : gmap string pyval) : M World bool :=
  role_guid <- nested_guid user_data "role" ;;
  team_guid <- nested_guid user_data "team" ;;
  supervisor_guid <- nested_guid user_data "supervisor" ;;
  department_guid <- nested_guid user_data "department" ;;
  permission_profile_guid <- nested_guid user_data "permissionProfile" ;;
  _execute_query run
    (MergeSet "User" "guid" (dict_get user_data "guid")
       [ ("firstName", dict_get_default user_data "firstName" (PStr ""));
         ("lastName", dict_get_default user_data "lastName" (PStr ""));
         ("email", dict_get_default user_data "email" (PStr ""));
         ("isActive", dict_get_default user_data "isActive" (PBool true));
         ("roleGuid", role_guid);
         ("teamGuid", team_guid);
         ("supervisorGuid", supervisor_guid);
         ("departmentGuid", department_guid);
         ("permissionProfileGuid", permission_profile_guid);
         ("lastModified",
          dict_get_default user_data "lastModifiedDateTime"
            (dict_get_default user_data "lastUpdatedDateTime" (PStr ""))) ]).

(** The three other methods of [CustomerRelationships]: the same shape
    with their own labels, relationship type and log lines. *)
Definition create_customer_contact_relationships : M World value :=
  try_except
    (rows <- session_run run
               (LinkByForeignKey "ContactPerson" "customerGuid" "Customer" "HAS_CONTACT") ;;
     count <- single_count rows "count" ;;
     logger (Info ("  Created " +:+ str_value count
                   +:+ " Customer→ContactPerson relationships")) ;;;
     ret count)
    any_exception
    (fun e =>
       logger (Error ("Failed to create Customer→ContactPerson relationships: "
                      +:+ str_exn e)) ;;;
       ret (VInt 0)).

Definition create_customer_address_relationships : M World value :=
  try_except
    (rows <- session_run run
               (LinkByForeignKey "Address" "customerGuid" "Customer" "HAS_ADDRESS") ;;
     count <- single_count rows "count" ;;
     logger (Info ("  Created " +:+ str_value count
                   +:+ " Customer→Address relationships")) ;;;
     ret count)
    any_exception
    (fun e =>
       logger (Error ("Failed to create Customer→Address relationships: "
                      +:+ str_exn e)) ;;;
       ret (VInt 0)).

Definition create_customer_invoice_relationships : M World value :=
  try_except
    (rows <- session_run run
               (LinkByForeignKey "Invoice" "customerGuid" "Customer" "HAS_INVOICE") ;;
     count <- single_count rows "count" ;;
     logger (Info ("  Created " +:+ str_value count
                   +:+ " Customer→Invoice relationships")) ;;;
     ret count)
    any_exception
    (fun e =>
       logger (Error ("Failed to create Customer→Invoice relationships: "
                      +:+ str_exn e)) ;;;
       ret (VInt 0)).

(** The method of a linkage. *)
Definition create_customer_relationships (l : Linkage) : M World value :=
  match l with
  | Contact => create_customer_contact_relationships
  | Address => create_customer_address_relationships
  | Invoice => create_customer_invoice_relationships
  end.

(** [AggregationNodes.create_year_nodes], [create_quarter_nodes] and
    [create_month_nodes]. *)
Definition create_year_nodes (start_year end_year : Z) : M World Z :=
  count <- _execute_batch run (year_queries start_year end_year) ;;
  logger (Info ("  ✓ Created " +:+ pretty count +:+ " Year nodes ("
                +:+ pretty start_year +:+ "-" +:+ pretty end_year +:+ ")")) ;;;
  ret count.

Definition create_quarter_nodes (start_year end_year : Z) : M World Z :=
  count <- _execute_batch run (quarter_queries start_year end_year) ;;
  logger (Info ("  ✓ Created " +:+ pretty count +:+ " Quarter nodes")) ;;;
  ret count.

Definition create_month_nodes (start_year end_year : Z) : M World Z :=
  count <- _execute_batch run (month_queries start_year end_year) ;;
  logger (Info ("  ✓ Created " +:+ pretty count +:+ " Month nodes")) ;;;
  ret count.

End WithDriver.

End LayerMore.

(** ** More concrete inputs *)

Module ScenarioMore.
Import Graph.

(** A user record with one nested object. *)
Definition john : gmap string pyval :=
  {[ "guid" := PStr "u-1"; "firstName" := PStr "John";
     "role" := PDict {[ "guid" := PStr "r-1"; "name" := PStr "Engineer" ]} ]}.

(** A record whose nested field is a string, not an object. *)
Definition flat_owner : gmap string pyval :=
  {[ "guid" := PStr "c-2"; "accountOwner" := PStr "u-9" ]}.

(** A record with a proper business unit and an owner given as a string. *)
Definition flat_owner_with_unit : gmap string pyval :=
  {[ "guid" := PStr "c-3"; "businessUnit" := PDict {[ "guid" := PStr "bu-1" ]};
     "accountOwner" := PStr "u-9" ]}.

(** A contact person that refers to the customer [fk]. *)
Definition contact (guid fk : string) : Node :=
  {| node_labels := {["ContactPerson"]};
     node_props := {[ "guid" := VStr guid; "customerGuid" := VStr fk ]} |}.

(** Two stores with one customer and a contact of it; in the first, a
    second contact refers to a customer that does not exist. *)
Definition with_gap : Db :=
  {| nodes := [Scenario.acme_node; contact "k-1" "c-1"; contact "k-2" "c-404"];
     rels := [] |}.

Definition without_gap : Db :=
  {| nodes := [Scenario.acme_node; contact "k-1" "c-1"]; rels := [] |}.

(** A driver that accepts every statement and changes nothing. *)
Definition accepting : Driver := fun _ d => Return (d, []).

End ScenarioMore.

(** * What a statement leaves alone *)

Module GraphMore.
Import Graph.

(** What a successful or failed [MERGE (n:label {key: $kv}) SET ...] may
    do to a database: relationships stay; every node that does not match
    the pattern stays where it is; at most one node is added, at the end,
    carrying the one label; no node changes its labels. *)
Definition merge_frame (label key : string) (kv : pyval) (d d' : Db) : Prop :=
  rels d' = rels d
  ∧ (∀ i n, nodes d !! i = Some n →
       has_label label n = false ∨ Some (prop n key) ≠ to_prop kv →
       nodes d' !! i = Some n)
  ∧ length (nodes d) ≤ length (nodes d') ≤ S (length (nodes d))
  ∧ (∀ i n', nodes d' !! i = Some n' → length (nodes d) ≤ i →
       node_labels n' = {[label]})
  ∧ (∀ i n n', nodes d !! i = Some n → nodes d' !! i = Some n' →
       node_labels n' = node_labels n).

(** The database holds a Year node for [y], as [create_year_nodes] writes
    it. *)
Definition has_year (y : Z) (ns : list Node) : Prop :=
  ∃ i n, ns !! i = Some n ∧ has_label "Year" n = true
         ∧ prop n "year" = Some (VInt y)
         ∧ prop n "yearString" = Some (VStr (pretty y)).

(** The relationship a linking statement merges for a matched pair. *)
Definition link (rtype : string) (cp : nat * nat) : Rel :=
  {| rel_type := rtype; rel_src := cp.1; rel_dst := cp.2 |}.

End GraphMore.

(** * The plan of a full sync *)

Module OrchestratorMore.
Import Orchestrator.

(** The steps [run_full_sync] goes through when nothing fails, in the
    order of its body, each under its guard. *)
Definition planned_stages (sync_config : SyncConfig) (create_indexes dry_run : bool)
    : list Stage :=
  [AUTH]
  ++ (if create_indexes && negb dry_run then [INDEX] else [])
  ++ (if negb dry_run then [REFERENCE; CORE_ENTITIES; TRANSACTIONAL; RELATIONSHIPS] else [])
  ++ (if enable_metrics sync_config && negb dry_run then [METRICS] else [])
  ++ (if enable_analytics sync_config && negb dry_run then [ANALYTICS] else [])
  ++ [SUMMARY].

(** A guarded step: its guard, its stage and its method. *)
Abbreviation Step := (bool * Stage * M State unit)%type.

(** Going through guarded steps in order, as the docstring of
    [run_full_sync] lists them: a step whose guard is false is skipped;
    the others are entered and run, each from the state the one before
    left; the first that raises ends the walk. The result is that
    exception, if any, and the state reached. To be compared with the
    body of the method. *)
Fixpoint walk (steps : list Step) (s : State) : option exn * State :=
  match steps with
  | [] => (None, s)
  | (guard, st, step) :: rest =>
      if guard then
        match step (enter st s).2 with
        | (Return _, s') => walk rest s'
        | (Raise e, s') => (Some e, s')
        end
      else walk rest s
  end.

Section Table.
Variable sync_config : SyncConfig.
Variables _create_indexes _sync_reference_data _sync_core_entities
          _sync_transactional_data _create_relationships
          _calculate_metrics _create_analytics : M State unit.

(** Steps 2 to 8 of [run_full_sync], with the guards of its body. *)
Definition guarded_steps (create_indexes dry_run : bool) : list Step :=
  [ (create_indexes && negb dry_run, INDEX, _create_indexes);
    (negb dry_run, REFERENCE, _sync_reference_data);
    (negb dry_run, CORE_ENTITIES, _sync_core_entities);
    (negb dry_run, TRANSACTIONAL, _sync_transactional_data);
    (negb dry_run, RELATIONSHIPS, _create_relationships);
    (enable_metrics sync_config && negb dry_run, METRICS, _calculate_metrics);
    (enable_analytics sync_config && negb dry_run, ANALYTICS, _create_analytics) ].
End Table.

End OrchestratorMore.

(** * Configuration ([config.py]) and the command line ([{project}_sync.py]) *)

Module APIConfig.

(** The fields [validate] reads. *)
Record t := {
  api_url : string;
  client_id : string;
  client_secret : string;
  api_key : option string
}.

Section Template.
(** The name the template leaves to be filled in. *)
Variable API_NAME : string.

(** [self.client_id and self.client_secret], as a truth value. *)
Definition has_oauth (c : t) : bool :=
  negb (String.eqb (client_id c) "") && negb (String.eqb (client_secret c) "").

(** [self.api_key], as a truth value: None and the empty string are falsy. *)
Definition has_api_key (c : t) : bool :=
  match api_key c with
  | Some k => negb (String.eqb k "")
  | None => false
  end.

Definition validate (c : t) : result bool :=
  if String.eqb (api_url c) "" then
    Raise (ValueError (API_NAME +:+ "_URL is required"))
  else if negb (has_oauth c || has_api_key c) then
    Raise (ValueError
             ("Either OAuth credentials (" +:+ API_NAME +:+ "_CLIENT_ID, "
              +:+ API_NAME +:+ "_CLIENT_SECRET) "
              +:+ "or API key (" +:+ API_NAME +:+ "_API_KEY) is required"))
  else Return true.
End Template.

End APIConfig.

Module Neo4jConfig.

Record t := {
  uri : string;
  username : string;
  password : string;
  database : string
}.

Definition validate (c : t) : result bool :=
  if String.eqb (uri c) "" then Raise (ValueError "NEO4J_URI is required")
  else if String.eqb (username c) "" then Raise (ValueError "NEO4J_USERNAME is required")
  else if String.eqb (password c) "" then Raise (ValueError "NEO4J_PASSWORD is required")
  else Return true.

End Neo4jConfig.

Module Cli.
Import Orchestrator.

(** [--mode], restricted by [choices]. *)
Inductive Mode := full | incremental.

(** The process before the orchestrator is built: no driver yet. *)
Definition fresh_state (d : Graph.Db) : State :=
  {| api := Client.new_session; store := Layer.new_world d;
     connected := false; entered := [] |}.

(** A pure, possibly raising, computation as a step. *)
Definition lift_result {S A} (r : result A) : M S A := fun s => (r, s).

(** An operation of the graph component, run on the orchestrator's. *)
Definition on_store {A} (m : M Layer.World A) : M State A :=
  fun s =>
    match m (store s) with
    | (r, w') => (r, {| api := api s; store := w';
                        connected := connected s; entered := entered s |})
    end.

Section WithCollaborators.
Variable run : Graph.Driver.
Variable srv : Client.Server.
Variable sync_config : SyncConfig.
Variable API_NAME : string.
Variables _create_indexes _sync_reference_data _sync_core_entities
          _sync_transactional_data _create_relationships
          _calculate_metrics _create_analytics : M State unit.

(** [Neo4jBase.connect]: create the driver, then test the connection. *)
Definition connect (config : Neo4jConfig.t) : M State unit :=
  on_store (Layer.logger (Layer.Info ("Connecting to Neo4j at "
                                      +:+ Neo4jConfig.uri config +:+ "..."))) ;;;
  modify (fun s => {| api := api s; store := store s;
                      connected := true; entered := entered s |}) ;;;
  on_store (Layer.session_run run (Graph.Cypher "RETURN 1 as test" ∅)) ;;;
  on_store (Layer.logger (Layer.Info "✓ Connected to Neo4j")).

(** [SyncOrchestrator.__init__]: the base class connects, then the two
    configurations are validated. *)
Definition init (api_config : APIConfig.t) (neo4j_config : Neo4jConfig.t) : M State unit :=
  connect neo4j_config ;;;
  lift_result (APIConfig.validate API_NAME api_config) ;;;
  lift_result (Neo4jConfig.validate neo4j_config) ;;;
  ret tt.

(** [main], after the arguments are parsed; its own log lines are left
    out. The result is the exit code. *)
Definition main (api_config : APIConfig.t) (neo4j_config : Neo4jConfig.t)
    (mode : Mode) (skip_indexes dry_run : bool) : M State Z :=
  try_except
    (init api_config neo4j_config ;;;
     match mode with
     | full =>
         success <- run_full_sync srv sync_config _create_indexes _sync_reference_data
                      _sync_core_entities _sync_transactional_data _create_relationships
                      _calculate_metrics _create_analytics (negb skip_indexes) dry_run ;;
         if success then ret 0%Z else ret 1%Z
     | incremental => ret 1%Z
     end)
    Layer.any_exception
    (fun e => ret 1%Z).

End WithCollaborators.

End Cli.

(** * The index migration ([migrations/migration_001_create_indexes.py]) *)

Module Migration.

Inductive Line :=
| Info (msg : string)
| Warning (msg : string)
| Error (msg : string).

(** [self.stats]. *)
Record Stats := {
  indexes_created : Z;
  constraints_created : Z;
  errors : list string
}.

(** An [IndexMigration] object: its mode, its counters, the statements it
    has sent through [session.run], and what it has logged. *)
Record State := {
  dry_run : bool;
  stats : Stats;
  sent : list string;
  out : list Line
}.

(** A record of a result, as the code reads it. *)
Abbreviation Record_ := (gmap string string).

(** The store, for statements given as text: the outcome may depend on
    the statements sent before. *)
Abbreviation Schema := (list string → string → result (list Record_)).

(** [needle in hay], on strings. *)
Fixpoint contains (needle hay : string) : bool :=
  String.prefix needle hay ||
  match hay with
  | EmptyString => false
  | String _ rest => contains needle rest
  end.

(** [s.replace(old, new)] for a non-empty [old]: the occurrences from
    left to right, without overlap. [skip] counts the characters of an
    occurrence just replaced that are still to be passed over. *)
Fixpoint replace_from (old new : string) (skip : nat) (s : string) : string :=
  match s with
  | EmptyString => EmptyString
  | String c rest =>
      match skip with
      | S k => replace_from old new k rest
      | O =>
          if String.prefix old s
          then new +:+ replace_from old new (String.length old - 1) rest
          else String c (replace_from old new 0 rest)
      end
  end.

Definition replace (old new s : string) : string := replace_from old new 0 s.

(** ["=" * 80]. *)
Definition rule : string := String.concat "" (replicate 80 "=").

(** The newline of ["\n..."]. *)
Definition nl : string := "
".

Definition py_bool (b : bool) : string := if b then "True" else "False".

Definition set_stats (st : Stats) (s : State) : State :=
  {| dry_run := dry_run s; stats := st; sent := sent s; out := out s |}.

Definition logger (l : Line) : M State unit :=
  modify (fun s => {| dry_run := dry_run s; stats := stats s; sent := sent s;
                      out := out s ++ [l] |}).

(** [self.stats["errors"].append(msg)]. *)
Definition append_error (msg : string) : M State unit :=
  modify (fun s => set_stats {| indexes_created := indexes_created (stats s);
                                constraints_created := constraints_created (stats s);
                                errors := errors (stats s) ++ [msg] |} s).

Definition count_constraint : M State unit :=
  modify (fun s => set_stats {| indexes_created := indexes_created (stats s);
                                constraints_created := (constraints_created (stats s) + 1)%Z;
                                errors := errors (stats s) |} s).

Definition count_index : M State unit :=
  modify (fun s => set_stats {| indexes_created := (indexes_created (stats s) + 1)%Z;
                                constraints_created := constraints_created (stats s);
                                errors := errors (stats s) |} s).

(** [for x in l: body(x)]. *)
Fixpoint for_each {A} (l : list A) (body : A → M State unit) : M State unit :=
  match l with
  | [] => ret tt
  | x :: rest => body x ;;; for_each rest body
  end.

(** [record[key]]. *)
Definition field (record : Record_) (key : string) : M State string :=
  match record !! key with
  | Some v => ret v
  | None => raise (KeyError key)
  end.

(** [[record[key] for record in result]]. *)
Fixpoint fields (result : list Record_) (key : string) : M State (list string) :=
  match result with
  | [] => ret []
  | record :: rest =>
      v <- field record key ;;
      vs <- fields rest key ;;
      ret (v :: vs)
  end.

(** The statements of the four steps, with their descriptions. *)
Definition constraint_query (label property_name : string) : string :=
  "
            CREATE CONSTRAINT " +:+ (label +:+ "_" +:+ property_name +:+ "_unique")
  +:+ " IF NOT EXISTS
            FOR (n:" +:+ label +:+ ")
            REQUIRE n." +:+ property_name +:+ " IS UNIQUE
            ".

Definition index_query (label property_name : string) : string :=
  "
            CREATE INDEX " +:+ (label +:+ "_" +:+ property_name +:+ "_idx")
  +:+ " IF NOT EXISTS
            FOR (n:" +:+ label +:+ ")
            ON (n." +:+ property_name +:+ ")
            ".

Definition composite_query (label : string) (properties : list string)
    (index_name : string) : string :=
  "
            CREATE INDEX " +:+ index_name +:+ " IF NOT EXISTS
            FOR (n:" +:+ label +:+ ")
            ON (" +:+ String.concat ", " ((fun p => "n." +:+ p) <$> properties) +:+ ")
            ".

Definition fulltext_query (index_name : string) (labels properties : list string)
    : string :=
  "
            CREATE FULLTEXT INDEX " +:+ index_name +:+ " IF NOT EXISTS
            FOR (n:`" +:+ String.concat "`, `" labels +:+ "`)
            ON EACH [n.`"
  +:+ replace "`, `" "`, n.`" (String.concat "`, `" properties) +:+ "`]
            ".

Definition show_indexes : string := "SHOW INDEXES".

Definition show_pending : string :=
  "SHOW INDEXES YIELD name, state WHERE state <> 'ONLINE'".

Section WithSchema.
Variable exec : Schema.
(** The labels the template leaves to be filled in. *)
Variable Entity3 Entity4 : string.

(** [session.run(query)]. *)
Definition session_run (query : string) : M State (list Record_) :=
  fun s =>
    let s' := {| dry_run := dry_run s; stats := stats s;
                 sent := sent s ++ [query]; out := out s |} in
    match exec (sent s) query with
    | Return rows => (Return rows, s')
    | Raise e => (Raise e, s')
    end.

Definition _execute_migration (query description : string) : M State unit :=
  fun s =>
    if dry_run s then
      logger (Info ("  [DRY RUN] Would create: " +:+ description)) s
    else
      try_except
        (session_run query ;;;
         logger (Info ("  ✓ Created: " +:+ description)) ;;;
         if contains "CONSTRAINT" query then count_constraint else count_index)
        Layer.any_exception
        (fun e =>
           if contains "already exists" (Layer.lower (str_exn e))
              || contains "equivalent" (Layer.lower (str_exn e))
           then logger (Info ("  ⊙ Already exists: " +:+ description))
           else
             logger (Error ("  ✗ Failed to create " +:+ description +:+ ": "
                            +:+ str_exn e)) ;;;
             append_error (description +:+ ": " +:+ str_exn e))
        s.

Definition constraints : list (string * string) :=
  [ ("Customer", "guid"); ("User", "guid"); ("Project", "guid");
    (Entity3, "guid"); (Entity4, "guid"); ("Customer", "number") ].

Definition _create_unique_constraints : M State unit :=
  logger (Info (nl +:+ "1. Creating unique constraints (also creates indexes)...")) ;;;
  for_each constraints (fun '(label, property_name) =>
    _execute_migration (constraint_query label property_name)
      ("UNIQUE " +:+ label +:+ "." +:+ property_name)).

Definition indexes : list (string * string) :=
  [ ("Customer", "number"); ("Customer", "name"); ("Customer", "isActive");
    ("User", "email"); ("User", "isActive"); ("User", "firstName"); ("User", "lastName");
    ("Project", "isActive"); ("Project", "isClosed"); ("Project", "deadline");
    ("Project", "customerGuid") ].

Definition _create_property_indexes : M State unit :=
  logger (Info (nl +:+ "2. Creating property indexes...")) ;;;
  for_each indexes (fun '(label, property_name) =>
    _execute_migration (index_query label property_name)
      ("INDEX " +:+ label +:+ "." +:+ property_name)).

Definition composite_indexes : list (string * list string * string) :=
  [ ("Project", ["isActive"; "isClosed"], "project_status_idx");
    ("User", ["firstName"; "lastName"], "user_name_idx") ].

Definition _create_composite_indexes : M State unit :=
  logger (Info (nl +:+ "3. Creating composite indexes...")) ;;;
  for_each composite_indexes (fun '(label, properties, index_name) =>
    _execute_migration (composite_query label properties index_name)
      ("COMPOSITE " +:+ label +:+ "." +:+ String.concat "+" properties)).

Definition fulltext_indexes : list (string * list string * list string) :=
  [ ("customer_search", ["Customer"], ["name"]);
    ("user_search", ["User"], ["firstName"; "lastName"; "email"]);
    ("project_search", ["Project"], ["name"]) ].

Definition _create_fulltext_indexes : M State unit :=
  logger (Info (nl +:+ "4. Creating full-text search indexes...")) ;;;
  for_each fulltext_indexes (fun '(index_name, labels, properties) =>
    _execute_migration (fulltext_query index_name labels properties)
      ("FULLTEXT " +:+ index_name)).

Definition _verify_indexes : M State unit :=
  logger (Info (nl +:+ "5. Verifying indexes...")) ;;;
  try_except
    (result <- session_run show_indexes ;;
     indexes <- fields result "name" ;;
     logger (Info ("  ✓ Total indexes: " +:+ pretty (length indexes))) ;;;
     pending <- session_run show_pending ;;
     match pending with
     | [] => ret tt
     | _ =>
         logger (Warning ("  ⚠ Indexes not yet ONLINE: " +:+ pretty (length pending))) ;;;
         for_each pending (fun record =>
           name <- field record "name" ;;
           state <- field record "state" ;;
           logger (Warning ("    - " +:+ name +:+ ": " +:+ state)))
     end)
    Layer.any_exception
    (fun e =>
       logger (Error ("Failed to verify indexes: " +:+ str_exn e)) ;;;
       append_error ("Verification failed: " +:+ str_exn e)).

Definition _print_summary : M State unit :=
  logger (Info (nl +:+ rule)) ;;;
  logger (Info "MIGRATION SUMMARY") ;;;
  logger (Info rule) ;;;
  (fun s => logger (Info ("Constraints created: "
                          +:+ pretty (constraints_created (stats s)))) s) ;;;
  (fun s => logger (Info ("Indexes created:     "
                          +:+ pretty (indexes_created (stats s)))) s) ;;;
  (fun s => logger (Info ("Errors:              "
                          +:+ pretty (length (errors (stats s))))) s) ;;;
  (fun s =>
     match errors (stats s) with
     | [] => ret tt s
     | errs =>
         (logger (Error "Errors encountered:") ;;;
          for_each errs (fun error => logger (Error ("  - " +:+ error)))) s
     end) ;;;
  logger (Info (rule +:+ nl)).

(** [IndexMigration.run]; the result is [self.stats]. *)
Definition run : M State Stats :=
  logger (Info rule) ;;;
  logger (Info "STARTING INDEX MIGRATION (001_create_indexes)") ;;;
  (fun s => logger (Info ("Dry run mode: " +:+ py_bool (dry_run s))) s) ;;;
  logger (Info rule) ;;;
  try_except
    (_create_unique_constraints ;;;
     _create_property_indexes ;;;
     _create_composite_indexes ;;;
     _create_fulltext_indexes ;;;
     _verify_indexes ;;;
     _print_summary ;;;
     (fun s => (Return (stats s), s)))
    Layer.any_exception
    (fun e =>
       logger (Error ("Migration failed: " +:+ str_exn e)) ;;;
       append_error (str_exn e) ;;;
       (fun s => (Return (stats s), s))).

(** The statements of the four steps, in the order they are sent. *)
Definition statements : list string :=
  ((fun '(label, property_name) => constraint_query label property_name) <$> constraints)
  ++ ((fun '(label, property_name) => index_query label property_name) <$> indexes)
  ++ ((fun '(label, properties, index_name) =>
         composite_query label properties index_name) <$> composite_indexes)
  ++ ((fun '(index_name, labels, properties) =>
         fulltext_query index_name labels properties) <$> fulltext_indexes).

(** From [s] to [s'] nothing but the log has changed. *)
Definition only_logs (s s' : State) : Prop :=
  dry_run s' = dry_run s ∧ stats s' = stats s ∧ sent s' = sent s.

(** What [_verify_indexes] may do: it sends the first check, and the
    second unless the first failed; it may record one error. *)
Definition verifies (s s' : State) : Prop :=
  dry_run s' = dry_run s
  ∧ (sent s' = sent s ++ [show_indexes]
     ∨ sent s' = sent s ++ [show_indexes; show_pending])
  ∧ indexes_created (stats s') = indexes_created (stats s)
  ∧ constraints_created (stats s') = constraints_created (stats s)
  ∧ (errors (stats s') = errors (stats s)
     ∨ ∃ msg, errors (stats s') = errors (stats s) ++ [msg]).

(** How many statements of a list count as constraints, and as indexes,
    when they succeed. *)
Definition constraint_count (qs : list string) : Z :=
  Z.of_nat (length (filter (fun q => contains "CONSTRAINT" q = true) qs)).

Definition index_count (qs : list string) : Z :=
  Z.of_nat (length (filter (fun q => contains "CONSTRAINT" q = false) qs)).

(** What a part of the migration that is given the statements [qs] may
    do to the object, from [s] to [s']: the mode stays; a dry run sends
    nothing and keeps the counters; otherwise exactly [qs] is sent, in
    order, the counters grow by at most the number of statements of
    their kind, and by exactly that number, without a new error, when
    the store accepts every statement. *)
Definition sends (qs : list string) (s s' : State) : Prop :=
  dry_run s' = dry_run s
  ∧ sent s' = sent s ++ (if dry_run s then [] else qs)
  ∧ (dry_run s = true → stats s' = stats s)
  ∧ (constraints_created (stats s) ≤ constraints_created (stats s')
     ≤ constraints_created (stats s) + constraint_count qs)%Z
  ∧ (indexes_created (stats s) ≤ indexes_created (stats s')
     ≤ indexes_created (stats s) + index_count qs)%Z
  ∧ (dry_run s = false →
     (∀ h q, q ∈ qs → ∃ rows, exec h q = Return rows) →
     stats s' = {| indexes_created := indexes_created (stats s) + index_count qs;
                   constraints_created := constraints_created (stats s) + constraint_count qs;
                   errors := errors (stats s) |}).

End WithSchema.

(** A migration object as [__init__] leaves it. *)
Definition new_migration (dry : bool) : State :=
  {| dry_run := dry;
     stats := {| indexes_created := 0; constraints_created := 0; errors := [] |};
     sent := []; out := [] |}.

(** A store that accepts every statement and lists no index. *)
Definition accepting : Schema := fun _ _ => Return [].

End Migration.

(** * Properties of the client *)

Module ClientFacts.
Import Client.

Lemma range_length (n : Z) : (0 ≤ n)%Z → Z.of_nat (length (range n)) = n.
Proof. intros Hn. unfold range. rewrite length_fmap, length_seq. lia. Qed.

Lemma range_from_one (n : Z) : (1 ≤ n)%Z → ∃ rest, range n = 0%Z :: rest.
Proof.
  intros Hn. unfold range.
  destruct (Z.to_nat n) as [|k] eqn:Hk; [lia|]. cbn. eauto.
Qed.

Lemma range_from_two (n : Z) : (2 ≤ n)%Z → ∃ rest, range n = 0%Z :: 1%Z :: rest.
Proof.
  intros Hn. unfold range.
  destruct (Z.to_nat n) as [|[|k]] eqn:Hk; [lia|lia|]. cbn. eauto.
Qed.

Section Attempts.
Variable srv : Server.
Variable config : Config.

Lemma attempts_cons url params attempt rest s :
  attempts srv config url params (attempt :: rest) s =
  match on_get srv (length (sent s)) (request_of url params s) with
  | Response status data next_token =>
      if raises_for_status status then
        if (status =? 401)%Z then
          (ok <- authenticate srv ;;
           if ok then attempts srv config url params rest
           else raise (HTTPError status)) (after_get url params s)
        else if (status =? 429)%Z then
          (sleep (2 ^ attempt) ;;; attempts srv config url params rest)
            (after_get url params s)
        else if (500 <=? status)%Z && (status <? 600)%Z then
          (sleep (2 ^ attempt) ;;; attempts srv config url params rest)
            (after_get url params s)
        else (Raise (HTTPError status), after_get url params s)
      else (Return (data, next_token), after_get url params s)
  | NoResponse kind =>
      if (attempt <? max_retries config - 1)%Z then
        (sleep (2 ^ attempt) ;;; attempts srv config url params rest)
          (after_get url params s)
      else (Raise (TransportError kind), after_get url params s)
  end.
Proof.
  cbn [attempts]. unfold bind at 1, session_get. fold (request_of url params s).
  fold (after_get url params s).
  destruct (on_get srv _ _) as [status data next_token|kind]; [|by case_match].
  repeat case_match; reflexivity.
Qed.

(** A successful answer ends the request at once. *)
Lemma attempts_success url params attempt rest s status body tok :
  on_get srv (length (sent s)) (request_of url params s) = Response status body tok →
  raises_for_status status = false →
  attempts srv config url params (attempt :: rest) s =
  (Return (body, tok), after_get url params s).
Proof. intros Hget Hst. by rewrite attempts_cons, Hget, Hst. Qed.

(** A 401 calls [authenticate] once and goes on according to its answer. *)
Lemma attempts_401 url params attempt rest s body tok :
  on_get srv (length (sent s)) (request_of url params s) = Response 401 body tok →
  attempts srv config url params (attempt :: rest) s =
  match on_auth srv (auth_calls s) with
  | Granted t =>
      attempts srv config url params rest
        {| token := Some t; sent := sent s ++ [request_of url params s];
           auth_calls := S (auth_calls s); slept := slept s |}
  | Refused =>
      (Raise (HTTPError 401),
       {| token := token s; sent := sent s ++ [request_of url params s];
          auth_calls := S (auth_calls s); slept := slept s |})
  | Malformed =>
      (Raise (KeyError "access_token"),
       {| token := token s; sent := sent s ++ [request_of url params s];
          auth_calls := S (auth_calls s); slept := slept s |})
  end.
Proof.
  intros Hget. rewrite attempts_cons, Hget.
  change (raises_for_status 401) with true. change (401 =? 401)%Z with true. cbv iota.
  unfold bind, authenticate. cbn [auth_calls after_get token sent slept].
  destruct (on_auth srv (auth_calls s)); reflexivity.
Qed.

Lemma attempts_always_500 url params todo s :
  (∀ n req, ∃ body tok, on_get srv n req = Response 500 body tok) →
  attempts srv config url params todo s =
  (Raise (PlainException (max_retries_message config url)),
   {| token := token s;
      sent := sent s ++ replicate (length todo) (request_of url params s);
      auth_calls := auth_calls s;
      slept := slept s ++ (Z.pow 2 <$> todo) |}).
Proof.
  intros Hsrv. revert s. induction todo as [|attempt rest IH]; intros s.
  - cbn. rewrite !app_nil_r. by destruct s.
  - destruct (Hsrv (length (sent s)) (request_of url params s)) as (body & tok & Hget).
    rewrite attempts_cons, Hget. cbn. unfold bind, sleep, modify. cbn.
    rewrite IH. cbn. unfold request_of. cbn.
    by rewrite <- !app_assoc.
Qed.

(** When no GET gets through, the attempts numbered [a, a + k) sleep
    after each failure but the last, whose error is then re-raised. *)
Lemma attempts_unreachable url params (a k : nat) s :
  (∀ n req, ∃ kind, on_get srv n req = NoResponse kind) →
  Z.of_nat (a + S k) = max_retries config →
  ∃ kind,
    on_get srv (length (sent s) + k) (request_of url params s) = NoResponse kind ∧
    attempts srv config url params (Z.of_nat <$> seq a (S k)) s =
    (Raise (TransportError kind),
     {| token := token s;
        sent := sent s ++ replicate (S k) (request_of url params s);
        auth_calls := auth_calls s;
        slept := slept s ++ (Z.pow 2 <$> (Z.of_nat <$> seq a k)) |}).
Proof.
  intros Hsrv. revert a s. induction k as [|k IH]; intros a s Hn.
  - destruct (Hsrv (length (sent s)) (request_of url params s)) as [kind Hget].
    exists kind. rewrite Nat.add_0_r. split; [done|].
    cbn [seq fmap list_fmap]. rewrite attempts_cons, Hget.
    replace (Z.of_nat a <? max_retries config - 1)%Z with false by lia.
    unfold after_get. cbn. by rewrite app_nil_r.
  - destruct (Hsrv (length (sent s)) (request_of url params s)) as [kind0 Hget].
    change (seq a (S (S k))) with (a :: seq (S a) (S k)).
    rewrite fmap_cons, attempts_cons, Hget.
    replace (Z.of_nat a <? max_retries config - 1)%Z with true by lia.
    unfold bind, sleep, modify. cbn [after_get].
    match goal with |- context [attempts _ _ _ _ _ ?s1] =>
      destruct (IH (S a) s1 ltac:(lia)) as (kind & Hlast & ->) end.
    exists kind. unfold after_get, request_of in *.
    cbn [token sent auth_calls slept] in *.
    rewrite length_app, Nat.add_1_r in Hlast.
    replace (length (sent s) + S k) with (S (length (sent s)) + k) by lia.
    split; [done|]. cbn. by rewrite <- !app_assoc.
Qed.

(** Every 401 received costs one call of [authenticate], and nothing
    else calls it. *)
Lemma attempts_reauth_count url params todo s :
  ∃ more,
    sent (attempts srv config url params todo s).2 = sent s ++ more ∧
    auth_calls (attempts srv config url params todo s).2 =
      auth_calls s + count_401 (replies_to srv (length (sent s)) more).
Proof.
  revert s. induction todo as [|attempt rest IH]; intros s.
  - exists []. cbn. rewrite app_nil_r. split; [done|lia].
  - rewrite attempts_cons.
    set (req := request_of url params s).
    assert (Hstop : ∀ (r : result (Body * option string)),
               is_401 (on_get srv (length (sent s)) req) = false →
               ∃ more,
                 sent (r, after_get url params s).2 = sent s ++ more ∧
                 auth_calls (r, after_get url params s).2 =
                   auth_calls s + count_401 (replies_to srv (length (sent s)) more)).
    { intros r H401. exists [req]. cbn. rewrite H401. split; [done|lia]. }
    assert (Hgo : ∀ w, is_401 (on_get srv (length (sent s)) req) = false →
               ∃ more,
                 sent ((sleep w ;;; attempts srv config url params rest)
                         (after_get url params s)).2 = sent s ++ more ∧
                 auth_calls ((sleep w ;;; attempts srv config url params rest)
                               (after_get url params s)).2 =
                   auth_calls s + count_401 (replies_to srv (length (sent s)) more)).
    { intros w H401. unfold bind, sleep, modify. cbn.
      match goal with |- context [attempts _ _ _ _ rest ?s1] =>
        destruct (IH s1) as (more & Hs & Ha) end.
      cbn in Hs, Ha. exists (req :: more). cbn. rewrite H401.
      rewrite Hs, Ha, <- app_assoc. cbn. rewrite length_app, Nat.add_1_r. done. }
    destruct (on_get srv (length (sent s)) req) as [status data tok|kind] eqn:Hget.
    + destruct (status =? 401)%Z eqn:H401.
      * assert (status = 401%Z) as -> by lia. cbn.
        unfold bind, authenticate. cbn.
        destruct (on_auth srv (auth_calls s)).
        -- match goal with |- context [attempts _ _ _ _ rest ?s1] =>
             destruct (IH s1) as (more & Hs & Ha) end.
           cbn in Hs, Ha. exists (req :: more). cbn. rewrite Hget. cbn.
           rewrite Hs, Ha, <- app_assoc. cbn. rewrite length_app, Nat.add_1_r.
           split; [done|lia].
        -- exists [req]. cbn. rewrite Hget. cbn. split; [done|lia].
        -- exists [req]. cbn. rewrite Hget. cbn. split; [done|lia].
      * destruct (raises_for_status status); [|by apply Hstop].
        destruct (status =? 429)%Z; [by apply Hgo|].
        destruct ((500 <=? status)%Z && (status <? 600)%Z); [by apply Hgo|by apply Hstop].
    + destruct (attempt <? max_retries config - 1)%Z; [by apply Hgo|by apply Hstop].
Qed.
(** With an attempt to spend, a GET answered 200 is the whole request. *)
Lemma single_request_success url params s body tok :
  (1 ≤ max_retries config)%Z →
  on_get srv (length (sent s)) (request_of url params s) = Response 200 body tok →
  _make_single_request srv config url params s =
  (Return (body, tok), after_get url params s).
Proof.
  intros Hn Hget. unfold _make_single_request.
  destruct (range_from_one _ Hn) as [rest ->].
  by eapply attempts_success.
Qed.

(** The loop of [_make_request], started on the first of [pages] with the
    parameters [first], consumes the pages one GET each. *)
Lemma request_loop_pages url params pages :
  (1 ≤ max_retries config)%Z →
  ∀ fuel s next_page_token all_items,
    chained pages = true →
    (∀ i body tok req,
       pages !! i = Some (body, tok) →
       on_get srv (length (sent s) + i) req = Response 200 body tok) →
    length pages ≤ fuel →
    request_loop srv config fuel url params true next_page_token all_items s =
    Some (Return (all_items ++ concat (page_items <$> pages)),
          {| token := token s;
             sent := sent s ++
                     page_requests url params
                       (if token_truthy next_page_token
                        then next_params params next_page_token else params)
                       (token s) pages;
             auth_calls := auth_calls s;
             slept := slept s |}).
Proof.
  intros Hn. induction pages as [|[body tok] rest IH];
    intros fuel s npt acc Hch Hsrv Hfuel; [discriminate|].
  destruct fuel as [|fuel]; [cbn in Hfuel; lia|].
  cbn [request_loop andb].
  set (pp := if token_truthy npt then <["pageToken" := default "" npt]> params else params).
  rewrite (single_request_success url pp s body tok Hn)
    by (rewrite <- (Nat.add_0_r (length _)); by apply Hsrv).
  cbn [negb orb].
  destruct rest as [|page2 rest'].
  - cbn in Hch. destruct (token_truthy tok); [done|]. cbn.
    unfold after_get, request_of, page_items. cbn. by rewrite app_nil_r.
  - assert (token_truthy tok = true ∧ chained (page2 :: rest') = true) as [Htok Hch'].
    { destruct page2. cbn in Hch. by apply andb_prop in Hch. }
    rewrite Htok. cbn [negb].
    rewrite IH; [| done | | cbn in *; lia].
    + rewrite Htok. unfold after_get, request_of, page_items. cbn.
      by rewrite <- !app_assoc.
    + intros i b t req Hi. cbn. rewrite length_app, Nat.add_1_r.
      replace (S (length (sent s)) + i) with (length (sent s) + S i) by lia.
      by apply Hsrv.
Qed.
End Attempts.
End ClientFacts.

Module ClientClaims.
Import Client ClientFacts.

(** C1, as stated, fails. With [max_retries = 1] the answers [401, 200]
    and a successful re-authentication give one GET and the max-retries
    exception: the request is not retried, there are not two GETs and
    there is no result. And with [max_retries = 3] the answers
    [401, 401, 200] make one request re-authenticate twice. *)
Lemma reauth_needs_a_second_attempt :
  let r := _make_single_request Scenario.srv_401_200 (Scenario.cfg 1)
             "https://api.example.com/test" ∅ new_session in
  let r3 := _make_single_request Scenario.srv_401_401_200 (Scenario.cfg 3)
              "https://api.example.com/test" ∅ new_session in
  r.1 = Raise (PlainException "Max retries (1) exceeded for https://api.example.com/test")
  ∧ length (sent r.2) = 1
  ∧ auth_calls r.2 = 1
  ∧ ¬ (∃ data, r.1 = Return data ∧ length (sent r.2) = 2)
  ∧ r3.1 = Return (Scenario.empty_page, None)
  ∧ auth_calls r3.2 = 2.
Proof.
  vm_compute. repeat split; try reflexivity. intros (data & H & _). discriminate.
Qed.

(** C1 (amended): a 401 answered on the first attempt triggers one call of
    [authenticate]. When it grants a token and a second attempt is left
    ([max_retries >= 2]), the request is sent again with the new token,
    and a 200 then gives exactly 2 GETs and a result. When it refuses,
    the HTTP error of the 401 is raised at once, after exactly 1 GET.
    In every run [authenticate] is called once per 401 received, and at
    every attempt a 401 goes on with the remaining attempts when the
    token is granted and raises at once when it is not. *)
Theorem reauth_on_401 srv config url params s (granted : bool) t body0 tok0 body tok :
  on_get srv (length (sent s)) (request_of url params s) = Response 401 body0 tok0 →
  on_auth srv (auth_calls s) = (if granted then Granted t else Refused) →
  (if granted
   then (2 ≤ max_retries config)%Z ∧
        on_get srv (S (length (sent s)))
          {| req_url := url; req_params := params; req_bearer := Some t |}
        = Response 200 body tok
   else (1 ≤ max_retries config)%Z) →
  _make_single_request srv config url params s =
    (if granted
     then (Return (body, tok),
           {| token := Some t;
              sent := sent s ++ [request_of url params s;
                                 {| req_url := url; req_params := params;
                                    req_bearer := Some t |}];
              auth_calls := S (auth_calls s);
              slept := slept s |})
     else (Raise (HTTPError 401),
           {| token := token s;
              sent := sent s ++ [request_of url params s];
              auth_calls := S (auth_calls s);
              slept := slept s |}))
  ∧ (∀ srv' config' url' params' s',
       ∃ more,
         sent (_make_single_request srv' config' url' params' s').2 = sent s' ++ more ∧
         auth_calls (_make_single_request srv' config' url' params' s').2 =
           auth_calls s' + count_401 (replies_to srv' (length (sent s')) more))
  ∧ (∀ srv' config' url' params' attempt rest s' body' tok',
       on_get srv' (length (sent s')) (request_of url' params' s')
         = Response 401 body' tok' →
       attempts srv' config' url' params' (attempt :: rest) s' =
       match on_auth srv' (auth_calls s') with
       | Granted t' =>
           attempts srv' config' url' params' rest
             {| token := Some t'; sent := sent s' ++ [request_of url' params' s'];
                auth_calls := S (auth_calls s'); slept := slept s' |}
       | Refused =>
           (Raise (HTTPError 401),
            {| token := token s'; sent := sent s' ++ [request_of url' params' s'];
               auth_calls := S (auth_calls s'); slept := slept s' |})
       | Malformed =>
           (Raise (KeyError "access_token"),
            {| token := token s'; sent := sent s' ++ [request_of url' params' s'];
               auth_calls := S (auth_calls s'); slept := slept s' |})
       end).
Proof.
  intros Hget Hauth Hrest.
  split; [|split; [intros; apply attempts_reauth_count|intros; by eapply attempts_401]].
  unfold _make_single_request. destruct granted.
  - destruct Hrest as [Hn Hget2].
    destruct (range_from_two _ Hn) as [rest ->].
    rewrite (attempts_401 _ _ _ _ _ _ _ _ _ Hget), Hauth.
    erewrite attempts_success; [|cbn; rewrite length_app, Nat.add_1_r; exact Hget2|done].
    unfold after_get, request_of. cbn. by rewrite <- app_assoc.
  - destruct (range_from_one _ Hrest) as [rest ->].
    by rewrite (attempts_401 _ _ _ _ _ _ _ _ _ Hget), Hauth.
Qed.

Lemma reauth_on_401_witness :
  (_make_single_request Scenario.srv_401_200 (Scenario.cfg 3)
     "https://api.example.com/test" ∅ new_session).1
    = Return (Scenario.empty_page, None)
  ∧ (_make_single_request Scenario.srv_401_refused (Scenario.cfg 3)
       "https://api.example.com/test" ∅ new_session).1
    = Raise (HTTPError 401).
Proof.
  split.
  - destruct (reauth_on_401 Scenario.srv_401_200 (Scenario.cfg 3)
                "https://api.example.com/test" ∅ new_session true "t1"
                Scenario.no_body None Scenario.empty_page None) as [H _].
    + reflexivity.
    + reflexivity.
    + split; [vm_compute; discriminate | reflexivity].
    + rewrite H. reflexivity.
  - destruct (reauth_on_401 Scenario.srv_401_refused (Scenario.cfg 3)
                "https://api.example.com/test" ∅ new_session false ""
                Scenario.no_body None Scenario.empty_page None) as [H _].
    + reflexivity.
    + reflexivity.
    + vm_compute; discriminate.
    + rewrite H. reflexivity.
Defined.

(** C2: with [max_retries = N >= 1] and a server that answers 500 to every
    GET, [_make_single_request] sends exactly N GETs, sleeping 2^attempt
    after each, and then raises the plain max-retries exception, which is
    not a [RequestException] (neither an HTTP nor a transport error). *)
Theorem always_500_exhausts_retries srv config url params s :
  (1 ≤ max_retries config)%Z →
  (∀ n req, ∃ body tok, on_get srv n req = Response 500 body tok) →
  ∃ s',
    _make_single_request srv config url params s =
      (Raise (PlainException (max_retries_message config url)), s')
    ∧ Z.of_nat (length (sent s')) = (Z.of_nat (length (sent s)) + max_retries config)%Z
    ∧ slept s' = slept s ++ (Z.pow 2 <$> range (max_retries config))
    ∧ auth_calls s' = auth_calls s
    ∧ is_RequestException (PlainException (max_retries_message config url)) = false.
Proof.
  intros Hn Hsrv. eexists. unfold _make_single_request.
  rewrite attempts_always_500 by done. split; [reflexivity|]. cbn.
  rewrite length_app, length_replicate, Nat2Z.inj_add, range_length by lia. done.
Qed.

Lemma always_500_exhausts_retries_witness :
  ∃ s',
    _make_single_request Scenario.srv_500 (Scenario.cfg 3)
      "https://api.example.com/test" ∅ new_session =
      (Raise (PlainException "Max retries (3) exceeded for https://api.example.com/test"), s')
    ∧ length (sent s') = 3.
Proof.
  destruct (always_500_exhausts_retries Scenario.srv_500 (Scenario.cfg 3)
              "https://api.example.com/test" ∅ new_session)
    as (s' & Hrun & Hlen & _).
  - vm_compute. discriminate.
  - intros n req. exists Scenario.no_body, None. reflexivity.
  - exists s'. split; [exact Hrun|]. cbn in Hlen. lia.
Defined.

(** C3, as stated, fails: when every attempt ends in a transport error the
    exception raised after the last attempt is that transport error, not
    the max-retries exception. *)
Lemma unreachable_server_raises_transport_error :
  let r := _make_single_request Scenario.srv_down (Scenario.cfg 3)
             "https://api.example.com/test" ∅ new_session in
  r.1 = Raise (TransportError "ConnectionError")
  ∧ length (sent r.2) = 3
  ∧ r.1 ≠ Raise (PlainException
                   (max_retries_message (Scenario.cfg 3) "https://api.example.com/test")).
Proof. vm_compute. repeat split; try reflexivity. discriminate. Qed.

(** C3 (amended): with [max_retries = N >= 1] and every attempt failing
    with a transport error, [_make_single_request] sends exactly N GETs,
    sleeps 2^attempt after each failure but the last, and re-raises the
    transport error of the last attempt, a [RequestException]; the
    max-retries exception is not raised. *)
Theorem transport_errors_are_reraised srv config url params s :
  (1 ≤ max_retries config)%Z →
  (∀ n req, ∃ kind, on_get srv n req = NoResponse kind) →
  ∃ kind s',
    _make_single_request srv config url params s = (Raise (TransportError kind), s')
    ∧ on_get srv (length (sent s) + Z.to_nat (max_retries config - 1))
        (request_of url params s) = NoResponse kind
    ∧ Z.of_nat (length (sent s')) = (Z.of_nat (length (sent s)) + max_retries config)%Z
    ∧ slept s' = slept s ++ (Z.pow 2 <$> range (max_retries config - 1))
    ∧ is_RequestException (TransportError kind) = true
    ∧ TransportError kind ≠ PlainException (max_retries_message config url).
Proof.
  intros Hn Hsrv. unfold _make_single_request, range.
  destruct (Z.to_nat (max_retries config)) as [|k] eqn:Hk; [lia|].
  destruct (attempts_unreachable srv config url params 0 k s Hsrv ltac:(lia))
    as (kind & Hlast & Hrun).
  exists kind. eexists. split; [exact Hrun|].
  replace (Z.to_nat (max_retries config - 1)) with k by lia.
  split; [exact Hlast|]. cbn [sent slept is_RequestException].
  rewrite length_app, length_replicate. repeat split; [lia|done].
Qed.

Lemma transport_errors_are_reraised_witness :
  ∃ s',
    _make_single_request Scenario.srv_down (Scenario.cfg 3)
      "https://api.example.com/test" ∅ new_session =
      (Raise (TransportError "ConnectionError"), s')
    ∧ length (sent s') = 3.
Proof.
  destruct (transport_errors_are_reraised Scenario.srv_down (Scenario.cfg 3)
              "https://api.example.com/test" ∅ new_session)
    as (kind & s' & Hrun & Hlast & Hlen & _).
  - vm_compute. discriminate.
  - intros n req. exists "ConnectionError". reflexivity.
  - exists s'. cbn in Hlast. injection Hlast as <-.
    split; [exact Hrun|]. cbn in Hlen. lia.
Defined.

(** C4: for pages chained by cursors (each page but the last carries a
    cursor, the last none), served one per GET, [_make_request] sends
    exactly one GET per page, each carrying the cursor of the page before,
    stops after the last page, and returns the concatenation of the pages'
    items; the number of items is the sum over the pages. *)
Theorem pagination_fetches_each_page_once srv config endpoint params s pages fuel :
  (1 ≤ max_retries config)%Z →
  chained pages = true →
  (∀ i body tok req,
     pages !! i = Some (body, tok) →
     on_get srv (length (sent s) + i) req = Response 200 body tok) →
  length pages ≤ fuel →
  ∃ s',
    _make_request srv config fuel endpoint params true s =
      Some (Return (concat (page_items <$> pages)), s')
    ∧ sent s' = sent s ++ page_requests (api_url config +:+ endpoint)
                           (default ∅ params) (default ∅ params) (token s) pages
    ∧ length (sent s') = length (sent s) + length pages
    ∧ length (concat (page_items <$> pages)) =
        sum_list (length <$> (page_items <$> pages)).
Proof.
  intros Hn Hch Hsrv Hfuel. eexists. unfold _make_request.
  rewrite (request_loop_pages srv config _ _ pages Hn) by done.
  split; [reflexivity|]. cbn. split; [done|]. split.
  - rewrite length_app. f_equal. clear.
    generalize (default ∅ params) at 2. induction pages as [|[b t] rest IH]; intros p; [done|].
    cbn. by rewrite IH.
  - clear. induction pages as [|p rest IH]; [done|].
    cbn. rewrite length_app. by rewrite IH.
Qed.

Lemma pagination_fetches_each_page_once_witness :
  ∃ s',
    _make_request Scenario.srv_pages (Scenario.cfg 3) 3 "/test-endpoint" None true
      new_session =
      Some (Return [Scenario.item 1; Scenario.item 2; Scenario.item 3;
                    Scenario.item 4; Scenario.item 5], s')
    ∧ length (sent s') = 3.
Proof.
  destruct (pagination_fetches_each_page_once Scenario.srv_pages (Scenario.cfg 3)
              "/test-endpoint" None new_session Scenario.three_pages 3)
    as (s' & Hrun & _ & Hlen & _).
  - vm_compute. discriminate.
  - reflexivity.
  - intros i body tok req Hi.
    destruct i as [|[|[|i]]]; cbn in Hi; [by injection Hi as <- <- ..|discriminate].
  - cbn. lia.
  - exists s'. split; [exact Hrun | exact Hlen].
Defined.
End ClientClaims.

(** * Properties of the graph layer *)

Module LayerFacts.
Import Graph Layer LayerMore.

Section AnyDriver.
Variable run : Driver.
Variable Entity : string.

Lemma session_run_fails stmt w e :
  run stmt (db w) = Raise e →
  session_run run stmt w =
  (Raise e, {| db := db w; ran := ran w ++ [stmt]; log := log w |}).
Proof. intros H. unfold session_run. by rewrite H. Qed.

Lemma execute_query_fails stmt w e :
  run stmt (db w) = Raise e →
  _execute_query run stmt w =
  (Raise e,
   {| db := db w; ran := ran w ++ [stmt];
      log := log w ++ [Error ("Query execution failed: " +:+ str_exn e);
                       DebugQuery stmt; DebugParams stmt] |}).
Proof.
  intros H. unfold _execute_query, try_except, bind.
  rewrite (session_run_fails _ _ _ H). cbn. by rewrite <- !app_assoc.
Qed.

Lemma execute_query_with_result_fails stmt w e :
  run stmt (db w) = Raise e →
  _execute_query_with_result run stmt w =
  (Raise e,
   {| db := db w; ran := ran w ++ [stmt];
      log := log w ++ [Error ("Query execution failed: " +:+ str_exn e);
                       DebugQuery stmt; DebugParams stmt] |}).
Proof.
  intros H. unfold _execute_query_with_result, try_except.
  rewrite (session_run_fails _ _ _ H). cbn. by rewrite <- !app_assoc.
Qed.

(** Inside a transaction, statements that succeed move the view on. *)
Lemma tx_run_app before after view w view' w' :
  tx_run run before view w = (Return view', w') →
  tx_run run (before ++ after) view w = tx_run run after view' w'.
Proof.
  revert view w. induction before as [|q rest IH]; intros view w H; cbn in *.
  - by injection H as -> ->.
  - destruct (run q view) as [[v ?]|e]; [by apply IH|discriminate].
Qed.

Lemma tx_run_keeps_db queries view w :
  db (tx_run run queries view w).2 = db w ∧
  log (tx_run run queries view w).2 = log w.
Proof.
  revert view w. induction queries as [|q rest IH]; intros view w; cbn; [done|].
  destruct (run q view) as [[v ?]|e]; [|done].
  destruct (IH v {| db := db w; ran := ran w ++ [q]; log := log w |}) as [-> ->]. done.
Qed.

Lemma execute_batch_fails before stmt after view w w1 e :
  tx_run run before (db w) w = (Return view, w1) →
  run stmt view = Raise e →
  _execute_batch run (before ++ stmt :: after) w =
  (Raise e,
   {| db := db w; ran := ran w1 ++ [stmt];
      log := log w ++ [Error ("Batch execution failed: " +:+ str_exn e)] |}).
Proof.
  intros Hbefore Hfail.
  unfold _execute_batch, try_except, bind, transaction.
  rewrite (tx_run_app _ _ _ _ _ _ Hbefore). cbn. rewrite Hfail. cbn.
  pose proof (tx_run_keeps_db before (db w) w) as [Hdb Hlog].
  rewrite Hbefore in Hdb, Hlog. cbn in Hdb, Hlog. by rewrite Hdb, Hlog.
Qed.

(** A chunk whose statement fails ends the loop of [batch_merge_nodes]
    with an exception, after an error line. *)
Lemma merge_batches_raises label batches total w batch e :
  batch ∈ batches → batch ≠ [] →
  (∀ d, run (batch_statement label batch) d = Raise e) →
  ∃ e' w',
    merge_batches run label batches total w = (Raise e', w') ∧
    last (log w') = Some (Error ("Batch merge failed for " +:+ label +:+ ": " +:+ str_exn e')).
Proof.
  intros Hin Hne Hfail. revert total w.
  induction batches as [|b rest IH]; intros total w; [by apply elem_of_nil in Hin|].
  apply elem_of_cons in Hin as [<-|Hin].
  - destruct batch as [|x xs]; [done|].
    cbn [merge_batches]. unfold bind at 1, try_except, bind, session_run.
    rewrite Hfail. cbn. eexists _, _. split; [reflexivity|]. cbn.
    by rewrite last_snoc.
  - destruct b as [|x xs]; [cbn; by apply IH|].
    cbn [merge_batches]. unfold bind at 1, try_except, bind at 1, session_run.
    destruct (run (batch_statement label (x :: xs)) (db w)) as [[d rows]|e0] eqn:Hrun.
    + cbn. by apply IH.
    + cbn. eexists _, _. split; [reflexivity|]. cbn. by rewrite last_snoc.
Qed.

Lemma chunks_nonempty {A} fuel size (items : list A) batch :
  0 < size → batch ∈ chunks fuel size items → batch ≠ [].
Proof.
  intros Hsize. revert items. induction fuel as [|fuel IH]; intros items Hin; cbn in Hin.
  - by apply elem_of_nil in Hin.
  - destruct items as [|x xs]; [by apply elem_of_nil in Hin|].
    apply elem_of_cons in Hin as [->|Hin]; [|by eapply IH].
    destruct size; [lia|]. done.
Qed.

Lemma batch_merge_nodes_raises label items batch_size w batch e :
  (0 < batch_size)%Z →
  batch ∈ chunks (length items) (Z.to_nat batch_size) items →
  (∀ d, run (batch_statement label batch) d = Raise e) →
  ∃ e' w',
    batch_merge_nodes run label items batch_size w = (Raise e', w') ∧
    last (log w') = Some (Error ("Batch merge failed for " +:+ label +:+ ": " +:+ str_exn e')).
Proof.
  intros Hsize Hin Hfail. unfold batch_merge_nodes.
  destruct items as [|x xs]; [by apply elem_of_nil in Hin|].
  replace (batch_size =? 0)%Z with false by lia.
  replace (batch_size <? 0)%Z with false by lia.
  unfold bind at 1.
  destruct (merge_batches_raises label _ 0%Z w batch e Hin) as (e' & w' & -> & Hlog);
    [by eapply chunks_nonempty; [|done]; lia|done|].
  by exists e', w'.
Qed.

(** The chunks of [batch_merge_nodes] are the items, cut in order into
    non-empty pieces of at most the batch size. *)
Lemma chunks_concat {A} fuel size (items : list A) :
  0 < size → length items ≤ fuel → concat (chunks fuel size items) = items.
Proof.
  intros Hsize. revert items. induction fuel as [|fuel IH]; intros items Hlen.
  - destruct items; [done|cbn in Hlen; lia].
  - destruct items as [|x xs]; [done|].
    cbn [chunks concat]. rewrite IH; [apply take_drop|].
    rewrite length_drop. cbn in *. lia.
Qed.

Lemma chunks_sizes {A} fuel size (items : list A) :
  0 < size → Forall (fun b => 0 < length b ≤ size) (chunks fuel size items).
Proof.
  intros Hsize. revert items. induction fuel as [|fuel IH]; intros items; [constructor|].
  destruct items as [|x xs]; [constructor|].
  cbn [chunks]. constructor; [|apply IH].
  rewrite length_take. cbn [length]. lia.
Qed.



(** The linking and metric operations catch every exception. *)
Lemma create_customer_relationships_fails (l : Linkage) w e :
  run (LinkByForeignKey (dependent l) "customerGuid" "Customer" (relationship l)) (db w)
    = Raise e →
  create_customer_relationships run l w =
  (Return (VInt 0),
   {| db := db w;
      ran := ran w ++ [LinkByForeignKey (dependent l) "customerGuid" "Customer"
                         (relationship l)];
      log := log w ++ [Error ("Failed to create Customer→" +:+ dependent l
                              +:+ " relationships: " +:+ str_exn e)] |}).
Proof.
  intros H. destruct l; cbn in *;
    unfold create_customer_contact_relationships, create_customer_address_relationships,
      create_customer_invoice_relationships, try_except, bind at 1;
    by rewrite (session_run_fails _ _ _ H).
Qed.

Lemma link_facts_to_periods_fails fact_entity date_property w e :
  run (LinkFactsToMonths fact_entity date_property) (db w) = Raise e →
  link_facts_to_periods run fact_entity date_property w =
  (Return (VInt 0),
   {| db := db w;
      ran := ran w ++ [LinkFactsToMonths fact_entity date_property];
      log := log w ++ [Error ("Failed to link " +:+ fact_entity +:+ " to periods: "
                              +:+ str_exn e)] |}).
Proof.
  intros H. unfold link_facts_to_periods, try_except, bind at 1.
  by rewrite (session_run_fails _ _ _ H).
Qed.

(** Whatever the driver does, the linking operations return normally. *)
Lemma create_customer_relationships_returns (l : Linkage) w :
  ∃ v, (create_customer_relationships run l w).1 = Return v.
Proof.
  destruct l; cbn;
    unfold create_customer_contact_relationships, create_customer_address_relationships,
      create_customer_invoice_relationships, try_except;
    match goal with |- context [bind ?m ?k w] => destruct (bind m k w) as [[v|e] w'] end;
    cbn; eauto.
Qed.
End AnyDriver.
End LayerFacts.

Module StoreFacts.
Import Graph Layer LayerMore.

Lemma filter_no_match {A} (f : A → bool) (l : list A) :
  (∀ x, x ∈ l → f x = false) → filter (λ x, f x = true) l = [].
Proof.
  induction l as [|x l IH]; intros Hno; [done|].
  rewrite filter_cons_False.
  - apply IH. intros y Hy. apply Hno, elem_of_cons. by right.
  - rewrite (Hno x) by (apply elem_of_cons; by left). done.
Qed.

Lemma merge_node_fresh label key v sets ns :
  (∀ n, n ∈ ns → matches label key v n = false) →
  merge_node label key v sets ns =
  ns ++ [set_props sets {| node_labels := {[label]}; node_props := {[key := v]} |}].
Proof.
  intros Hno. unfold merge_node.
  replace (existsb (matches label key v) ns) with false; [done|].
  symmetry. induction ns as [|n rest IH]; [done|]. cbn.
  rewrite (Hno n) by (apply elem_of_cons; by left). cbn.
  apply IH. intros m Hm. apply Hno. apply elem_of_cons; by right.
Qed.

Lemma merge_node_last label key v sets ns n0 :
  (∀ n, n ∈ ns → matches label key v n = false) →
  matches label key v n0 = true →
  merge_node label key v sets (ns ++ [n0]) = ns ++ [set_props sets n0].
Proof.
  intros Hno Hyes. unfold merge_node.
  replace (existsb (matches label key v) (ns ++ [n0])) with true.
  2:{ symmetry. rewrite existsb_app. cbn. rewrite Hyes. by rewrite orb_true_r. }
  rewrite fmap_app. cbn. rewrite Hyes. f_equal.
  induction ns as [|n rest IH]; [done|]. cbn.
  rewrite (Hno n) by (apply elem_of_cons; by left). f_equal.
  apply IH. intros m Hm. apply Hno. apply elem_of_cons; by right.
Qed.

Section Customer.
Variable now : value.
Variable period_aggregates : Db → nat → option (list (string * option value)).
Variable other : Driver.

Abbreviation drv := (neo4j now period_aggregates other).

(** [_execute_query] on a MERGE ... SET statement under the driver. *)
Lemma execute_merge_set label key kv sets w ns' :
  merge_set label key kv sets (nodes (db w)) = Some ns' →
  _execute_query drv (MergeSet label key kv sets) w =
  (Return true,
   {| db := {| nodes := ns'; rels := rels (db w) |};
      ran := ran w ++ [MergeSet label key kv sets];
      log := log w |}).
Proof.
  intros H. unfold _execute_query, try_except, bind, session_run. cbn. by rewrite H.
Qed.

Lemma sync_acme_statement w :
  sync_customer drv Scenario.acme w =
  _execute_query drv
    (MergeSet "Customer" "guid" (PStr "c-1")
       [("name", PStr "Acme"); ("number", PStr ""); ("isActive", PBool true);
        ("businessUnitGuid", PNone); ("accountOwnerGuid", PStr "u-9");
        ("lastModified", PStr "")]) w.
Proof. reflexivity. Qed.

Lemma sync_acme_corp_statement w :
  sync_customer drv Scenario.acme_corp w =
  _execute_query drv
    (MergeSet "Customer" "guid" (PStr "c-1")
       [("name", PStr "Acme Corp"); ("number", PStr ""); ("isActive", PBool true);
        ("businessUnitGuid", PNone); ("accountOwnerGuid", PNone);
        ("lastModified", PStr "")]) w.
Proof. reflexivity. Qed.

(** The first merge of the scenario, on a store without the customer. *)
Lemma sync_acme_creates w :
  (∀ n, n ∈ nodes (db w) → matches "Customer" "guid" (VStr "c-1") n = false) →
  ∃ w1,
    sync_customer drv Scenario.acme w = (Return true, w1) ∧
    db w1 = {| nodes := nodes (db w) ++ [Scenario.acme_node]; rels := rels (db w) |}.
Proof.
  intros Hno. rewrite sync_acme_statement.
  erewrite execute_merge_set.
  2:{ unfold merge_set. cbn [to_prop eval_sets]. rewrite merge_node_fresh by done.
      reflexivity. }
  eexists. split; [reflexivity|]. cbn. do 3 f_equal.
Qed.

(** A later merge of the key rewrites the one node that carries it. *)
Lemma sync_acme_corp_updates w ns n0 :
  nodes (db w) = ns ++ [n0] →
  (∀ n, n ∈ ns → matches "Customer" "guid" (VStr "c-1") n = false) →
  n0 = Scenario.acme_node ∨ n0 = Scenario.acme_corp_node →
  ∃ w2,
    sync_customer drv Scenario.acme_corp w = (Return true, w2) ∧
    db w2 = {| nodes := ns ++ [Scenario.acme_corp_node]; rels := rels (db w) |}.
Proof.
  intros Hns Hno Hn0. rewrite sync_acme_corp_statement.
  erewrite execute_merge_set.
  2:{ unfold merge_set. cbn [to_prop eval_sets]. rewrite Hns.
      rewrite merge_node_last; [reflexivity|done|].
      by destruct Hn0 as [-> | ->]; vm_compute. }
  eexists. split; [reflexivity|]. cbn. do 3 f_equal.
  by destruct Hn0 as [-> | ->]; vm_compute.
Qed.
End Customer.

(** *** Batched merges *)



Lemma prop_set_prop_ne k k' v n : k ≠ k' → prop (set_prop k' v n) k = prop n k.
Proof.
  intros Hne. unfold prop, set_prop. cbn.
  destruct v; [by rewrite lookup_insert_ne|by rewrite lookup_delete_ne].
Qed.

Lemma prop_set_props_other k sets n :
  k ∉ sets.*1 → prop (set_props sets n) k = prop n k.
Proof.
  unfold set_props. revert n. induction sets as [|[k' v] sets IH]; intros n Hk; [done|].
  cbn in *. apply not_elem_of_cons in Hk as [Hne Hk].
  rewrite IH by done. by apply prop_set_prop_ne.
Qed.


Lemma eval_sets_keys sets sets' : eval_sets sets = Some sets' → sets'.*1 = sets.*1.
Proof.
  revert sets'. induction sets as [|[k v] sets IH]; intros sets' H; cbn in H.
  - by injection H as <-.
  - destruct (to_prop v); [|done]. destruct (eval_sets sets); [|done].
    injection H as <-. cbn. f_equal. by apply IH.
Qed.





Section Batches.
Variable now : value.
Variable period_aggregates : Db → nat → option (list (string * option value)).
Variable other : Driver.

Abbreviation drv := (neo4j now period_aggregates other).



End Batches.

Lemma chunks_one {A} (items : list A) size :
  items ≠ [] → length items ≤ size →
  chunks (length items) size items = [items].
Proof.
  intros Hne Hlen. destruct items as [|x xs]; [done|]. cbn [length chunks].
  rewrite take_ge, drop_ge by done. by destruct (length xs).
Qed.


(** *** Period metrics *)

Section Periods.
Variable now : value.
Variable period_aggregates : Db → nat → option (list (string * option value)).
Variable other : Driver.

Abbreviation drv := (neo4j now period_aggregates other).

Lemma prop_set_props_last k v sets n :
  prop (set_props (sets ++ [(k, Some v)]) n) k = Some v.
Proof.
  unfold set_props. rewrite foldl_app. cbn. unfold prop, set_prop. cbn.
  apply lookup_insert_eq.
Qed.

(** When the aggregates can be computed, the period statement stamps
    every targeted node and leaves the others alone. *)
Lemma period_updates_stamps label periods d i ns :
  (∀ j, is_Some (period_aggregates d j)) →
  ∃ ns',
    period_updates now period_aggregates label periods d i ns = Some ns' ∧
    ∀ j n, ns !! j = Some n →
      ∃ n', ns' !! j = Some n' ∧
            if period_target label periods n
            then prop n' "lastDenormalizedAt" = Some now
            else n' = n.
Proof.
  intros Hagg. revert i. induction ns as [|n rest IH]; intros i; cbn.
  - exists []. split; [done|]. intros j n Hj. by rewrite lookup_nil in Hj.
  - destruct (IH (S i)) as (rest' & -> & Hrest).
    destruct (period_target label periods n) eqn:Htarget.
    + destruct (Hagg i) as [bag ->]. eexists. split; [done|].
      intros [|j] m Hj; cbn in Hj.
      * injection Hj as <-. eexists. split; [done|]. rewrite Htarget.
        apply prop_set_props_last.
      * by apply Hrest.
    + eexists. split; [done|].
      intros [|j] m Hj; cbn in Hj.
      * injection Hj as <-. eexists. split; [done|]. by rewrite Htarget.
      * by apply Hrest.
Qed.

Lemma calculate_period_metrics_all period_type w :
  (∀ j, is_Some (period_aggregates (db w) j)) →
  let label := capitalize period_type in
  let count := length (filter (λ n, period_target label None n = true) (nodes (db w))) in
  ∃ w',
    calculate_period_metrics drv period_type None w
      = (Return (VInt (Z.of_nat count)), w') ∧
    ran w' = ran w ++ [PeriodMetrics label None] ∧
    rels (db w') = rels (db w) ∧
    ∀ j n, nodes (db w) !! j = Some n →
      ∃ n', nodes (db w') !! j = Some n' ∧
            if has_label label n
            then prop n' "lastDenormalizedAt" = Some now
            else n' = n.
Proof.
  intros Hagg label count.
  destruct (period_updates_stamps label None (db w) 0 (nodes (db w)) Hagg)
    as (ns' & Hupd & Hns').
  unfold calculate_period_metrics, try_except, bind at 1, session_run.
  cbn [neo4j]. unfold period_metrics. fold label. rewrite Hupd.
  eexists. split; [reflexivity|]. cbn. repeat split.
  intros j n Hj. destruct (Hns' j n Hj) as (n' & Hn' & Hprop).
  exists n'. split; [done|]. unfold period_target in Hprop.
  by rewrite andb_true_r in Hprop.
Qed.
End Periods.

(** *** Linking by foreign key *)

(** A row of the linking statement joins a dependent node to a target
    whose [guid] is the dependent's foreign key. *)
Lemma elem_of_link_rows dep fk_prop target ns j i :
  (j, i) ∈ link_rows dep fk_prop target ns →
  ∃ p c fk,
    ns !! i = Some p ∧ ns !! j = Some c ∧
    has_label dep p = true ∧ prop p fk_prop = Some fk ∧
    matches target "guid" fk c = true.
Proof.
  unfold link_rows. rewrite list_elem_of_In, in_flat_map.
  intros ([i' p'] & Hp & Hin).
  apply list_elem_of_In, elem_of_lookup_imap in Hp as (i0 & p & [= -> ->] & Hp).
  destruct (has_label dep p) eqn:Hlabel; [|done].
  destruct (prop p fk_prop) as [fk|] eqn:Hfk; [|done].
  apply in_flat_map in Hin as ([j' c'] & Hc & Hin).
  apply list_elem_of_In, elem_of_lookup_imap in Hc as (j0 & c & [= -> ->] & Hc).
  destruct (matches target "guid" fk c) eqn:Hm; [|done].
  destruct Hin as [[= -> ->]|[]]. by exists p, c, fk.
Qed.

(** MERGE of relationships only adds relationships of the rows. *)
Lemma elem_of_merge_rels rtype rows rs r :
  r ∈ foldl (merge_rel rtype) rs rows →
  r ∈ rs ∨ ∃ cp, cp ∈ rows ∧ r = {| rel_type := rtype; rel_src := cp.1; rel_dst := cp.2 |}.
Proof.
  revert rs. induction rows as [|cp rows IH]; intros rs Hr; cbn in Hr; [by left|].
  apply IH in Hr as [Hr|(cp' & Hin & ->)].
  - unfold merge_rel in Hr. case_bool_decide; [by left|].
    apply elem_of_app in Hr as [Hr|Hr]; [by left|].
    apply list_elem_of_singleton in Hr as ->. right. exists cp. split; [|done].
    apply elem_of_cons. by left.
  - right. exists cp'. split; [|done]. apply elem_of_cons. by right.
Qed.

Section Linking.
Variable now : value.
Variable period_aggregates : Db → nat → option (list (string * option value)).
Variable other : Driver.

Abbreviation drv := (neo4j now period_aggregates other).

(** Under the driver a linking operation succeeds, logs the number of
    rows, and changes relationships only. *)
Lemma create_customer_relationships_runs (l : Linkage) w :
  let stmt := LinkByForeignKey (dependent l) "customerGuid" "Customer" (relationship l) in
  let rows := link_rows (dependent l) "customerGuid" "Customer" (nodes (db w)) in
  create_customer_relationships drv l w =
  (Return (VInt (Z.of_nat (length rows))),
   {| db := {| nodes := nodes (db w);
               rels := foldl (merge_rel (relationship l)) (rels (db w)) rows |};
      ran := ran w ++ [stmt];
      log := log w ++ [Info ("  Created " +:+ pretty (Z.of_nat (length rows))
                             +:+ " Customer→" +:+ dependent l +:+ " relationships")] |}).
Proof. by destruct l. Qed.
End Linking.
End StoreFacts.

Module StoreClaims.
Import Graph Layer LayerMore LayerFacts StoreFacts.

(** C5, as stated, fails: [sync_customer] reads the nested objects
    [businessUnit] and [accountOwner]; the [owner] object of the record is
    not read, and the node created holds the owner's guid in no property. *)
Lemma owner_field_is_not_stored :
  let r := sync_customer Scenario.neo4j Scenario.acme_owner (new_world empty_db) in
  r.1 = Return true
  ∧ ∃ n, nodes (db r.2) = [n]
         ∧ prop n "guid" = Some (VStr "c-1")
         ∧ prop n "name" = Some (VStr "Acme")
         ∧ prop n "ownerGuid" = None
         ∧ prop n "accountOwnerGuid" = None
         ∧ ¬ ∃ k, prop n k = Some (VStr "u-9").
Proof.
  split; [reflexivity|]. eexists. split; [reflexivity|].
  repeat split; try reflexivity.
  intros [k Hk]. unfold prop in Hk.
  apply elem_of_map_to_list in Hk. vm_compute in Hk.
  repeat (apply elem_of_cons in Hk as [Hk|Hk]; [discriminate Hk|]).
  by apply elem_of_nil in Hk.
Qed.

(** C5 (amended): on a store without a Customer keyed "c-1", merging
    {"guid":"c-1","name":"Acme","accountOwner":{"guid":"u-9"}} creates one
    Customer node with guid "c-1", name "Acme" and the owner's guid as the
    flat property accountOwnerGuid = "u-9"; merging
    {"guid":"c-1","name":"Acme Corp"} then sets name to "Acme Corp" and
    accountOwnerGuid to null on that same node; there is exactly one node
    for the key afterwards, and merging the same record again changes
    nothing. *)
Theorem customer_merge_is_last_write_wins now period_aggregates other w :
  (∀ n, n ∈ nodes (db w) → matches "Customer" "guid" (VStr "c-1") n = false) →
  let drv := neo4j now period_aggregates other in
  ∃ w1 w2 w3,
    sync_customer drv Scenario.acme w = (Return true, w1)
    ∧ nodes (db w1) = nodes (db w) ++ [Scenario.acme_node]
    ∧ prop Scenario.acme_node "guid" = Some (VStr "c-1")
    ∧ prop Scenario.acme_node "name" = Some (VStr "Acme")
    ∧ prop Scenario.acme_node "accountOwnerGuid" = Some (VStr "u-9")
    ∧ sync_customer drv Scenario.acme_corp w1 = (Return true, w2)
    ∧ nodes (db w2) = nodes (db w) ++ [Scenario.acme_corp_node]
    ∧ prop Scenario.acme_corp_node "name" = Some (VStr "Acme Corp")
    ∧ prop Scenario.acme_corp_node "accountOwnerGuid" = None
    ∧ filter (λ n, matches "Customer" "guid" (VStr "c-1") n = true) (nodes (db w2))
        = [Scenario.acme_corp_node]
    ∧ sync_customer drv Scenario.acme_corp w2 = (Return true, w3)
    ∧ db w3 = db w2.
Proof.
  intros Hno drv.
  destruct (sync_acme_creates now period_aggregates other w Hno) as (w1 & Hrun1 & Hdb1).
  destruct (sync_acme_corp_updates now period_aggregates other w1
              (nodes (db w)) Scenario.acme_node) as (w2 & Hrun2 & Hdb2);
    [by rewrite Hdb1|done|by left|].
  destruct (sync_acme_corp_updates now period_aggregates other w2
              (nodes (db w)) Scenario.acme_corp_node) as (w3 & Hrun3 & Hdb3);
    [by rewrite Hdb2|done|by right|].
  exists w1, w2, w3.
  split; [exact Hrun1|]. split; [by rewrite Hdb1|].
  do 3 (split; [reflexivity|]).
  split; [exact Hrun2|]. split; [by rewrite Hdb2|].
  do 2 (split; [reflexivity|]).
  split; [|split; [exact Hrun3|by rewrite Hdb3, Hdb2]].
  rewrite Hdb2. cbn [nodes]. rewrite filter_app, filter_no_match by done.
  by rewrite filter_cons_True by reflexivity.
Qed.

Lemma customer_merge_is_last_write_wins_witness :
  ∃ w2,
    (sync_customer Scenario.neo4j Scenario.acme ;;;
     sync_customer Scenario.neo4j Scenario.acme_corp) (new_world empty_db)
      = (Return true, w2)
    ∧ nodes (db w2) = [Scenario.acme_corp_node].
Proof.
  destruct (customer_merge_is_last_write_wins Scenario.clock Scenario.no_aggregates
              Scenario.unreachable (new_world empty_db))
    as (w1 & w2 & w3 & Hrun1 & _ & _ & _ & _ & Hrun2 & Hnodes & _).
  - intros n Hn. cbn in Hn. by apply elem_of_nil in Hn.
  - exists w2. split; [|exact Hnodes].
    unfold bind. fold Scenario.neo4j in Hrun1, Hrun2. by rewrite Hrun1.
Defined.

(** C6, as stated, fails: with a store that cannot be reached, the
    relationship linkage (here of contacts) and the period linkage log
    the error and return 0 to the caller instead of raising. *)
Lemma linkage_swallows_persistence_errors :
  Scenario.unreachable
    (LinkByForeignKey "ContactPerson" "customerGuid" "Customer" "HAS_CONTACT") empty_db
    = Raise (Neo4jError "ServiceUnavailable")
  ∧ create_customer_contact_relationships Scenario.unreachable (new_world empty_db)
    = (Return (VInt 0),
       {| db := empty_db;
          ran := [LinkByForeignKey "ContactPerson" "customerGuid" "Customer" "HAS_CONTACT"];
          log := [Error "Failed to create Customer→ContactPerson relationships: ServiceUnavailable"] |})
  ∧ link_facts_to_periods Scenario.unreachable "WorkHour" "eventDate" (new_world empty_db)
    = (Return (VInt 0),
       {| db := empty_db;
          ran := [LinkFactsToMonths "WorkHour" "eventDate"];
          log := [Error "Failed to link WorkHour to periods: ServiceUnavailable"] |}).
Proof. repeat split; reflexivity. Qed.

(** C6 (amended): a failure of the driver in [_execute_query],
    [_execute_query_with_result], [_execute_batch] or [batch_merge_nodes]
    is logged and re-raised to the caller, the database being left as it
    was by the failed statement or transaction; in the contact, address
    and invoice linkage and in the period linkage it is logged and 0 is
    returned. *)
Theorem persistence_errors_by_operation (run : Driver) w e :
  (∀ stmt, run stmt (db w) = Raise e →
     _execute_query run stmt w =
       (Raise e,
        {| db := db w; ran := ran w ++ [stmt];
           log := log w ++ [Error ("Query execution failed: " +:+ str_exn e);
                            DebugQuery stmt; DebugParams stmt] |})
     ∧ _execute_query_with_result run stmt w =
       (Raise e,
        {| db := db w; ran := ran w ++ [stmt];
           log := log w ++ [Error ("Query execution failed: " +:+ str_exn e);
                            DebugQuery stmt; DebugParams stmt] |}))
  ∧ (∀ before stmt after view w1,
       tx_run run before (db w) w = (Return view, w1) →
       run stmt view = Raise e →
       _execute_batch run (before ++ stmt :: after) w =
         (Raise e,
          {| db := db w; ran := ran w1 ++ [stmt];
             log := log w ++ [Error ("Batch execution failed: " +:+ str_exn e)] |}))
  ∧ (∀ label items batch_size batch,
       (0 < batch_size)%Z →
       batch ∈ chunks (length items) (Z.to_nat batch_size) items →
       (∀ d, run (batch_statement label batch) d = Raise e) →
       ∃ e' w',
         batch_merge_nodes run label items batch_size w = (Raise e', w') ∧
         last (log w') =
           Some (Error ("Batch merge failed for " +:+ label +:+ ": " +:+ str_exn e')))
  ∧ (∀ l : Linkage,
       run (LinkByForeignKey (dependent l) "customerGuid" "Customer" (relationship l)) (db w)
         = Raise e →
       create_customer_relationships run l w =
         (Return (VInt 0),
          {| db := db w;
             ran := ran w ++ [LinkByForeignKey (dependent l) "customerGuid" "Customer"
                                (relationship l)];
             log := log w ++ [Error ("Failed to create Customer→" +:+ dependent l
                                     +:+ " relationships: " +:+ str_exn e)] |}))
  ∧ (∀ fact_entity date_property,
       run (LinkFactsToMonths fact_entity date_property) (db w) = Raise e →
       link_facts_to_periods run fact_entity date_property w =
         (Return (VInt 0),
          {| db := db w;
             ran := ran w ++ [LinkFactsToMonths fact_entity date_property];
             log := log w ++ [Error ("Failed to link " +:+ fact_entity +:+ " to periods: "
                                     +:+ str_exn e)] |})).
Proof.
  split; [|split; [|split; [|split]]].
  - intros stmt H. split;
      [by apply execute_query_fails|by apply execute_query_with_result_fails].
  - intros. by eapply execute_batch_fails.
  - intros. by eapply batch_merge_nodes_raises.
  - intros. by apply create_customer_relationships_fails.
  - intros. by apply link_facts_to_periods_fails.
Qed.

Lemma persistence_errors_by_operation_witness :
  (_execute_query Scenario.unreachable
     (Cypher "RETURN 1 as test" ∅) (new_world empty_db)).1
    = Raise (Neo4jError "ServiceUnavailable")
  ∧ (∃ e' w',
       batch_merge_nodes Scenario.unreachable "Customer"
         [Scenario.first_item; Scenario.later_item] 100 (new_world empty_db)
         = (Raise e', w'))
  ∧ (create_customer_invoice_relationships Scenario.unreachable (new_world empty_db)).1
    = Return (VInt 0)
  ∧ (link_facts_to_periods Scenario.unreachable "WorkHour" "eventDate"
       (new_world empty_db)).1 = Return (VInt 0).
Proof.
  destruct (persistence_errors_by_operation Scenario.unreachable
              (new_world empty_db) (Neo4jError "ServiceUnavailable"))
    as (Hquery & _ & Hbatch & Hrel & Hlink).
  split; [|split; [|split]].
  - destruct (Hquery (Cypher "RETURN 1 as test" ∅) eq_refl) as [-> _]. reflexivity.
  - destruct (Hbatch "Customer" [Scenario.first_item; Scenario.later_item] 100%Z
                [Scenario.first_item; Scenario.later_item])
      as (e' & w' & Hrun & _).
    + reflexivity.
    + apply elem_of_cons. by left.
    + reflexivity.
    + by exists e', w'.
  - change (create_customer_invoice_relationships Scenario.unreachable)
      with (create_customer_relationships Scenario.unreachable Invoice).
    by rewrite (Hrel Invoice eq_refl).
  - by rewrite (Hlink "WorkHour" "eventDate" eq_refl).
Defined.

(** C7, as stated, fails: the gap is not logged. The contact linkage
    logs one line, the number of matched pairs; with a contact whose
    customer does not exist in the store the line is the same as without
    it, and nothing else is logged. *)
Lemma dangling_key_is_not_logged :
  let gap := create_customer_contact_relationships Scenario.neo4j
               (new_world ScenarioMore.with_gap) in
  let no_gap := create_customer_contact_relationships Scenario.neo4j
                  (new_world ScenarioMore.without_gap) in
  nodes ScenarioMore.with_gap !! 2 = Some (ScenarioMore.contact "k-2" "c-404")
  ∧ (∀ c, c ∈ nodes ScenarioMore.with_gap → prop c "guid" ≠ Some (VStr "c-404"))
  ∧ gap.1 = Return (VInt 1)
  ∧ log gap.2 = [Info "  Created 1 Customer→ContactPerson relationships"]
  ∧ log gap.2 = log no_gap.2.
Proof.
  cbn zeta. split; [reflexivity|]. split; [|repeat split; reflexivity].
  intros c Hc Hguid. cbn in Hc.
  repeat (apply elem_of_cons in Hc as [->|Hc]); try discriminate Hguid.
  by apply elem_of_nil in Hc.
Qed.

(** C7 (amended): when a dependent node carries a foreign key that no
    Customer node has as its guid, the contact, address or invoice
    linkage returns normally the number of matched pairs, among which
    that node is not, creates no relationship to it, and leaves the nodes
    of the store as they were; it logs one line, with that number;
    whatever the driver does, the call raises no exception. *)
Theorem dangling_foreign_key_is_tolerated now period_aggregates other
    (l : Linkage) w i p fk :
  nodes (db w) !! i = Some p →
  has_label (dependent l) p = true →
  prop p "customerGuid" = Some fk →
  (∀ c, c ∈ nodes (db w) → matches "Customer" "guid" fk c = false) →
  let rows := link_rows (dependent l) "customerGuid" "Customer" (nodes (db w)) in
  ∃ w',
    create_customer_relationships (neo4j now period_aggregates other) l w
      = (Return (VInt (Z.of_nat (length rows))), w')
    ∧ (∀ j, (j, i) ∉ rows)
    ∧ nodes (db w') = nodes (db w)
    ∧ (∀ r, r ∈ rels (db w') → r ∈ rels (db w) ∨ rel_dst r ≠ i)
    ∧ log w' = log w ++ [Info ("  Created " +:+ pretty (Z.of_nat (length rows))
                               +:+ " Customer→" +:+ dependent l +:+ " relationships")]
    ∧ (∀ run' : Driver,
         ∃ v, (create_customer_relationships run' l w).1 = Return v).
Proof.
  intros Hi Hlabel Hfk Hnone rows.
  assert (Hrows : ∀ j, (j, i) ∉ rows).
  { intros j Hrow.
    apply elem_of_link_rows in Hrow as (p' & c & fk' & Hp' & Hc & _ & Hfk' & Hm).
    rewrite Hi in Hp'. injection Hp' as <-.
    rewrite Hfk in Hfk'. injection Hfk' as <-.
    rewrite (Hnone c) in Hm; [done|]. apply list_elem_of_lookup. eauto. }
  rewrite create_customer_relationships_runs.
  eexists. split; [reflexivity|]. cbn [db nodes rels log].
  split; [exact Hrows|]. split; [done|]. split; [|split; [done|]].
  - intros r Hr. apply elem_of_merge_rels in Hr as [Hr|([j i'] & Hrow & ->)]; [by left|].
    right. cbn. intros ->. by apply (Hrows j).
  - intros run'. apply create_customer_relationships_returns.
Qed.

Lemma dangling_foreign_key_is_tolerated_witness :
  ∃ w',
    create_customer_contact_relationships Scenario.neo4j
      (new_world ScenarioMore.with_gap) = (Return (VInt 1), w')
    ∧ nodes (db w') = nodes ScenarioMore.with_gap
    ∧ rels (db w') = [{| rel_type := "HAS_CONTACT"; rel_src := 0; rel_dst := 1 |}].
Proof.
  destruct (dangling_foreign_key_is_tolerated Scenario.clock Scenario.no_aggregates
              Scenario.unreachable Contact
              (new_world ScenarioMore.with_gap) 2 (ScenarioMore.contact "k-2" "c-404")
              (VStr "c-404"))
    as (w' & Hrun & _ & Hnodes & _).
  - reflexivity.
  - reflexivity.
  - reflexivity.
  - intros c Hc. cbn in Hc.
    repeat (apply elem_of_cons in Hc as [->|Hc]); try reflexivity.
    by apply elem_of_nil in Hc.
  - exists w'. split; [exact Hrun|]. split; [exact Hnodes|].
    symmetry. exact (f_equal (fun r => rels (db r.2)) Hrun).
Defined.

(** C9: [calculate_period_metrics] with the empty list of periods returns
    0 and leaves the component as it was: no statement is sent, the
    database and the log are unchanged (and the same holds for
    [calculate_project_metrics]). With [None] it sends the period
    statement without a WHERE clause, which, when its aggregates can be
    computed, stamps every node of the period's label and returns their
    number. *)
Theorem empty_period_list_is_a_noop now period_aggregates other
    (run : Driver) Entity period_type w :
  (∀ j, is_Some (period_aggregates (db w) j)) →
  calculate_period_metrics run period_type (Some []) w = (Return (VInt 0), w)
  ∧ calculate_project_metrics run Entity (Some []) w = (Return (VInt 0), w)
  ∧ ∃ w',
      calculate_period_metrics (neo4j now period_aggregates other) period_type None w
        = (Return (VInt (Z.of_nat
             (length (filter (λ n, has_label (capitalize period_type) n = true)
                        (nodes (db w)))))), w')
      ∧ ran w' = ran w ++ [PeriodMetrics (capitalize period_type) None]
      ∧ ∀ j n, nodes (db w) !! j = Some n →
          ∃ n', nodes (db w') !! j = Some n' ∧
                if has_label (capitalize period_type) n
                then prop n' "lastDenormalizedAt" = Some now
                else n' = n.
Proof.
  intros Hagg. split; [reflexivity|]. split; [reflexivity|].
  destruct (calculate_period_metrics_all now period_aggregates other period_type w Hagg)
    as (w' & Hrun & Hran & _ & Hnodes).
  exists w'. split; [|done]. rewrite Hrun.
  assert (filter (λ n, period_target (capitalize period_type) None n = true) (nodes (db w))
          = filter (λ n, has_label (capitalize period_type) n = true) (nodes (db w)))
    as ->; [|done].
  apply list_filter_iff. intros n. unfold period_target. by rewrite andb_true_r.
Qed.

Lemma empty_period_list_is_a_noop_witness :
  calculate_period_metrics Scenario.neo4j "month" (Some []) (new_world Scenario.month_db)
    = (Return (VInt 0), new_world Scenario.month_db)
  ∧ (calculate_period_metrics Scenario.neo4j "month" None (new_world Scenario.month_db)).1
    = Return (VInt 1).
Proof.
  destruct (empty_period_list_is_a_noop Scenario.clock Scenario.no_aggregates
              Scenario.unreachable Scenario.neo4j "Project" "month"
              (new_world Scenario.month_db))
    as (Hempty & _ & w' & Hall & _).
  - intros j. by eexists.
  - split; [exact Hempty|]. fold Scenario.neo4j in Hall. by rewrite Hall.
Defined.


End StoreClaims.

(** * Properties of the orchestrator *)

Module OrchestratorClaims.
Import Orchestrator.

(** C8, as stated, fails: a dry run with a granted token enters two
    steps, AUTH and SUMMARY; the summary is printed although the run is
    dry. *)
Lemma dry_run_prints_the_summary :
  let r := run_full_sync Scenario.srv_401_200 {| enable_metrics := true;
                                                 enable_analytics := true |}
             template_step template_step template_step template_step
             template_step template_step template_step
             true true (new_state Graph.empty_db) in
  r.1 = Return true
  ∧ entered r.2 = [AUTH; SUMMARY]
  ∧ entered r.2 ≠ [AUTH].
Proof. repeat split; try reflexivity. discriminate. Qed.

(** C8 (amended): with [dry_run = True], [run_full_sync] enters AUTH; when
    the token is granted it enters none of INDEX, REFERENCE,
    CORE_ENTITIES, TRANSACTIONAL, RELATIONSHIPS, METRICS and ANALYTICS,
    whatever the step methods are, then enters SUMMARY and returns True;
    when authentication fails it returns False after AUTH alone. The
    connection is closed on both paths. *)
Theorem dry_run_skips_the_work_steps srv sync_config
    (_create_indexes _sync_reference_data _sync_core_entities
     _sync_transactional_data _create_relationships
     _calculate_metrics _create_analytics : M State unit)
    (create_indexes : bool) (s : State) :
  run_full_sync srv sync_config _create_indexes _sync_reference_data
    _sync_core_entities _sync_transactional_data _create_relationships
    _calculate_metrics _create_analytics create_indexes true s =
  match Client.on_auth srv (Client.auth_calls (api s)) with
  | Client.Granted t =>
      (Return true,
       {| api := {| Client.token := Some t; Client.sent := Client.sent (api s);
                    Client.auth_calls := S (Client.auth_calls (api s));
                    Client.slept := Client.slept (api s) |};
          store := store s; connected := false;
          entered := entered s ++ [AUTH; SUMMARY] |})
  | _ =>
      (Return false,
       {| api := {| Client.token := Client.token (api s);
                    Client.sent := Client.sent (api s);
                    Client.auth_calls := S (Client.auth_calls (api s));
                    Client.slept := Client.slept (api s) |};
          store := store s; connected := false;
          entered := entered s ++ [AUTH] |})
  end.
Proof.
  unfold run_full_sync, try_finally, try_except, _authenticate, api_authenticate,
    Client.authenticate, bind, enter, modify.
  cbn. rewrite !andb_false_r. cbn.
  destruct (Client.on_auth srv (Client.auth_calls (api s))); cbn;
    by rewrite <- ?app_assoc.
Qed.
End OrchestratorClaims.

(** * Further properties of the client *)

Module ClientExtras.
Import Client ClientFacts ClientMore.

Section Retry.
Variable srv : Server.
Variable config : Config.

(** A run of transient failures costs one GET and one sleep each. *)
Lemma attempts_transient url params (k a : nat) rest s :
  (∀ i, i < k →
     is_transient (on_get srv (length (sent s) + i) (request_of url params s)) = true) →
  attempts srv config url params ((Z.of_nat <$> seq a k) ++ rest) s =
  attempts srv config url params rest
    {| token := token s;
       sent := sent s ++ replicate k (request_of url params s);
       auth_calls := auth_calls s;
       slept := slept s ++ (Z.pow 2 <$> (Z.of_nat <$> seq a k)) |}.
Proof.
  revert a s. induction k as [|k IH]; intros a s Hk.
  - cbn. rewrite !app_nil_r. by destruct s.
  - cbn [seq fmap list_fmap app]. rewrite attempts_cons.
    pose proof (Hk 0 ltac:(lia)) as H0. rewrite Nat.add_0_r in H0.
    destruct (on_get srv (length (sent s)) (request_of url params s))
      as [status data tok|kind]; [|done].
    cbn in H0.
    assert (Hgo : (sleep (2 ^ Z.of_nat a) ;;; attempts srv config url params
                     ((Z.of_nat <$> seq (S a) k) ++ rest)) (after_get url params s) =
                  attempts srv config url params rest
                    {| token := token s;
                       sent := sent s ++ replicate (S k) (request_of url params s);
                       auth_calls := auth_calls s;
                       slept := slept s ++ (Z.pow 2 <$> (Z.of_nat <$> seq a (S k))) |}).
    { unfold bind, sleep, modify. cbn [after_get].
      rewrite IH.
      - unfold request_of. cbn. by rewrite <- !app_assoc.
      - intros i Hi. cbn. rewrite length_app, Nat.add_1_r.
        replace (S (length (sent s)) + i) with (length (sent s) + S i) by lia.
        apply Hk. lia. }
    destruct (status =? 429)%Z eqn:H429.
    + assert (status = 429%Z) as -> by lia. exact Hgo.
    + cbn in H0. apply andb_prop in H0 as H0'.
      replace (raises_for_status status) with true
        by (unfold raises_for_status; lia).
      replace (status =? 401)%Z with false by lia.
      rewrite H0. exact Hgo.
Qed.
End Retry.

(** The first answer being a 4xx that is neither 401 nor 429 ends the
    attempts loop. *)
Lemma attempts_client_error srv config url params a rest s status body tok :
  on_get srv (length (sent s)) (request_of url params s) = Response status body tok →
  (400 ≤ status < 500)%Z → status ≠ 401%Z → status ≠ 429%Z →
  attempts srv config url params (a :: rest) s =
    (Raise (HTTPError status), after_get url params s).
Proof.
  intros Hget Hrange H401 H429.
  rewrite attempts_cons, Hget.
  replace (raises_for_status status) with true by (unfold raises_for_status; lia).
  replace (status =? 401)%Z with false by lia.
  replace (status =? 429)%Z with false by lia.
  replace ((500 <=? status)%Z && (status <? 600)%Z) with false by lia.
  done.
Qed.

(** X1: a 4xx other than 401 and 429 is not retried: with an attempt to
    spend, the first such answer ends the request with its HTTP error after
    one GET, without sleeping or re-authenticating. *)
Theorem client_error_is_not_retried srv config url params s status body tok :
  (1 ≤ max_retries config)%Z →
  on_get srv (length (sent s)) (request_of url params s) = Response status body tok →
  (400 ≤ status < 500)%Z → status ≠ 401%Z → status ≠ 429%Z →
  _make_single_request srv config url params s =
    (Raise (HTTPError status), after_get url params s).
Proof.
  intros Hn Hget Hrange H401 H429. unfold _make_single_request.
  destruct (range_from_one _ Hn) as [rest ->].
  by apply (attempts_client_error _ _ _ _ _ _ _ status body tok).
Qed.

Lemma client_error_is_not_retried_witness :
  _make_single_request (scripted [Response 400 Scenario.no_body None; Scenario.success] [])
    (Scenario.cfg 3) "https://api.example.com/test" ∅ new_session
  = (Raise (HTTPError 400),
     after_get "https://api.example.com/test" ∅ new_session).
Proof.
  apply (client_error_is_not_retried _ _ _ _ _ 400 Scenario.no_body None).
  - vm_compute. discriminate.
  - reflexivity.
  - lia.
  - discriminate.
  - discriminate.
Defined.

(** X2: k transient answers (429 or 5xx) followed by a success, with
    k < max_retries, give exactly k + 1 GETs, the sleeps 2^0 .. 2^(k-1)
    and the data of the successful answer; the token endpoint is not
    called. *)
Theorem transient_failures_then_success srv config url params s (k : nat) status body tok :
  (Z.of_nat k < max_retries config)%Z →
  (∀ i, i < k →
     is_transient (on_get srv (length (sent s) + i) (request_of url params s)) = true) →
  on_get srv (length (sent s) + k) (request_of url params s) = Response status body tok →
  raises_for_status status = false →
  _make_single_request srv config url params s =
    (Return (body, tok),
     {| token := token s;
        sent := sent s ++ replicate (S k) (request_of url params s);
        auth_calls := auth_calls s;
        slept := slept s ++ (Z.pow 2 <$> range (Z.of_nat k)) |}).
Proof.
  intros Hk Htrans Hget Hok. unfold _make_single_request, range.
  replace (Z.to_nat (max_retries config))
    with (k + S (Z.to_nat (max_retries config) - S k)) by lia.
  rewrite seq_app, fmap_app. cbn [seq fmap list_fmap].
  rewrite attempts_transient by done.
  erewrite attempts_success; [| |exact Hok].
  2:{ cbn. rewrite length_app, length_replicate. exact Hget. }
  unfold after_get, request_of. cbn. rewrite Nat2Z.id.
  rewrite <- app_assoc.
  replace (replicate k _ ++ [_]) with
    (replicate (S k) {| req_url := url; req_params := params; req_bearer := token s |});
    [done|].
  clear. induction k as [|k IH]; [done|]. cbn. by rewrite <- IH.
Qed.

Lemma transient_failures_then_success_witness :
  _make_single_request
    (scripted [Scenario.server_error; Response 429 Scenario.no_body None; Scenario.success] [])
    (Scenario.cfg 3) "https://api.example.com/test" ∅ new_session
  = (Return (Scenario.empty_page, None),
     {| token := None;
        sent := replicate 3 (request_of "https://api.example.com/test" ∅ new_session);
        auth_calls := 0;
        slept := [1; 2]%Z |}).
Proof.
  apply (transient_failures_then_success _ (Scenario.cfg 3) _ _ new_session 2 200).
  - vm_compute. reflexivity.
  - intros i Hi. destruct i as [|[|i]]; [reflexivity|reflexivity|lia].
  - reflexivity.
  - reflexivity.
Defined.

Section Bounds.
Variable srv : Server.
Variable config : Config.

Lemma bounded_run_stop url params budget s r :
  bounded_run url params (S budget) s
    ((r, after_get url params s) : result (Body * option string) * Session).2.
Proof.
  exists [request_of url params s], []. cbn. rewrite app_nil_r.
  repeat split; try done; try lia. by repeat constructor.
Qed.

Lemma bounded_run_step url params budget s s1 s' used :
  sent s1 = sent s ++ [request_of url params s] →
  (slept s1 = slept s ∧ auth_calls s1 = S (auth_calls s) ∧ used = 0
   ∨ (∃ w, slept s1 = slept s ++ [w]) ∧ auth_calls s1 = auth_calls s ∧ used = 1) →
  bounded_run url params budget s1 s' →
  bounded_run url params (S budget) s s'.
Proof.
  intros Hsent Hcase (more & naps & Hs' & Hn' & Hlen & Hall & Hauth & Hsum).
  rewrite Hsent, <- app_assoc in Hs'. cbn in Hs'.
  destruct Hcase as [(Hsl & Ha & _)|([w Hsl] & Ha & _)].
  - exists (request_of url params s :: more), naps.
    rewrite Hsl in Hn'. repeat split; try done; cbn; try lia.
    constructor; [done|]. exact Hall.
  - exists (request_of url params s :: more), (w :: naps).
    rewrite Hsl, <- app_assoc in Hn'. repeat split; try done; cbn; try lia.
    constructor; [done|]. exact Hall.
Qed.

Lemma attempts_bounded url params todo s :
  bounded_run url params (length todo) s (attempts srv config url params todo s).2.
Proof.
  revert s. induction todo as [|attempt rest IH]; intros s.
  - exists [], []. cbn. rewrite !app_nil_r. repeat split; try done. lia.
  - rewrite attempts_cons. cbn [length].
    assert (Hgo : ∀ w, bounded_run url params (S (length rest)) s
              ((sleep w ;;; attempts srv config url params rest) (after_get url params s)).2).
    { intros w. unfold bind, sleep, modify. cbn [after_get].
      eapply bounded_run_step; [|right|apply IH]; cbn; eauto. }
    destruct (on_get srv (length (sent s)) (request_of url params s))
      as [status data tok|kind].
    + destruct (raises_for_status status); [|apply bounded_run_stop].
      destruct (status =? 401)%Z.
      * unfold bind, authenticate. cbn [after_get auth_calls token sent slept].
        destruct (on_auth srv (auth_calls s)).
        -- eapply bounded_run_step; [|left|apply IH]; cbn; eauto.
        -- exists [request_of url params s], []. cbn. rewrite app_nil_r.
           repeat split; try done; try lia. by repeat constructor.
        -- exists [request_of url params s], []. cbn. rewrite app_nil_r.
           repeat split; try done; try lia. by repeat constructor.
      * destruct (status =? 429)%Z; [apply Hgo|].
        destruct ((500 <=? status)%Z && (status <? 600)%Z);
          [apply Hgo|apply bounded_run_stop].
    + destruct (attempt <? max_retries config - 1)%Z; [apply Hgo|apply bounded_run_stop].
Qed.
End Bounds.

(** X3: whatever the server answers, one call of [_make_single_request]
    sends at most [max_retries] GETs, all to the URL and with the
    parameters it was given; it only adds to what the client has sent and
    slept; and each GET is followed by at most one sleep or one
    re-authentication. *)
Theorem single_request_is_bounded srv config url params s :
  ∃ more naps,
    let s' := (_make_single_request srv config url params s).2 in
    sent s' = sent s ++ more ∧
    slept s' = slept s ++ naps ∧
    length more ≤ Z.to_nat (max_retries config) ∧
    Forall (same_target url params) more ∧
    auth_calls s ≤ auth_calls s' ∧
    length naps + (auth_calls s' - auth_calls s) ≤ length more.
Proof.
  destruct (attempts_bounded srv config url params (range (max_retries config)) s)
    as (more & naps & H1 & H2 & H3 & H4).
  exists more, naps. cbn. unfold _make_single_request.
  split; [done|]. split; [done|]. split; [|done].
  unfold range in H3. by rewrite length_fmap, length_seq in H3.
Qed.

(** X4: with [max_retries <= 0] no GET is sent: the call raises the
    max-retries exception at once and leaves the client as it was. *)
Theorem no_attempts_without_retries srv config url params s :
  (max_retries config ≤ 0)%Z →
  _make_single_request srv config url params s =
    (Raise (PlainException (max_retries_message config url)), s).
Proof.
  intros Hn. unfold _make_single_request, range.
  replace (Z.to_nat (max_retries config)) with 0 by lia. reflexivity.
Qed.

Lemma no_attempts_without_retries_witness :
  _make_single_request Scenario.srv_pages (Scenario.cfg 0)
    "https://api.example.com/test" ∅ new_session
  = (Raise (PlainException "Max retries (0) exceeded for https://api.example.com/test"),
     new_session).
Proof.
  apply (no_attempts_without_retries Scenario.srv_pages (Scenario.cfg 0)).
  vm_compute. discriminate.
Defined.

Section Pages.
Variable srv : Server.
Variable config : Config.

(** The loop takes the pages that carry a cursor one GET each and goes
    on with the cursor of the last. *)
Lemma request_loop_through url params pages :
  (1 ≤ max_retries config)%Z →
  ∀ fuel s next_page_token all_items,
    Forall (λ p : Page, token_truthy p.2 = true) pages →
    (∀ i body tok req,
       pages !! i = Some (body, tok) →
       on_get srv (length (sent s) + i) req = Response 200 body tok) →
    request_loop srv config (length pages + fuel) url params true
      next_page_token all_items s =
    request_loop srv config fuel url params true
      (cursor_after next_page_token pages)
      (all_items ++ concat (page_items <$> pages))
      {| token := token s;
         sent := sent s ++ page_requests url params (params_with params next_page_token)
                             (token s) pages;
         auth_calls := auth_calls s;
         slept := slept s |}.
Proof.
  intros Hn. induction pages as [|[body tok] rest IH];
    intros fuel s npt acc Hall Hsrv.
  - cbn. rewrite !app_nil_r. by destruct s.
  - apply Forall_cons in Hall as [Htok Hall]. cbn in Htok.
    cbn [length Nat.add request_loop andb].
    fold (next_params params npt). fold (params_with params npt).
    rewrite (single_request_success srv config url (params_with params npt) s body tok Hn)
      by (rewrite <- (Nat.add_0_r (length _)); by apply Hsrv).
    cbn [negb orb]. rewrite Htok. cbn [negb].
    rewrite IH; [|done|].
    + replace (params_with params tok) with (next_params params tok)
        by (unfold params_with; by rewrite Htok).
      unfold after_get, request_of, page_items. cbn.
      by rewrite <- !app_assoc.
    + intros i b t req Hi. cbn. rewrite length_app, Nat.add_1_r.
      replace (S (length (sent s)) + i) with (length (sent s) + S i) by lia.
      by apply Hsrv.
Qed.
End Pages.

(** X5: with [paginated = False] the first successful answer is the whole
    result: one GET, sent without a pageToken, and a cursor in the answer
    is ignored. *)
Theorem unpaginated_request_fetches_one_page srv config endpoint params s fuel
    status body tok :
  (1 ≤ max_retries config)%Z →
  1 ≤ fuel →
  on_get srv (length (sent s))
    (request_of (api_url config +:+ endpoint) (default ∅ params) s)
    = Response status body tok →
  raises_for_status status = false →
  _make_request srv config fuel endpoint params false s =
    Some (Return (default [] (body_items body)),
          after_get (api_url config +:+ endpoint) (default ∅ params) s).
Proof.
  intros Hn Hfuel Hget Hok. destruct fuel as [|fuel]; [lia|].
  unfold _make_request. cbn [request_loop andb].
  unfold _make_single_request. destruct (range_from_one _ Hn) as [rest ->].
  by rewrite (attempts_success srv config _ _ _ _ _ _ _ _ Hget Hok).
Qed.

Lemma unpaginated_request_fetches_one_page_witness :
  _make_request Scenario.srv_pages (Scenario.cfg 3) 1 "/test-endpoint" None false new_session
  = Some (Return [Scenario.item 1; Scenario.item 2],
          after_get "https://api.example.com/test-endpoint" ∅ new_session).
Proof.
  apply (unpaginated_request_fetches_one_page Scenario.srv_pages (Scenario.cfg 3)
           "/test-endpoint" None new_session 1 200
           {| body_items := Some [Scenario.item 1; Scenario.item 2] |} (Some "page2_token")).
  - vm_compute. discriminate.
  - lia.
  - reflexivity.
  - reflexivity.
Defined.

(** X6: the loop of [_make_request] has no bound of its own: against a
    server that answers every GET with a page and a non-empty cursor it
    does not return, however many iterations it is given. *)
Theorem endless_cursor_never_returns srv config endpoint params s fuel :
  (1 ≤ max_retries config)%Z →
  (∀ n req, ∃ body t, on_get srv n req = Response 200 body (Some t) ∧ t ≠ "") →
  _make_request srv config fuel endpoint params true s = None.
Proof.
  intros Hn Hsrv. unfold _make_request.
  generalize (@nil record) as acc. generalize (@None string) as npt. revert s.
  induction fuel as [|fuel IH]; intros s npt acc; [done|].
  cbn [request_loop andb].
  match goal with |- context [_make_single_request _ _ ?u ?pp s] =>
    destruct (Hsrv (length (sent s)) (request_of u pp s)) as (body & t & Hget & Ht);
    rewrite (single_request_success srv config u pp s body (Some t) Hn Hget) end.
  cbn [negb orb token_truthy].
  replace (String.eqb t "") with false by (symmetry; by apply String.eqb_neq).
  cbn [negb]. apply IH.
Qed.

Lemma endless_cursor_never_returns_witness :
  _make_request
    {| on_get := λ _ _, Response 200 Scenario.empty_page (Some "next");
       on_auth := λ _, Refused |}
    (Scenario.cfg 3) 1000 "/test-endpoint" None true new_session = None.
Proof.
  apply endless_cursor_never_returns.
  - vm_compute. discriminate.
  - intros n req. exists Scenario.empty_page, "next". split; [reflexivity|discriminate].
Defined.

(** X7: an error on a later page ends the whole fetch: after pages that
    each carried a cursor, a GET answered with a non-retryable 4xx makes
    [_make_request] raise that HTTP error; the items of the pages already
    fetched are not returned. *)
Theorem failing_page_aborts_the_fetch srv config endpoint params s pages fuel
    status body tok :
  (1 ≤ max_retries config)%Z →
  Forall (λ p : Page, token_truthy p.2 = true) pages →
  (∀ i body tok req,
     pages !! i = Some (body, tok) →
     on_get srv (length (sent s) + i) req = Response 200 body tok) →
  (∀ req, on_get srv (length (sent s) + length pages) req = Response status body tok) →
  (400 ≤ status < 500)%Z → status ≠ 401%Z → status ≠ 429%Z →
  length pages < fuel →
  ∃ s',
    _make_request srv config fuel endpoint params true s
      = Some (Raise (HTTPError status), s')
    ∧ length (sent s') = length (sent s) + length pages + 1.
Proof.
  intros Hn Hall Hsrv Hfail Hrange H401 H429 Hfuel. unfold _make_request.
  replace fuel with (length pages + S (fuel - S (length pages))) by lia.
  rewrite (request_loop_through srv config _ _ pages Hn) by done.
  cbn [request_loop andb].
  unfold _make_single_request. destruct (range_from_one _ Hn) as [rest ->].
  match goal with |- context [attempts _ _ ?u ?pp _ ?s1] =>
    rewrite (attempts_client_error srv config u pp 0%Z rest s1 status body tok) end;
    try done.
  - eexists. split; [reflexivity|]. cbn. rewrite !length_app. cbn.
    assert (Hlen : ∀ first, length (page_requests (api_url config +:+ endpoint)
                              (default ∅ params) first (token s) pages) = length pages).
    { clear. induction pages as [|[b t] rest IH]; intros first; [done|].
      cbn. by rewrite IH. }
    rewrite Hlen. lia.
  - cbn. rewrite length_app.
    assert (Hlen : ∀ first, length (page_requests (api_url config +:+ endpoint)
                              (default ∅ params) first (token s) pages) = length pages).
    { clear. induction pages as [|[b t] rest IH]; intros first; [done|].
      cbn. by rewrite IH. }
    rewrite Hlen. apply Hfail.
Qed.

Lemma failing_page_aborts_the_fetch_witness :
  ∃ s',
    _make_request
      (scripted [Response 200 {| body_items := Some [Scenario.item 1] |} (Some "page2_token");
                 Response 404 Scenario.no_body None] [])
      (Scenario.cfg 3) 5 "/test-endpoint" None true new_session
    = Some (Raise (HTTPError 404), s').
Proof.
  destruct (failing_page_aborts_the_fetch
              (scripted [Response 200 {| body_items := Some [Scenario.item 1] |}
                           (Some "page2_token");
                         Response 404 Scenario.no_body None] [])
              (Scenario.cfg 3) "/test-endpoint" None new_session
              [({| body_items := Some [Scenario.item 1] |}, Some "page2_token")] 5
              404 Scenario.no_body None) as (s' & Hrun & _).
  - vm_compute. discriminate.
  - repeat constructor.
  - intros i body tok req Hi. destruct i as [|i]; cbn in Hi; [|done].
    by injection Hi as <- <-.
  - reflexivity.
  - lia.
  - discriminate.
  - discriminate.
  - cbn. lia.
  - by exists s'.
Defined.
End ClientExtras.

(** * Further properties of the graph layer *)

Module StoreExtras.
Import GraphMore.
Import Graph Layer LayerMore LayerFacts StoreFacts.

(** ** Merging a record twice *)

Lemma node_eq (n m : Node) :
  node_labels n = node_labels m → node_props n = node_props m → n = m.
Proof. destruct n, m. cbn. by intros -> ->. Qed.

Lemma set_props_snoc sets k v n :
  set_props (sets ++ [(k, v)]) n = set_prop k v (set_props sets n).
Proof. unfold set_props. by rewrite foldl_app. Qed.

Lemma set_props_labels sets n : node_labels (set_props sets n) = node_labels n.
Proof.
  unfold set_props. revert n. induction sets as [|[k v] sets IH]; intros n; [done|].
  cbn. by rewrite IH.
Qed.

Lemma set_prop_set_prop_eq k v v' n : set_prop k v (set_prop k v' n) = set_prop k v n.
Proof.
  apply node_eq; [done|]. unfold set_prop. cbn.
  destruct v, v'.
  - apply insert_insert_eq.
  - apply insert_delete_eq.
  - apply delete_insert_eq.
  - apply delete_delete_eq.
Qed.

Lemma set_prop_set_prop_ne k k' v v' n :
  k ≠ k' → set_prop k v (set_prop k' v' n) = set_prop k' v' (set_prop k v n).
Proof.
  intros Hne. apply node_eq; [done|]. unfold set_prop. cbn.
  destruct v, v'.
  - by apply insert_insert_ne.
  - by apply insert_delete_ne.
  - by apply delete_insert_ne.
  - apply delete_delete.
Qed.

(** An assignment that is made again at the end may be dropped earlier. *)
Lemma set_prop_absorbs k v v' sets n :
  set_prop k v (set_props sets (set_prop k v' n)) = set_prop k v (set_props sets n).
Proof.
  revert n. induction sets as [|[k' w] sets IH]; intros n.
  - apply set_prop_set_prop_eq.
  - change (set_props ((k', w) :: sets) ?m) with (set_props sets (set_prop k' w m)).
    destruct (decide (k' = k)) as [->|Hne].
    + by rewrite set_prop_set_prop_eq.
    + rewrite (set_prop_set_prop_ne k' k) by done. apply IH.
Qed.

Lemma set_props_idem sets n : set_props sets (set_props sets n) = set_props sets n.
Proof.
  revert n. induction sets as [|[k v] sets IH] using rev_ind; intros n; [done|].
  rewrite !set_props_snoc, set_prop_absorbs. by rewrite IH.
Qed.

Lemma matches_set_props label key v sets n :
  key ∉ sets.*1 → matches label key v (set_props sets n) = matches label key v n.
Proof.
  intros Hkey. unfold matches, has_label.
  by rewrite set_props_labels, prop_set_props_other.
Qed.

Lemma merge_node_idem label key v sets ns :
  key ∉ sets.*1 →
  merge_node label key v sets (merge_node label key v sets ns)
  = merge_node label key v sets ns.
Proof.
  intros Hkey. unfold merge_node at 2 3.
  destruct (existsb (matches label key v) ns) eqn:Hex.
  - unfold merge_node.
    replace (existsb _ (_ <$> ns)) with true.
    + rewrite <- list_fmap_compose. apply list_fmap_ext. intros i n _. cbn.
      destruct (matches label key v n) eqn:Hm.
      * by rewrite matches_set_props, Hm, set_props_idem.
      * by rewrite Hm.
    + symmetry. apply existsb_exists in Hex as (n & Hin & Hm).
      apply existsb_exists. exists (set_props sets n). split.
      * apply in_map_iff. exists n. by rewrite Hm.
      * by rewrite matches_set_props.
  - assert (Hnew : matches label key v
              (set_props sets {| node_labels := {[label]}; node_props := {[key := v]} |})
              = true).
    { rewrite matches_set_props by done. unfold matches, has_label, prop. cbn.
      rewrite lookup_singleton_eq. rewrite bool_decide_eq_true_2 by set_solver.
      by rewrite bool_decide_eq_true_2. }
    rewrite merge_node_last; [by rewrite set_props_idem| |done].
    intros n Hn. destruct (matches label key v n) eqn:Hm; [|done].
    assert (existsb (matches label key v) ns = true); [|congruence].
    apply existsb_exists. exists n. split; [by apply list_elem_of_In|done].
Qed.

Section Idempotence.
Variable now : value.
Variable period_aggregates : Db → nat → option (list (string * option value)).
Variable other : Driver.

Abbreviation drv := (neo4j now period_aggregates other).

(** A MERGE ... SET that succeeded and does not assign its own key gives
    the same database when it is run again. *)
Lemma execute_merge_set_idem label key kv sets w w1 :
  key ∉ sets.*1 →
  _execute_query drv (MergeSet label key kv sets) w = (Return true, w1) →
  ∃ w2, _execute_query drv (MergeSet label key kv sets) w1 = (Return true, w2)
        ∧ db w2 = db w1.
Proof.
  intros Hkey Hrun.
  destruct (merge_set label key kv sets (nodes (db w))) as [ns1|] eqn:Hmerge.
  - rewrite (execute_merge_set _ _ _ _ _ _ _ w ns1 Hmerge) in Hrun.
    injection Hrun as <-. cbn.
    unfold merge_set in Hmerge.
    destruct (to_prop kv) as [[v|]|] eqn:Hkv; [|done..].
    destruct (eval_sets sets) as [sets'|] eqn:Hsets; [|done].
    injection Hmerge as <-.
    erewrite execute_merge_set.
    2:{ cbn. unfold merge_set. rewrite Hkv, Hsets. reflexivity. }
    eexists. split; [reflexivity|]. cbn. f_equal.
    apply merge_node_idem. by rewrite (eval_sets_keys _ _ Hsets).
  - unfold _execute_query, try_except, bind, session_run in Hrun. cbn in Hrun.
    by rewrite Hmerge in Hrun.
Qed.

(** [nested_guid] reads the record only. *)
Lemma nested_guid_pure data field :
  ∃ r, ∀ w : World, nested_guid data field w = (r, w).
Proof.
  unfold nested_guid. destruct (truthy (dict_get data field)); [|by eexists].
  destruct (dict_get data field); by eexists.
Qed.

(** X8: [sync_customer] is idempotent on every record: when a record has
    been merged, merging the same record again succeeds and leaves the
    database exactly as it was (no second node, no changed property). *)
Theorem sync_customer_is_idempotent customer_data w w1 :
  sync_customer drv customer_data w = (Return true, w1) →
  ∃ w2, sync_customer drv customer_data w1 = (Return true, w2) ∧ db w2 = db w1.
Proof.
  unfold sync_customer, bind.
  destruct (nested_guid_pure customer_data "businessUnit") as [[bu|e1] Hbu];
    rewrite !Hbu; [|done].
  destruct (nested_guid_pure customer_data "accountOwner") as [[ao|e2] Hao];
    rewrite !Hao; [|done].
  apply execute_merge_set_idem. cbn.
  rewrite !not_elem_of_cons. repeat split; try done. apply not_elem_of_nil.
Qed.

(** X9: [sync_user] is idempotent in the same way. *)
Theorem sync_user_is_idempotent user_data w w1 :
  sync_user drv user_data w = (Return true, w1) →
  ∃ w2, sync_user drv user_data w1 = (Return true, w2) ∧ db w2 = db w1.
Proof.
  unfold sync_user, bind.
  destruct (nested_guid_pure user_data "role") as [[v1|e1] H1]; rewrite !H1; [|done].
  destruct (nested_guid_pure user_data "team") as [[v2|e2] H2]; rewrite !H2; [|done].
  destruct (nested_guid_pure user_data "supervisor") as [[v3|e3] H3]; rewrite !H3; [|done].
  destruct (nested_guid_pure user_data "department") as [[v4|e4] H4]; rewrite !H4; [|done].
  destruct (nested_guid_pure user_data "permissionProfile") as [[v5|e5] H5];
    rewrite !H5; [|done].
  apply execute_merge_set_idem. cbn.
  rewrite !not_elem_of_cons. repeat split; try done. apply not_elem_of_nil.
Qed.
End Idempotence.

Lemma sync_customer_is_idempotent_witness :
  ∃ w1 w2,
    sync_customer Scenario.neo4j Scenario.acme (new_world empty_db) = (Return true, w1)
    ∧ sync_customer Scenario.neo4j Scenario.acme w1 = (Return true, w2)
    ∧ db w2 = db w1.
Proof.
  eexists.
  destruct (sync_customer_is_idempotent Scenario.clock Scenario.no_aggregates
              Scenario.unreachable Scenario.acme (new_world empty_db) _ eq_refl)
    as (w2 & Hrun & Hdb).
  exists w2. split; [reflexivity|]. split; [exact Hrun|exact Hdb].
Defined.

Lemma sync_user_is_idempotent_witness :
  ∃ w1 w2,
    sync_user Scenario.neo4j ScenarioMore.john (new_world empty_db) = (Return true, w1)
    ∧ sync_user Scenario.neo4j ScenarioMore.john w1 = (Return true, w2)
    ∧ db w2 = db w1.
Proof.
  eexists.
  destruct (sync_user_is_idempotent Scenario.clock Scenario.no_aggregates
              Scenario.unreachable ScenarioMore.john (new_world empty_db) _ eq_refl)
    as (w2 & Hrun & Hdb).
  exists w2. split; [reflexivity|]. split; [exact Hrun|exact Hdb].
Defined.

(** ** Nested objects *)

(** X10: [extract_nested_guid] never raises, and the inline extraction of
    the entity modules agrees with it except on a field that is truthy
    and no map: there, and only there, the inline extraction raises
    AttributeError (the value has no [get]), where [extract_nested_guid]
    gives None. The inline extraction does not touch the store. *)
Theorem extract_nested_guid_agrees_with_inline data field (w : World) :
  let v := dict_get data field in
  nested_guid data field w =
    (if truthy_non_map v then Raise (no_get v)
     else Return (extract_nested_guid data field), w)
  ∧ (truthy_non_map v = true → extract_nested_guid data field = PNone).
Proof.
  cbn zeta. unfold nested_guid, extract_nested_guid, truthy_non_map.
  destruct (dict_get data field) as [|b|z|s|d]; cbn.
  - done.
  - by destruct b.
  - by destruct (negb (z =? 0)%Z).
  - by destruct (negb (String.eqb s "")).
  - rewrite andb_false_r. split; [|done].
    by destruct (negb (bool_decide (d = ∅))).
Qed.

Section Frames.
Variable now : value.
Variable period_aggregates : Db → nat → option (list (string * option value)).
Variable other : Driver.

Abbreviation drv := (neo4j now period_aggregates other).

(** X11: a businessUnit or accountOwner field that is truthy and no
    object makes [sync_customer] raise AttributeError, for the business
    unit when both are, before anything is sent: no statement, no log
    line, no change of the database. *)
Theorem sync_customer_rejects_flat_nested_field customer_data w :
  let business_unit := dict_get customer_data "businessUnit" in
  let account_owner := dict_get customer_data "accountOwner" in
  truthy_non_map business_unit || truthy_non_map account_owner = true →
  sync_customer drv customer_data w =
    (Raise (no_get (if truthy_non_map business_unit then business_unit
                    else account_owner)), w).
Proof.
  cbn zeta. intros Hflat. unfold sync_customer, bind.
  assert (Hcases : ∀ field,
    nested_guid customer_data field w =
    (if truthy_non_map (dict_get customer_data field)
     then Raise (no_get (dict_get customer_data field))
     else Return (extract_nested_guid customer_data field), w)).
  { intros field. unfold nested_guid, extract_nested_guid, truthy_non_map.
    destruct (dict_get customer_data field) as [|b|z|s|d]; cbn.
    - done.
    - by destruct b.
    - by destruct (negb (z =? 0)%Z).
    - by destruct (negb (String.eqb s "")).
    - rewrite andb_false_r. by destruct (negb (bool_decide (d = ∅))). }
  rewrite (Hcases "businessUnit").
  destruct (truthy_non_map (dict_get customer_data "businessUnit")); [done|].
  rewrite (Hcases "accountOwner").
  cbn in Hflat. by rewrite Hflat.
Qed.

Lemma merge_frame_refl label key kv d : merge_frame label key kv d d.
Proof.
  unfold merge_frame. split; [done|]. split; [done|]. split; [lia|]. split.
  - intros i n' Hi Hlen. apply lookup_lt_Some in Hi. lia.
  - intros i n n' Hi Hi'. congruence.
Qed.

Lemma merge_node_frame label key v sets ns :
  (∀ i n, ns !! i = Some n → matches label key v n = false →
          merge_node label key v sets ns !! i = Some n)
  ∧ length ns ≤ length (merge_node label key v sets ns) ≤ S (length ns)
  ∧ (∀ i n', merge_node label key v sets ns !! i = Some n' → length ns ≤ i →
             node_labels n' = {[label]})
  ∧ (∀ i n n', ns !! i = Some n → merge_node label key v sets ns !! i = Some n' →
               node_labels n' = node_labels n).
Proof.
  unfold merge_node. destruct (existsb (matches label key v) ns).
  - split; [|split; [|split]].
    + intros i n Hi Hm. rewrite list_lookup_fmap, Hi. cbn. by rewrite Hm.
    + rewrite length_fmap. lia.
    + intros i n' Hi Hlen. rewrite list_lookup_fmap in Hi.
      by rewrite (lookup_ge_None_2 ns i) in Hi.
    + intros i n n' Hi Hi'. rewrite list_lookup_fmap, Hi in Hi'. cbn in Hi'.
      injection Hi' as <-. destruct (matches label key v n); [|done].
      apply set_props_labels.
  - split; [|split; [|split]].
    + intros i n Hi _. by apply lookup_app_l_Some.
    + rewrite length_app. cbn. lia.
    + intros i n' Hi Hlen. rewrite lookup_app_r in Hi by done.
      apply list_lookup_singleton_Some in Hi as [_ <-]. by rewrite set_props_labels.
    + intros i n n' Hi Hi'. rewrite (lookup_app_l_Some _ _ _ _ Hi) in Hi'.
      by injection Hi' as <-.
Qed.

Lemma execute_merge_set_frame label key kv sets w :
  merge_frame label key kv (db w)
    (db (_execute_query drv (MergeSet label key kv sets) w).2).
Proof.
  unfold _execute_query, try_except, bind, session_run. cbn [neo4j].
  unfold merge_set.
  destruct (to_prop kv) as [[v|]|] eqn:Hkv; cbn; try apply merge_frame_refl.
  destruct (eval_sets sets) as [sets'|]; cbn; try apply merge_frame_refl.
  destruct (merge_node_frame label key v sets' (nodes (db w))) as (H1 & H2 & H3 & H4).
  split; [done|]. split; [|done].
  intros i n Hi Hn. apply H1; [done|]. unfold matches.
  destruct Hn as [->|Hn]; [done|].
  rewrite bool_decide_eq_false_2; [by rewrite andb_false_r|]. congruence.
Qed.

(** X12: whatever the record and whether or not the statement succeeds,
    [sync_customer] leaves every relationship in place, leaves every node
    that is not a Customer with the record's guid where it is, adds at
    most one node (at the end, labelled Customer and nothing else) and
    changes the labels of no node. *)
Theorem sync_customer_touches_one_customer customer_data w :
  merge_frame "Customer" "guid" (dict_get customer_data "guid") (db w)
    (db (sync_customer drv customer_data w).2).
Proof.
  unfold sync_customer, bind.
  destruct (nested_guid_pure customer_data "businessUnit") as [[bu|e1] Hbu];
    rewrite !Hbu; [|apply merge_frame_refl].
  destruct (nested_guid_pure customer_data "accountOwner") as [[ao|e2] Hao];
    rewrite !Hao; [|apply merge_frame_refl].
  apply execute_merge_set_frame.
Qed.
End Frames.

Lemma extract_nested_guid_agrees_with_inline_witness :
  nested_guid ScenarioMore.flat_owner "accountOwner" (new_world empty_db)
    = (Raise (AttributeError "'str' object has no attribute 'get'"), new_world empty_db)
  ∧ extract_nested_guid ScenarioMore.flat_owner "accountOwner" = PNone.
Proof.
  destruct (extract_nested_guid_agrees_with_inline ScenarioMore.flat_owner "accountOwner"
              (new_world empty_db)) as [Hinline Hhelper].
  split; [exact Hinline|]. apply Hhelper. reflexivity.
Defined.

Lemma sync_customer_rejects_flat_nested_field_witness :
  sync_customer Scenario.neo4j ScenarioMore.flat_owner_with_unit (new_world empty_db) =
    (Raise (AttributeError "'str' object has no attribute 'get'"), new_world empty_db).
Proof.
  apply (sync_customer_rejects_flat_nested_field Scenario.clock Scenario.no_aggregates
           Scenario.unreachable ScenarioMore.flat_owner_with_unit).
  reflexivity.
Defined.
End StoreExtras.

(** * Further properties of the batch primitives *)

Module LayerExtras.
Import Graph Layer LayerMore LayerFacts.

Section WithDriver.
Variable run : Driver.

Lemma merge_batches_returns label batches total w t w' :
  Forall (fun b : list (gmap string pyval) => 0 < length b) batches →
  merge_batches run label batches total w = (Return t, w') →
  t = (total + Z.of_nat (length (concat batches)))%Z
  ∧ ran w' = ran w ++ (batch_statement label <$> batches)
  ∧ log w' = log w.
Proof.
  intros Hne. revert total w t w'.
  induction Hne as [|b rest Hb _ IH]; intros total w t w' Hrun.
  - cbn in Hrun. injection Hrun as <- <-. cbn. rewrite app_nil_r. split; [lia|done].
  - destruct b as [|x xs]; [cbn in Hb; lia|].
    cbn [merge_batches] in Hrun. unfold bind at 1, try_except, bind at 1 in Hrun.
    unfold session_run in Hrun.
    destruct (run (batch_statement label (x :: xs)) (db w)) as [[d rows]|e];
      cbn in Hrun; [|discriminate].
    apply IH in Hrun as (-> & -> & ->). cbn [ran log].
    rewrite fmap_cons, <- app_assoc. cbn [concat]. rewrite length_app.
    cbn [length]. split; [lia|done].
Qed.

(** X13: with a positive batch size, whenever [batch_merge_nodes] returns
    it returns the number of items, and it has sent one UNWIND statement
    per chunk, in order: the chunks are non-empty, no longer than the
    batch size, and together they are the items, each exactly once. *)
Theorem batch_merge_nodes_returns_item_count label items batch_size total w w' :
  (0 < batch_size)%Z →
  batch_merge_nodes run label items batch_size w = (Return total, w') →
  total = Z.of_nat (length items)
  ∧ ∃ batches,
      concat batches = items
      ∧ Forall (fun b => 0 < length b ≤ Z.to_nat batch_size) batches
      ∧ ran w' = ran w ++ (batch_statement label <$> batches).
Proof.
  intros Hsize. unfold batch_merge_nodes.
  destruct items as [|x xs].
  - intros [= <- <-]. split; [done|]. exists []. cbn. by rewrite app_nil_r.
  - replace (batch_size =? 0)%Z with false by lia.
    replace (batch_size <? 0)%Z with false by lia.
    set (items := x :: xs). unfold bind at 1.
    destruct (merge_batches run label _ 0%Z w) as [[t|e] w1] eqn:Hrun; [|discriminate].
    assert (Hpos : 0 < Z.to_nat batch_size) by lia.
    apply merge_batches_returns in Hrun as (Ht & Hran & Hlog).
    + rewrite chunks_concat in Ht by (done || lia).
      unfold bind, logger, modify, ret. intros [= <- <-]. cbn [ran].
      split; [lia|].
      exists (chunks (length items) (Z.to_nat batch_size) items).
      split; [by apply chunks_concat|]. split; [by apply chunks_sizes|done].
    + eapply Forall_impl; [by apply chunks_sizes|]. cbn. lia.
Qed.

(** X14: [batch_merge_nodes] sends nothing and leaves the database alone
    when there are no items or the batch size is not positive: no items
    give 0, a zero batch size raises ValueError from [range], and a
    negative one gives 0 although there are items. *)
Theorem batch_merge_nodes_without_batches label items batch_size w :
  items = [] ∨ (batch_size ≤ 0)%Z →
  let r := batch_merge_nodes run label items batch_size w in
  ran r.2 = ran w ∧ db r.2 = db w
  ∧ r.1 = (if bool_decide (items = []) then Return 0%Z
           else if bool_decide (batch_size = 0%Z)
                then Raise (ValueError "range() arg 3 must not be zero")
                else Return 0%Z).
Proof.
  intros Hcase. unfold batch_merge_nodes.
  destruct items as [|x xs]; [done|].
  destruct Hcase as [?|Hsize]; [done|].
  rewrite (bool_decide_eq_false_2 (x :: xs = [])) by done.
  destruct (Z.eqb_spec batch_size 0) as [->|Hne].
  - done.
  - rewrite bool_decide_eq_false_2 by done.
    replace (batch_size <? 0)%Z with true by lia. done.
Qed.

Lemma execute_batch_unfold queries w :
  _execute_batch run queries w =
  match tx_run run queries (db w) w with
  | (Return view, w') =>
      (Return (Z.of_nat (length queries)),
       {| db := view; ran := ran w'; log := log w' |})
  | (Raise e, w') =>
      (Raise e,
       {| db := db w'; ran := ran w';
          log := log w' ++ [Error ("Batch execution failed: " +:+ str_exn e)] |})
  end.
Proof.
  unfold _execute_batch, try_except, bind, transaction.
  by destruct (tx_run run queries (db w) w) as [[view|e] w1].
Qed.

Lemma tx_run_sent queries view w0 :
  match tx_run run queries view w0 with
  | (Return _, w1) => ran w1 = ran w0 ++ queries
  | (Raise _, w1) => ∃ sent, sent `prefix_of` queries ∧ ran w1 = ran w0 ++ sent
  end.
Proof.
  revert view w0. induction queries as [|q rest IH]; intros view w0; cbn.
  - by rewrite app_nil_r.
  - destruct (run q view) as [[v rows]|e].
    + specialize (IH v {| db := db w0; ran := ran w0 ++ [q]; log := log w0 |}).
      destruct (tx_run run rest v _) as [[v'|e] w1]; cbn in IH.
      * by rewrite IH, <- app_assoc.
      * destruct IH as (sent & Hpre & ->). exists (q :: sent).
        split; [by apply prefix_cons|]. by rewrite <- app_assoc.
    + exists [q]. split; [|done]. by apply prefix_cons, prefix_nil.
Qed.

(** X15: [_execute_batch] is all or nothing. Either every statement ran,
    in order, and the call returns their number; or one of them failed,
    the call raises after logging one error line, the statements sent are
    a prefix of the list, and the database is exactly as before. *)
Theorem execute_batch_is_atomic queries w :
  let r := _execute_batch run queries w in
  (r.1 = Return (Z.of_nat (length queries))
   ∧ ran r.2 = ran w ++ queries ∧ log r.2 = log w)
  ∨ (∃ e sent,
       r.1 = Raise e ∧ db r.2 = db w
       ∧ sent `prefix_of` queries ∧ ran r.2 = ran w ++ sent
       ∧ log r.2 = log w ++ [Error ("Batch execution failed: " +:+ str_exn e)]).
Proof.
  cbn zeta. rewrite execute_batch_unfold.
  pose proof (tx_run_sent queries (db w) w) as Htx.
  pose proof (tx_run_keeps_db run queries (db w) w) as [Hdb Hlog].
  destruct (tx_run run queries (db w) w) as [[view|e] w1]; cbn in *.
  - left. by rewrite Hlog.
  - right. destruct Htx as (sent & Hpre & Hran). exists e, sent.
    by rewrite Hdb, Hlog.
Qed.
End WithDriver.

Lemma batch_merge_nodes_returns_item_count_witness :
  let r := batch_merge_nodes Scenario.neo4j "Customer"
             [Scenario.first_item; Scenario.later_item] 1 (new_world empty_db) in
  r.1 = Return 2%Z
  ∧ ∃ batches,
      concat batches = [Scenario.first_item; Scenario.later_item]
      ∧ Forall (fun b => 0 < length b ≤ 1) batches
      ∧ ran r.2 = batch_statement "Customer" <$> batches.
Proof.
  intros r. split; [reflexivity|].
  destruct (batch_merge_nodes_returns_item_count Scenario.neo4j "Customer"
              [Scenario.first_item; Scenario.later_item] 1 2 (new_world empty_db) r.2)
    as (_ & batches & Hcat & Hsizes & Hran); [lia|reflexivity|].
  exists batches. split; [exact Hcat|]. split; [exact Hsizes|exact Hran].
Defined.

Lemma batch_merge_nodes_without_batches_witness :
  let r := batch_merge_nodes Scenario.neo4j "Customer" [Scenario.first_item] (-5)
             (new_world empty_db) in
  ran r.2 = [] ∧ db r.2 = empty_db ∧ r.1 = Return 0%Z.
Proof.
  intros r.
  destruct (batch_merge_nodes_without_batches Scenario.neo4j "Customer"
              [Scenario.first_item] (-5) (new_world empty_db))
    as (Hran & Hdb & Hres); [right; lia|].
  split; [exact Hran|]. split; [exact Hdb|]. exact Hres.
Defined.
End LayerExtras.

(** * Further properties of linking, periods and metrics *)

Module GraphExtras.
Import Graph Layer LayerMore GraphMore LayerFacts StoreFacts.

(** ** Linking by foreign key *)

Lemma link_rows_complete dep fk_prop target ns i j p c fk :
  ns !! i = Some p → ns !! j = Some c →
  has_label dep p = true → prop p fk_prop = Some fk →
  matches target "guid" fk c = true →
  (j, i) ∈ link_rows dep fk_prop target ns.
Proof.
  intros Hp Hc Hlabel Hfk Hm. unfold link_rows.
  rewrite list_elem_of_In, in_flat_map. exists (i, p). split.
  - apply list_elem_of_In, elem_of_lookup_imap. by exists i, p.
  - rewrite Hlabel, Hfk. apply in_flat_map. exists (j, c). split.
    + apply list_elem_of_In, elem_of_lookup_imap. by exists j, c.
    + rewrite Hm. by left.
Qed.

Lemma merge_rel_mono rtype rs cp r : r ∈ rs → r ∈ merge_rel rtype rs cp.
Proof.
  intros Hr. unfold merge_rel. case_bool_decide; [done|].
  apply elem_of_app. by left.
Qed.

Lemma merge_rels_mono rtype rows rs r :
  r ∈ rs → r ∈ foldl (merge_rel rtype) rs rows.
Proof.
  revert rs. induction rows as [|cp rows IH]; intros rs Hr; [done|].
  cbn. by apply IH, merge_rel_mono.
Qed.

Lemma merge_rels_contains rtype rows rs cp :
  cp ∈ rows → link rtype cp ∈ foldl (merge_rel rtype) rs rows.
Proof.
  revert rs. induction rows as [|cp' rows IH]; intros rs Hin.
  - by apply elem_of_nil in Hin.
  - cbn. apply elem_of_cons in Hin as [->|Hin]; [|by apply IH].
    apply merge_rels_mono. unfold merge_rel. fold (link rtype cp').
    case_bool_decide; [done|]. apply elem_of_app. right. by apply list_elem_of_singleton.
Qed.

Lemma merge_rels_absorbed rtype rows rs :
  (∀ cp, cp ∈ rows → link rtype cp ∈ rs) → foldl (merge_rel rtype) rs rows = rs.
Proof.
  induction rows as [|cp rows IH]; intros Hall; [done|].
  cbn. unfold merge_rel at 2. fold (link rtype cp).
  rewrite bool_decide_eq_true_2 by (apply Hall, elem_of_cons; by left).
  apply IH. intros cp' Hin. apply Hall, elem_of_cons. by right.
Qed.

Lemma link_by_foreign_key_idem dep fk_prop target rtype d :
  link_by_foreign_key dep fk_prop target rtype
    (link_by_foreign_key dep fk_prop target rtype d).1
  = link_by_foreign_key dep fk_prop target rtype d.
Proof.
  unfold link_by_foreign_key. cbn. f_equal. f_equal.
  apply merge_rels_absorbed. intros cp Hin. by apply merge_rels_contains.
Qed.

Lemma link_by_foreign_key_complete dep fk_prop target rtype d :
  let d' := (link_by_foreign_key dep fk_prop target rtype d).1 in
  nodes d' = nodes d
  ∧ (∀ r, r ∈ rels d → r ∈ rels d')
  ∧ (∀ i j p c fk,
       nodes d !! i = Some p → nodes d !! j = Some c →
       has_label dep p = true → prop p fk_prop = Some fk →
       has_label target c = true → prop c "guid" = Some fk →
       link rtype (j, i) ∈ rels d').
Proof.
  cbn. split; [done|]. split.
  - intros r Hr. by apply merge_rels_mono.
  - intros i j p c fk Hp Hc Hlabel Hfk Htarget Hguid.
    apply merge_rels_contains. eapply link_rows_complete; try done.
    unfold matches. rewrite Htarget. cbn. by apply bool_decide_eq_true_2.
Qed.

Section Linking.
Variable now : value.
Variable period_aggregates : Db → nat → option (list (string * option value)).
Variable other : Driver.

Abbreviation drv := (neo4j now period_aggregates other).

(** X16: [create_customer_project_relationships], as it is shipped, never
    logs and never returns a count. Whatever the driver answers, it sends
    its statement once, the placeholders of the template standing
    unfilled in its text, and raises NameError for the name [Entity2] of
    its log lines; what the statement did to the database stays. *)
Theorem project_linking_raises_name_error (run : Driver) w :
  create_customer_project_relationships run w =
  (Raise (NameError "Entity2"),
   {| db := match run (Cypher project_query ∅) (db w) with
            | Return (d', _) => d'
            | Raise _ => db w
            end;
      ran := ran w ++ [Cypher project_query ∅];
      log := log w |}).
Proof.
  unfold create_customer_project_relationships, try_except, bind at 1, session_run.
  destruct (run (Cypher project_query ∅) (db w)) as [[d' rows]|e]; [|reflexivity].
  unfold bind at 1, single_count.
  destruct (head rows) as [record|]; [|reflexivity].
  case_bool_decide; [reflexivity|].
  destruct (record !! "count"); reflexivity.
Qed.

(** X17: after the contact, address or invoice linkage every dependent
    node whose [customerGuid] is the [guid] of a Customer node is linked
    from that customer; the nodes and the relationships that were there
    are kept. *)
Theorem linkage_links_every_pair (l : Linkage) w :
  let w' := (create_customer_relationships drv l w).2 in
  nodes (db w') = nodes (db w)
  ∧ (∀ r, r ∈ rels (db w) → r ∈ rels (db w'))
  ∧ (∀ i j p c fk,
       nodes (db w) !! i = Some p → nodes (db w) !! j = Some c →
       has_label (dependent l) p = true → prop p "customerGuid" = Some fk →
       has_label "Customer" c = true → prop c "guid" = Some fk →
       {| rel_type := relationship l; rel_src := j; rel_dst := i |}
         ∈ rels (db w')).
Proof.
  cbn zeta. rewrite create_customer_relationships_runs. cbn [snd db].
  apply (link_by_foreign_key_complete (dependent l) "customerGuid" "Customer"
           (relationship l) (db w)).
Qed.

Lemma create_customer_contact_relationships_runs w :
  let rows := link_rows "ContactPerson" "customerGuid" "Customer" (nodes (db w)) in
  create_customer_contact_relationships drv w =
  (Return (VInt (Z.of_nat (length rows))),
   {| db := {| nodes := nodes (db w);
               rels := foldl (merge_rel "HAS_CONTACT") (rels (db w)) rows |};
      ran := ran w ++ [LinkByForeignKey "ContactPerson" "customerGuid" "Customer" "HAS_CONTACT"];
      log := log w ++ [Info ("  Created " +:+ pretty (Z.of_nat (length rows))
                             +:+ " Customer→ContactPerson relationships")] |}).
Proof. reflexivity. Qed.

Lemma create_customer_address_relationships_runs w :
  let rows := link_rows "Address" "customerGuid" "Customer" (nodes (db w)) in
  create_customer_address_relationships drv w =
  (Return (VInt (Z.of_nat (length rows))),
   {| db := {| nodes := nodes (db w);
               rels := foldl (merge_rel "HAS_ADDRESS") (rels (db w)) rows |};
      ran := ran w ++ [LinkByForeignKey "Address" "customerGuid" "Customer" "HAS_ADDRESS"];
      log := log w ++ [Info ("  Created " +:+ pretty (Z.of_nat (length rows))
                             +:+ " Customer→Address relationships")] |}).
Proof. reflexivity. Qed.

Lemma create_customer_invoice_relationships_runs w :
  let rows := link_rows "Invoice" "customerGuid" "Customer" (nodes (db w)) in
  create_customer_invoice_relationships drv w =
  (Return (VInt (Z.of_nat (length rows))),
   {| db := {| nodes := nodes (db w);
               rels := foldl (merge_rel "HAS_INVOICE") (rels (db w)) rows |};
      ran := ran w ++ [LinkByForeignKey "Invoice" "customerGuid" "Customer" "HAS_INVOICE"];
      log := log w ++ [Info ("  Created " +:+ pretty (Z.of_nat (length rows))
                             +:+ " Customer→Invoice relationships")] |}).
Proof. reflexivity. Qed.

(** X18: the contact, address and invoice linking methods behave alike:
    a second run changes nothing and reports the same count. *)
Theorem other_linking_is_idempotent w :
  (let r1 := create_customer_contact_relationships drv w in
   let r2 := create_customer_contact_relationships drv r1.2 in
   r2.1 = r1.1 ∧ db r2.2 = db r1.2)
  ∧ (let r1 := create_customer_address_relationships drv w in
     let r2 := create_customer_address_relationships drv r1.2 in
     r2.1 = r1.1 ∧ db r2.2 = db r1.2)
  ∧ (let r1 := create_customer_invoice_relationships drv w in
     let r2 := create_customer_invoice_relationships drv r1.2 in
     r2.1 = r1.1 ∧ db r2.2 = db r1.2).
Proof.
  assert (Habs : ∀ rtype dep,
    foldl (merge_rel rtype)
      (foldl (merge_rel rtype) (rels (db w)) (link_rows dep "customerGuid" "Customer" (nodes (db w))))
      (link_rows dep "customerGuid" "Customer" (nodes (db w)))
    = foldl (merge_rel rtype) (rels (db w))
        (link_rows dep "customerGuid" "Customer" (nodes (db w)))).
  { intros rtype dep. apply merge_rels_absorbed.
    intros cp Hin. by apply merge_rels_contains. }
  cbn zeta.
  rewrite !create_customer_contact_relationships_runs,
    !create_customer_address_relationships_runs,
    !create_customer_invoice_relationships_runs.
  cbn. by rewrite !Habs.
Qed.

(** ** Year nodes *)

Lemma merge_year_step y ns :
  let ns' := merge_node "Year" "year" (VInt y) [("yearString", Some (VStr (pretty y)))] ns in
  has_year y ns' ∧ ∀ y', has_year y' ns → has_year y' ns'.
Proof.
  cbn zeta. unfold merge_node.
  destruct (existsb (matches "Year" "year" (VInt y)) ns) eqn:He.
  - apply existsb_exists in He as (n & Hin & Hm).
    apply list_elem_of_In, list_elem_of_lookup in Hin as [i Hi].
    assert (Hupd : ∀ m, matches "Year" "year" (VInt y) m = true →
      has_label "Year" (set_props [("yearString", Some (VStr (pretty y)))] m) = true
      ∧ prop (set_props [("yearString", Some (VStr (pretty y)))] m) "year" = Some (VInt y)
      ∧ prop (set_props [("yearString", Some (VStr (pretty y)))] m) "yearString"
        = Some (VStr (pretty y))).
    { intros m Hmm. apply andb_true_iff in Hmm as [Hl Hp].
      apply bool_decide_eq_true_1 in Hp.
      split; [exact Hl|]. split.
      - unfold prop in *. cbn. by rewrite lookup_insert_ne.
      - unfold prop. cbn. by rewrite lookup_insert_eq. }
    split.
    + exists i, (set_props [("yearString", Some (VStr (pretty y)))] n).
      split; [|by apply Hupd]. rewrite list_lookup_fmap, Hi. cbn. by rewrite Hm.
    + intros y' (i' & n' & Hi' & Hl' & Hy' & Hs').
      destruct (matches "Year" "year" (VInt y) n') eqn:Hm'.
      * assert (y' = y) as ->.
        { apply andb_true_iff in Hm' as [_ Hp]. apply bool_decide_eq_true_1 in Hp.
          congruence. }
        exists i', (set_props [("yearString", Some (VStr (pretty y)))] n').
        split; [|by apply Hupd]. rewrite list_lookup_fmap, Hi'. cbn. by rewrite Hm'.
      * exists i', n'. split; [|done]. rewrite list_lookup_fmap, Hi'. cbn. by rewrite Hm'.
  - split.
    + exists (length ns). eexists. split.
      * rewrite lookup_app_r by done. by rewrite Nat.sub_diag.
      * split; [|split].
        -- unfold has_label. cbn. apply bool_decide_eq_true_2. set_solver.
        -- unfold prop. cbn. by rewrite lookup_insert_ne.
        -- unfold prop. cbn. by rewrite lookup_insert_eq.
    + intros y' (i' & n' & Hi' & Hrest). exists i', n'. split; [|done].
      by apply lookup_app_l_Some.
Qed.

Lemma tx_run_years ys view w :
  ∃ view',
    tx_run drv (year_query <$> ys) view w =
      (Return view', {| db := db w; ran := ran w ++ (year_query <$> ys); log := log w |})
    ∧ rels view' = rels view
    ∧ (∀ y, y ∈ ys → has_year y (nodes view'))
    ∧ (∀ y, has_year y (nodes view) → has_year y (nodes view')).
Proof.
  revert view w. induction ys as [|y ys IH]; intros view w.
  - exists view. cbn. rewrite app_nil_r. destruct w. repeat split; try done.
    intros y Hy. by apply elem_of_nil in Hy.
  - cbn [fmap list_fmap tx_run]. unfold year_query at 1.
    cbn [neo4j merge_set to_prop eval_sets].
    destruct (merge_year_step y (nodes view)) as [Hnew Hold].
    set (view1 := {| nodes := merge_node "Year" "year" (VInt y)
                                [("yearString", Some (VStr (pretty y)))] (nodes view);
                     rels := rels view |}).
    destruct (IH view1 {| db := db w; ran := ran w ++ [year_query y]; log := log w |})
      as (view' & Htx & Hrels & Hys & Hkeep).
    exists view'. split; [|split; [|split]].
    + rewrite Htx. cbn. by rewrite <- app_assoc.
    + by rewrite Hrels.
    + intros y' Hy'. apply elem_of_cons in Hy' as [->|Hy'].
      * by apply Hkeep.
      * by apply Hys.
    + intros y' Hy'. by apply Hkeep, Hold.
Qed.

(** X19: [create_year_nodes] never fails on the store: it returns the
    number of years from [start_year] to [end_year] (0 when the range is
    empty), leaves the relationships alone, and afterwards the database
    holds, for every year of the range, a Year node with that [year] and
    its decimal [yearString]. *)
Theorem create_year_nodes_creates_every_year start_year end_year w :
  let r := create_year_nodes drv start_year end_year w in
  r.1 = Return (Z.max 0 (end_year - start_year + 1))
  ∧ rels (db r.2) = rels (db w)
  ∧ ∀ y, (start_year ≤ y ≤ end_year)%Z → has_year y (nodes (db r.2)).
Proof.
  cbn zeta. unfold create_year_nodes, bind.
  rewrite LayerExtras.execute_batch_unfold. unfold year_queries.
  destruct (tx_run_years (range_from start_year (end_year + 1)) (db w) w)
    as (view' & -> & Hrels & Hys & _).
  cbn. split; [|split; [done|]].
  - f_equal. unfold range_from. rewrite !length_fmap, length_seq. lia.
  - intros y Hy. apply Hys. unfold range_from.
    apply list_elem_of_fmap. exists (Z.to_nat (y - start_year)).
    split; [lia|]. apply elem_of_seq. lia.
Qed.
End Linking.

Lemma linkage_links_every_pair_witness :
  let w' := (create_customer_contact_relationships Scenario.neo4j
               (new_world ScenarioMore.with_gap)).2 in
  {| rel_type := "HAS_CONTACT"; rel_src := 0; rel_dst := 1 |} ∈ rels (db w').
Proof.
  intros w'.
  destruct (linkage_links_every_pair Scenario.clock Scenario.no_aggregates
              Scenario.unreachable Contact (new_world ScenarioMore.with_gap))
    as (_ & _ & Hlink).
  eapply (Hlink 1 0 _ _ (VStr "c-1")); reflexivity.
Defined.

Lemma create_year_nodes_creates_every_year_witness :
  let r := create_year_nodes Scenario.neo4j 2024 2025 (new_world empty_db) in
  r.1 = Return 2%Z ∧ has_year 2025 (nodes (db r.2)).
Proof.
  intros r.
  destruct (create_year_nodes_creates_every_year Scenario.clock Scenario.no_aggregates
              Scenario.unreachable 2024 2025 (new_world empty_db))
    as (Hcount & _ & Hyears).
  split; [exact Hcount|]. apply Hyears. lia.
Defined.
End GraphExtras.

(** * Further properties of the period nodes and the metrics *)

Module PeriodExtras.
Import Graph Layer LayerMore GraphMore LayerFacts StoreFacts.

Lemma elem_of_range_from a b x : x ∈ range_from a b ↔ (a ≤ x < b)%Z.
Proof.
  unfold range_from. rewrite list_elem_of_fmap. split.
  - intros (i & -> & Hi). apply elem_of_seq in Hi. lia.
  - intros Hx. exists (Z.to_nat (x - a)). split; [lia|]. apply elem_of_seq. lia.
Qed.

Lemma length_range_from a b : Z.of_nat (length (range_from a b)) = Z.max 0 (b - a).
Proof. unfold range_from. rewrite length_fmap, length_seq. lia. Qed.

Lemma length_bind_const {A B} (f : A → list B) k (l : list A) :
  (∀ x, length (f x) = k) → length (l ≫= f) = k * length l.
Proof.
  intros Hf. induction l as [|x l IH]; cbn; [lia|].
  rewrite length_app, Hf, IH. lia.
Qed.

(** X20: the statements of [create_month_nodes] refer only to quarters
    that [create_quarter_nodes] creates for the same range of years, and
    those refer only to years that [create_year_nodes] creates: each
    month's [quarter_id] and [year] are those of one quarter statement,
    whose [year] is that of one year statement. *)
Theorem months_refer_to_created_quarters start_year end_year q :
  q ∈ month_queries start_year end_year →
  ∃ q' y,
    q' ∈ quarter_queries start_year end_year
    ∧ year_query y ∈ year_queries start_year end_year
    ∧ statement_params q' !! "quarter_id" = statement_params q !! "quarter_id"
    ∧ statement_params q' !! "year" = statement_params q !! "year"
    ∧ statement_params q !! "year" = Some (PInt y).
Proof.
  unfold month_queries, quarter_queries, year_queries.
  intros Hq. apply list_elem_of_bind in Hq as (y & Hq & Hy).
  apply list_elem_of_fmap in Hq as (m & -> & Hm).
  apply elem_of_range_from in Hm.
  exists (quarter_query y ((m - 1) / 3 + 1)), y. split; [|split].
  - apply list_elem_of_bind. exists y. split; [|done].
    apply list_elem_of_fmap. eexists. split; [done|].
    apply elem_of_range_from.
    assert (0 ≤ (m - 1) / 3 < 4)%Z; [|lia].
    split; [apply Z.div_pos; lia|apply Z.div_lt_upper_bound; lia].
  - apply list_elem_of_fmap. by exists y.
  - unfold quarter_query, month_query. cbn [statement_params].
    split; [|split]; by simplify_map_eq.
Qed.

Section WithDriver.
Variable run : Driver.

(** X21: when [create_quarter_nodes] or [create_month_nodes] returns, it
    returns 4, respectively 12, times the number of years of the range
    and has sent exactly its statements; when it raises, the database is
    as before (the transaction is not committed). *)
Theorem quarter_and_month_nodes_count start_year end_year w :
  let years := Z.max 0 (end_year - start_year + 1) in
  (let r := create_quarter_nodes run start_year end_year w in
   match r.1 with
   | Return count =>
       count = (4 * years)%Z ∧ ran r.2 = ran w ++ quarter_queries start_year end_year
   | Raise _ => db r.2 = db w
   end)
  ∧ (let r := create_month_nodes run start_year end_year w in
     match r.1 with
     | Return count =>
         count = (12 * years)%Z ∧ ran r.2 = ran w ++ month_queries start_year end_year
     | Raise _ => db r.2 = db w
     end).
Proof.
  cbn zeta. unfold create_quarter_nodes, create_month_nodes, bind.
  pose proof (length_range_from start_year (end_year + 1)) as Hlen.
  rewrite !LayerExtras.execute_batch_unfold.
  split.
  - pose proof (LayerExtras.tx_run_sent run (quarter_queries start_year end_year)
                  (db w) w) as Htx.
    pose proof (tx_run_keeps_db run (quarter_queries start_year end_year) (db w) w)
      as [Hdb _].
    destruct (tx_run run (quarter_queries start_year end_year) (db w) w)
      as [[view|e] w1]; cbn in *; [|done].
    split; [|done].
    unfold quarter_queries. rewrite (length_bind_const _ 4); [lia|].
    intros x. by rewrite length_fmap.
  - pose proof (LayerExtras.tx_run_sent run (month_queries start_year end_year)
                  (db w) w) as Htx.
    pose proof (tx_run_keeps_db run (month_queries start_year end_year) (db w) w)
      as [Hdb _].
    destruct (tx_run run (month_queries start_year end_year) (db w) w)
      as [[view|e] w1]; cbn in *; [|done].
    split; [|done].
    unfold month_queries. rewrite (length_bind_const _ 12); [lia|].
    intros x. by rewrite length_fmap.
Qed.

Lemma calculate_period_metrics_db period_type periods w :
  periods ≠ Some [] →
  db (calculate_period_metrics run period_type periods w).2 =
  match run (PeriodMetrics (capitalize period_type) periods) (db w) with
  | Return (d', _) => d'
  | Raise _ => db w
  end.
Proof.
  intros Hperiods.
  destruct (calculate_period_metrics run period_type periods w) as [r w'] eqn:Hr.
  unfold calculate_period_metrics in Hr.
  destruct periods as [[|p ps]|]; [done| |];
    unfold try_except, bind, session_run, single_count in Hr;
    destruct (run _ (db w)) as [[d' rows]|e]; cbn in Hr.
  all: try (by injection Hr as <- <-).
  all: destruct (head rows) as [record|]; cbn in Hr;
    try case_bool_decide; cbn in Hr;
    try destruct (record !! "periodCount"); cbn in Hr;
    by injection Hr as <- <-.
Qed.

(** X22: the metric calculations never raise, whatever the driver does.
    When the statement fails they return 0, with the database as it was
    and the failure logged; when it succeeds the database is the
    driver's. *)
Theorem metrics_never_raise Entity period_type periods project_guids w :
  periods ≠ Some [] → project_guids ≠ Some [] →
  (let stmt := PeriodMetrics (capitalize period_type) periods in
   let r := calculate_period_metrics run period_type periods w in
   ran r.2 = ran w ++ [stmt]
   ∧ match run stmt (db w) with
     | Raise e =>
         r.1 = Return (VInt 0) ∧ db r.2 = db w
         ∧ log r.2 = log w ++ [Error ("Failed to calculate " +:+ period_type
                                      +:+ " metrics: " +:+ str_exn e);
                               DebugQuery stmt; DebugParams stmt]
     | Return (d', rows) => (∃ count, r.1 = Return count) ∧ db r.2 = d'
     end)
  ∧ (let stmt := EntityMetrics Entity project_guids in
     let r := calculate_project_metrics run Entity project_guids w in
     ran r.2 = ran w ++ [stmt]
     ∧ match run stmt (db w) with
       | Raise e =>
           r.1 = Return (VInt 0) ∧ db r.2 = db w
           ∧ log r.2 = log w ++ [Error ("Failed to calculate " +:+ Entity
                                        +:+ " metrics: " +:+ str_exn e);
                                 DebugQuery stmt; DebugParams stmt]
       | Return (d', rows) => (∃ count, r.1 = Return count) ∧ db r.2 = d'
       end).
Proof.
  intros Hperiods Hguids. cbn zeta. split.
  - destruct (calculate_period_metrics run period_type periods w) as [r w'] eqn:Hr.
    unfold calculate_period_metrics in Hr.
    destruct periods as [[|p ps]|]; [done| |];
      unfold try_except, bind, session_run, single_count in Hr;
      destruct (run _ (db w)) as [[d' rows]|e]; cbn in Hr.
    all: try (injection Hr as <- <-; cbn; by rewrite <- !app_assoc).
    all: destruct (head rows) as [record|]; cbn in Hr;
      try case_bool_decide; cbn in Hr;
      try destruct (record !! "periodCount"); cbn in Hr;
      injection Hr as <- <-; cbn; split; try done; split; try done; by eexists.
  - destruct (calculate_project_metrics run Entity project_guids w) as [r w'] eqn:Hr.
    unfold calculate_project_metrics in Hr.
    destruct project_guids as [[|p ps]|]; [done| |];
      unfold try_except, bind, session_run, single_count in Hr;
      destruct (run _ (db w)) as [[d' rows]|e]; cbn in Hr.
    all: try (injection Hr as <- <-; cbn; by rewrite <- !app_assoc).
    all: destruct (head rows) as [record|]; cbn in Hr;
      try case_bool_decide; cbn in Hr;
      try destruct (record !! "projectsUpdated"); cbn in Hr;
      injection Hr as <- <-; cbn; split; try done; split; try done; by eexists.
Qed.
End WithDriver.

Section Subset.
Variable now : value.
Variable period_aggregates : Db → nat → option (list (string * option value)).
Variable other : Driver.

Abbreviation drv := (neo4j now period_aggregates other).

Lemma period_updates_frame label periods d i ns ns' :
  period_updates now period_aggregates label periods d i ns = Some ns' →
  length ns' = length ns
  ∧ ∀ j n, ns !! j = Some n → period_target label periods n = false →
           ns' !! j = Some n.
Proof.
  revert i ns'. induction ns as [|n rest IH]; intros i ns' Hupd; cbn in Hupd.
  - injection Hupd as <-. split; [done|]. intros j n Hj. by rewrite lookup_nil in Hj.
  - destruct (period_updates now period_aggregates label periods d (S i) rest)
      as [rest'|] eqn:Hrest; [|done].
    destruct (IH _ _ Hrest) as [Hlen Hkeep].
    destruct (period_target label periods n) eqn:Htarget.
    + destruct (period_aggregates d i) as [bag|]; [|done].
      injection Hupd as <-. cbn. split; [by rewrite Hlen|].
      intros [|j] m Hj Hm; cbn in *; [congruence|by apply Hkeep].
    + injection Hupd as <-. cbn. split; [by rewrite Hlen|].
      intros [|j] m Hj Hm; cbn in *; [done|by apply Hkeep].
Qed.

(** X23: [calculate_period_metrics] with a list of period ids touches
    only the nodes of the period label whose [id] is in the list: every
    other node is unchanged, no node is added or removed and the
    relationships stay, whether or not the statement succeeds. *)
Theorem calculate_period_metrics_only_listed period_type ids w :
  let w' := (calculate_period_metrics drv period_type (Some ids) w).2 in
  rels (db w') = rels (db w)
  ∧ length (nodes (db w')) = length (nodes (db w))
  ∧ ∀ j n, nodes (db w) !! j = Some n →
      has_label (capitalize period_type) n = false
      ∨ (∀ x, prop n "id" = Some (VStr x) → x ∉ ids) →
      nodes (db w') !! j = Some n.
Proof.
  cbn zeta. destruct ids as [|x xs]; [done|].
  rewrite calculate_period_metrics_db by done. cbn [neo4j]. unfold period_metrics.
  destruct (period_updates now period_aggregates (capitalize period_type)
              (Some (x :: xs)) (db w) 0 (nodes (db w))) as [ns'|] eqn:Hupd; [|done].
  destruct (period_updates_frame _ _ _ _ _ _ Hupd) as [Hlen Hkeep].
  cbn. split; [done|]. split; [done|].
  intros j n Hj Hn. apply Hkeep; [done|]. unfold period_target.
  destruct Hn as [->|Hn]; [done|].
  destruct (prop n "id") as [[| |s]|]; try by rewrite andb_false_r.
  rewrite bool_decide_eq_false_2; [by rewrite andb_false_r|]. by apply Hn.
Qed.
End Subset.

Lemma months_refer_to_created_quarters_witness :
  ∃ q' y,
    q' ∈ quarter_queries 2025 2025
    ∧ year_query y ∈ year_queries 2025 2025
    ∧ statement_params q' !! "quarter_id" = Some (PStr (quarter_id 2025 2))
    ∧ statement_params q' !! "year" = Some (PInt 2025)
    ∧ Some (PInt 2025) = Some (PInt y).
Proof.
  destruct (months_refer_to_created_quarters 2025 2025 (month_query 2025 5))
    as (q' & y & Hq' & Hy & Hid & Hyear & Hyy).
  - apply list_elem_of_bind. exists 2025%Z. split.
    + apply list_elem_of_fmap. exists 5%Z. split; [reflexivity|].
      apply elem_of_range_from. lia.
    + apply elem_of_range_from. lia.
  - exists q', y. split; [exact Hq'|]. split; [exact Hy|].
    split; [exact Hid|]. split; [exact Hyear|exact Hyy].
Defined.

Lemma metrics_never_raise_witness :
  (calculate_period_metrics Scenario.unreachable "month" None (new_world empty_db)).1
    = Return (VInt 0)
  ∧ (calculate_project_metrics Scenario.unreachable "Project" None (new_world empty_db)).1
    = Return (VInt 0).
Proof.
  destruct (metrics_never_raise Scenario.unreachable "Project" "month" None None
              (new_world empty_db)) as [(_ & Hp & _) (_ & He & _)];
    [discriminate|discriminate|].
  split; [exact Hp|exact He].
Defined.

Lemma calculate_period_metrics_only_listed_witness :
  let w' := (calculate_period_metrics Scenario.neo4j "month" (Some ["2025-02"])
               (new_world Scenario.month_db)).2 in
  nodes (db w') !! 0 = Some Scenario.month_node.
Proof.
  intros w'.
  destruct (calculate_period_metrics_only_listed Scenario.clock Scenario.no_aggregates
              Scenario.unreachable "month" ["2025-02"] (new_world Scenario.month_db))
    as (_ & _ & Hkeep).
  apply Hkeep; [reflexivity|]. right. intros x Hx.
  change (Some (VStr "2025-01") = Some (VStr x)) in Hx. injection Hx as <-.
  rewrite not_elem_of_cons. split; [discriminate|apply not_elem_of_nil].
Defined.
End PeriodExtras.

(** * Further properties of the orchestrator *)

Module OrchestratorExtras.
Import Orchestrator OrchestratorMore.

Section WithCollaborators.
Variable srv : Client.Server.
Variable sync_config : SyncConfig.
Variables _create_indexes _sync_reference_data _sync_core_entities
          _sync_transactional_data _create_relationships
          _calculate_metrics _create_analytics : M State unit.

Abbreviation full_sync :=
  (run_full_sync srv sync_config _create_indexes _sync_reference_data
     _sync_core_entities _sync_transactional_data _create_relationships
     _calculate_metrics _create_analytics).

Lemma run_full_sync_result create_indexes dry_run s :
  let r := full_sync create_indexes dry_run s in
  r.1 = Return true ∨ r.1 = Return false.
Proof.
  cbn zeta. unfold run_full_sync, try_finally.
  destruct (try_except _ _ _ s) as [r s'] eqn:Hbody.
  unfold _close_connections, modify. cbn.
  unfold try_except in Hbody.
  match type of Hbody with
  | (let (_, _) := ?body s in _) = _ => destruct (body s) as [[[]|e] s1]
  end; cbn in Hbody; injection Hbody as <- _; auto.
Qed.

Abbreviation the_steps :=
  (guarded_steps sync_config _create_indexes _sync_reference_data
     _sync_core_entities _sync_transactional_data _create_relationships
     _calculate_metrics _create_analytics).

(** [run_full_sync] is authentication, the walk through its guarded
    steps, the summary when every step went through, and the closing of
    the connection in every case. *)
Lemma run_full_sync_walk create_indexes dry_run s :
  full_sync create_indexes dry_run s =
  match _authenticate srv s with
  | (Return true, s1) =>
      match walk (the_steps create_indexes dry_run) s1 with
      | (None, s2) => (Return true, (_close_connections (_print_summary s2).2).2)
      | (Some _, s2) => (Return false, (_close_connections s2).2)
      end
  | (_, s1) => (Return false, (_close_connections s1).2)
  end.
Proof.
  unfold run_full_sync, try_finally, try_except, _authenticate, api_authenticate,
    Client.authenticate, _print_summary, _close_connections, guarded_steps.
  destruct create_indexes, dry_run, (enable_metrics sync_config),
    (enable_analytics sync_config);
    unfold step_if, bind, enter, modify, ret; cbn;
    destruct (Client.on_auth srv (Client.auth_calls (api s))); cbn; try reflexivity.
  all: repeat match goal with
       | |- context [match ?h ?st with _ => _ end] =>
           lazymatch type of (h st) with
           | (result unit * State)%type => destruct (h st) as [[[]|?] ?]; cbn
           end
       end; reflexivity.
Qed.

(** X24: [run_full_sync] never raises and always closes the connection,
    whatever the step methods do and whatever the token endpoint
    answers. Its result is True when the token is granted and no step
    that is run raises; every exception of a step, a refused token and a
    malformed token response end in the result False. *)
Theorem run_full_sync_never_raises create_indexes dry_run s :
  let r := run_full_sync srv sync_config _create_indexes _sync_reference_data
             _sync_core_entities _sync_transactional_data _create_relationships
             _calculate_metrics _create_analytics create_indexes dry_run s in
  connected r.2 = false
  ∧ r.1 = match _authenticate srv s with
          | (Return true, s1) =>
              match (walk (guarded_steps sync_config _create_indexes
                            _sync_reference_data _sync_core_entities
                            _sync_transactional_data _create_relationships
                            _calculate_metrics _create_analytics
                            create_indexes dry_run) s1).1 with
              | None => Return true
              | Some _ => Return false
              end
          | _ => Return false
          end.
Proof.
  cbn zeta. rewrite run_full_sync_walk.
  destruct (_authenticate srv s) as [[[]|e] s1]; [|done|done].
  by destruct (walk _ s1) as [[e|] s2].
Qed.

(** The step methods cannot touch the record of the steps entered, which
    is kept beside the program's state. *)
Hypothesis create_indexes_entered : ∀ s, entered (_create_indexes s).2 = entered s.
Hypothesis sync_reference_data_entered : ∀ s, entered (_sync_reference_data s).2 = entered s.
Hypothesis sync_core_entities_entered : ∀ s, entered (_sync_core_entities s).2 = entered s.
Hypothesis sync_transactional_data_entered :
  ∀ s, entered (_sync_transactional_data s).2 = entered s.
Hypothesis create_relationships_entered : ∀ s, entered (_create_relationships s).2 = entered s.
Hypothesis calculate_metrics_entered : ∀ s, entered (_calculate_metrics s).2 = entered s.
Hypothesis create_analytics_entered : ∀ s, entered (_create_analytics s).2 = entered s.

Ltac run_hook h H :=
  match goal with
  | |- context [h ?s] =>
      let He := fresh "He" in
      pose proof (H s) as He;
      destruct (h s) as [[[]|?] ?]; cbn in He; cbn
  end.

(** X25: [run_full_sync] goes through its steps in the order of its
    docstring: after a granted token the state it ends in is that of the
    walk through the guarded steps (each entered and run under its guard,
    from the state the one before left, up to the first that raises),
    followed by the summary when no step raised, with the connection
    closed; after a failed authentication it is the state authentication
    left, closed. So the steps entered are a prefix of the plan, and the
    result is True exactly when the whole plan, SUMMARY included, was
    entered. *)
Theorem run_full_sync_follows_the_plan create_indexes dry_run s :
  let r := run_full_sync srv sync_config _create_indexes _sync_reference_data
             _sync_core_entities _sync_transactional_data _create_relationships
             _calculate_metrics _create_analytics create_indexes dry_run s in
  let plan := planned_stages sync_config create_indexes dry_run in
  r.2 = (_close_connections
           match _authenticate srv s with
           | (Return true, s1) =>
               match walk (guarded_steps sync_config _create_indexes
                             _sync_reference_data _sync_core_entities
                             _sync_transactional_data _create_relationships
                             _calculate_metrics _create_analytics
                             create_indexes dry_run) s1 with
               | (None, s2) => (_print_summary s2).2
               | (Some _, s2) => s2
               end
           | (_, s1) => s1
           end).2
  ∧ ∃ done,
      done `prefix_of` plan
      ∧ entered r.2 = entered s ++ done
      ∧ r.1 = Return (bool_decide (done = plan)).
Proof using All.
  cbn zeta. split.
  { rewrite run_full_sync_walk.
    destruct (_authenticate srv s) as [[[]|e] s1]; [|done|done].
    by destruct (walk _ s1) as [[e|] s2]. }
  unfold run_full_sync, try_finally, try_except, _authenticate, api_authenticate,
    Client.authenticate, _print_summary, _close_connections, planned_stages.
  destruct create_indexes, dry_run, (enable_metrics sync_config),
    (enable_analytics sync_config);
    unfold step_if, bind, enter, modify, ret; cbn;
    destruct (Client.on_auth srv (Client.auth_calls (api s))); cbn.
  all: try run_hook _create_indexes create_indexes_entered.
  all: try run_hook _sync_reference_data sync_reference_data_entered.
  all: try run_hook _sync_core_entities sync_core_entities_entered.
  all: try run_hook _sync_transactional_data sync_transactional_data_entered.
  all: try run_hook _create_relationships create_relationships_entered.
  all: try run_hook _calculate_metrics calculate_metrics_entered.
  all: try run_hook _create_analytics create_analytics_entered.
  all: refine (ex_intro _ _ (conj _ (conj _ _)));
    [ |repeat match goal with H : entered _ = _ |- _ => rewrite H; clear H end;
       rewrite <- ?app_assoc; reflexivity| ].
  all: try (eexists; reflexivity).
  all: reflexivity.
Qed.
End WithCollaborators.

Lemma run_full_sync_follows_the_plan_witness :
  let cfg := {| enable_metrics := true; enable_analytics := false |} in
  let r := run_full_sync Scenario.srv_401_200 cfg
             template_step template_step template_step template_step
             template_step template_step template_step
             true false (new_state Graph.empty_db) in
  r.1 = Return true
  ∧ entered r.2 = [AUTH; INDEX; REFERENCE; CORE_ENTITIES; TRANSACTIONAL;
                   RELATIONSHIPS; METRICS; SUMMARY]
  ∧ connected r.2 = false.
Proof.
  intros cfg r. subst r.
  destruct (run_full_sync_follows_the_plan Scenario.srv_401_200 cfg
              template_step template_step template_step template_step
              template_step template_step template_step
              ltac:(reflexivity) ltac:(reflexivity) ltac:(reflexivity)
              ltac:(reflexivity) ltac:(reflexivity) ltac:(reflexivity)
              ltac:(reflexivity) true false (new_state Graph.empty_db))
    as [Hstate (done & _ & Hentered & Hresult)].
  assert (Hdone : done = entered (run_full_sync Scenario.srv_401_200 cfg
             template_step template_step template_step template_step
             template_step template_step template_step
             true false (new_state Graph.empty_db)).2) by (symmetry; exact Hentered).
  rewrite Hdone in Hresult.
  split; [exact Hresult|]. rewrite Hstate. split; reflexivity.
Defined.
End OrchestratorExtras.

(** * Properties of the configuration and of the command line *)

Module CliExtras.
Import Orchestrator Cli OrchestratorExtras.

Lemma eqb_empty_false s : String.eqb s "" = false ↔ s ≠ "".
Proof. by rewrite String.eqb_neq. Qed.

Lemma api_validate_cases API_NAME (a : APIConfig.t) :
  APIConfig.validate API_NAME a = Return true
  ∨ ∃ msg, APIConfig.validate API_NAME a = Raise (ValueError msg).
Proof.
  unfold APIConfig.validate.
  destruct (String.eqb (APIConfig.api_url a) ""); [right; by eexists|].
  destruct (negb _); [right; by eexists|by left].
Qed.

Lemma neo4j_validate_cases (n : Neo4jConfig.t) :
  Neo4jConfig.validate n = Return true
  ∨ ∃ msg, Neo4jConfig.validate n = Raise (ValueError msg).
Proof.
  unfold Neo4jConfig.validate.
  destruct (String.eqb (Neo4jConfig.uri n) ""); [right; by eexists|].
  destruct (String.eqb (Neo4jConfig.username n) ""); [right; by eexists|].
  destruct (String.eqb (Neo4jConfig.password n) ""); [right; by eexists|by left].
Qed.

(** X26: [validate] of either configuration never returns False: it
    returns True or raises ValueError. The API configuration is valid
    exactly when the URL is non-empty and either both OAuth credentials
    or the API key are non-empty (an empty key counts as no key); the
    Neo4j configuration exactly when URI, user name and password are
    non-empty. *)
Theorem validate_accepts_exactly_complete_configurations API_NAME
    (a : APIConfig.t) (n : Neo4jConfig.t) :
  (APIConfig.validate API_NAME a = Return true
   ∨ ∃ msg, APIConfig.validate API_NAME a = Raise (ValueError msg))
  ∧ (APIConfig.validate API_NAME a = Return true ↔
       APIConfig.api_url a ≠ ""
       ∧ ((APIConfig.client_id a ≠ "" ∧ APIConfig.client_secret a ≠ "")
          ∨ ∃ k, APIConfig.api_key a = Some k ∧ k ≠ ""))
  ∧ (Neo4jConfig.validate n = Return true
     ∨ ∃ msg, Neo4jConfig.validate n = Raise (ValueError msg))
  ∧ (Neo4jConfig.validate n = Return true ↔
       Neo4jConfig.uri n ≠ "" ∧ Neo4jConfig.username n ≠ ""
       ∧ Neo4jConfig.password n ≠ "").
Proof.
  split; [apply api_validate_cases|]. split; [|split; [apply neo4j_validate_cases|]].
  all: unfold APIConfig.validate, APIConfig.has_oauth, APIConfig.has_api_key,
    Neo4jConfig.validate;
    destruct a as [url id secret key], n as [uri user pw dbname]; cbn.
  - split.
    + destruct (String.eqb_spec url ""); [done|].
      destruct (String.eqb_spec id ""), (String.eqb_spec secret ""); cbn;
        try (intros _; split; [done|]; by left);
        destruct key as [k|]; cbn; try done;
        destruct (String.eqb_spec k ""); cbn; try done;
        intros _; (split; [done|]); right; by exists k.
    + intros [Hurl Hauth]. destruct (String.eqb_spec url ""); [done|].
      destruct Hauth as [[Hid Hsecret]|(k & -> & Hk)].
      * destruct (String.eqb_spec id ""); [done|].
        by destruct (String.eqb_spec secret "").
      * destruct (String.eqb_spec k ""); [done|]. cbn. by rewrite orb_true_r.
  - split.
    + destruct (String.eqb_spec uri ""); [done|].
      destruct (String.eqb_spec user ""); [done|].
      by destruct (String.eqb_spec pw "").
    + intros (Huri & Huser & Hpw).
      destruct (String.eqb_spec uri ""); [done|].
      destruct (String.eqb_spec user ""); [done|].
      by destruct (String.eqb_spec pw "").
Qed.

Section WithCollaborators.
Variable run : Graph.Driver.
Variable srv : Client.Server.
Variable sync_config : SyncConfig.
Variable API_NAME : string.
Variables _create_indexes _sync_reference_data _sync_core_entities
          _sync_transactional_data _create_relationships
          _calculate_metrics _create_analytics : M State unit.

Abbreviation the_main :=
  (main run srv sync_config API_NAME _create_indexes _sync_reference_data
     _sync_core_entities _sync_transactional_data _create_relationships
     _calculate_metrics _create_analytics).

Abbreviation full_sync :=
  (run_full_sync srv sync_config _create_indexes _sync_reference_data
     _sync_core_entities _sync_transactional_data _create_relationships
     _calculate_metrics _create_analytics).

Lemma init_outcome api_config neo4j_config s :
  let test := Graph.Cypher "RETURN 1 as test" ∅ in
  let r := init run API_NAME api_config neo4j_config s in
  connected r.2 = true ∧ entered r.2 = entered s ∧ api r.2 = api s
  ∧ Layer.ran (store r.2) = Layer.ran (store s) ++ [test]
  ∧ (r.1 = Return tt ↔
       (∃ out, run test (Layer.db (store s)) = Return out)
       ∧ APIConfig.validate API_NAME api_config = Return true
       ∧ Neo4jConfig.validate neo4j_config = Return true).
Proof.
  cbn zeta. unfold init, connect, bind, on_store, modify, lift_result, ret,
    Layer.logger, Layer.session_run. cbn.
  destruct (run _ (Layer.db (store s))) as [[d rows]|e]; cbn.
  - destruct (api_validate_cases API_NAME api_config) as [->|[m1 ->]]; cbn;
      destruct (neo4j_validate_cases neo4j_config) as [->|[m2 ->]]; cbn;
      repeat split; try done; try (intros (_ & ? & ?); done); by eexists.
  - repeat split; try done. by intros ([] & _).
Qed.

(** X27: the exit code of [main] is 0 or 1, and it is 0 exactly when the
    mode is full, the orchestrator could be built (the connection test
    and both validations passed) and [run_full_sync] returned True. *)
Theorem main_exit_code api_config neo4j_config mode skip_indexes dry_run s :
  let r := the_main api_config neo4j_config mode skip_indexes dry_run s in
  let built := init run API_NAME api_config neo4j_config s in
  (r.1 = Return 0%Z ∨ r.1 = Return 1%Z)
  ∧ (r.1 = Return 0%Z ↔
       mode = full ∧ built.1 = Return tt
       ∧ (full_sync (negb skip_indexes) dry_run built.2).1 = Return true).
Proof.
  cbn zeta.
  destruct (the_main api_config neo4j_config mode skip_indexes dry_run s)
    as [r sf] eqn:Hmain.
  unfold main, try_except, bind in Hmain.
  destruct (init run API_NAME api_config neo4j_config s) as [[[]|e] s1]; cbn in *.
  - destruct mode.
    + pose proof (run_full_sync_result srv sync_config
                    _create_indexes _sync_reference_data _sync_core_entities
                    _sync_transactional_data _create_relationships
                    _calculate_metrics _create_analytics (negb skip_indexes) dry_run s1)
        as Hres.
      destruct (full_sync (negb skip_indexes) dry_run s1) as [[[]|e] s2];
        cbn in *; injection Hmain as <- <-.
      * split; [by left|]. split; [intros _; by repeat split|done].
      * split; [by right|]. split; [done|]. by intros (_ & _ & ?).
      * by destruct Hres.
    + injection Hmain as <- <-. split; [by right|]. split; [done|]. by intros (? & _).
  - injection Hmain as <- <-. split; [by right|]. split; [done|]. by intros (_ & ? & _).
Qed.

(** X28: the configuration is validated only after the connection has
    been opened and tested. When the connection test passes and a
    configuration is invalid, [main] has sent RETURN 1 to the store,
    exits with 1 without calling the token endpoint or entering any
    step, and leaves the driver open: nothing closes it. *)
Theorem invalid_configuration_is_found_after_connecting
    api_config neo4j_config mode skip_indexes dry_run s out :
  run (Graph.Cypher "RETURN 1 as test" ∅) (Layer.db (store s)) = Return out →
  APIConfig.validate API_NAME api_config ≠ Return true
  ∨ Neo4jConfig.validate neo4j_config ≠ Return true →
  let r := the_main api_config neo4j_config mode skip_indexes dry_run s in
  r.1 = Return 1%Z
  ∧ Layer.ran (store r.2) = Layer.ran (store s) ++ [Graph.Cypher "RETURN 1 as test" ∅]
  ∧ connected r.2 = true
  ∧ entered r.2 = entered s
  ∧ api r.2 = api s.
Proof.
  intros Htest Hinvalid. cbn zeta.
  destruct (init_outcome api_config neo4j_config s)
    as (Hconn & Hent & Hapi & Hran & Hret).
  destruct (the_main api_config neo4j_config mode skip_indexes dry_run s)
    as [r sf] eqn:Hmain.
  unfold main, try_except, bind in Hmain.
  destruct (init run API_NAME api_config neo4j_config s) as [[[]|e] s1]; cbn in *.
  - destruct Hret as [Hret _]. destruct (Hret eq_refl) as (_ & Ha & Hn).
    by destruct Hinvalid.
  - by injection Hmain as <- <-.
Qed.
End WithCollaborators.

Lemma invalid_configuration_is_found_after_connecting_witness :
  let api_config := {| APIConfig.api_url := "https://api.example.com/v1";
                       APIConfig.client_id := ""; APIConfig.client_secret := "";
                       APIConfig.api_key := Some "" |} in
  let neo4j_config := {| Neo4jConfig.uri := "bolt://localhost:7687";
                         Neo4jConfig.username := "neo4j";
                         Neo4jConfig.password := "secret";
                         Neo4jConfig.database := "neo4j" |} in
  let r := main ScenarioMore.accepting Scenario.srv_401_200
             {| enable_metrics := true; enable_analytics := true |} "ACME"
             template_step template_step template_step template_step
             template_step template_step template_step
             api_config neo4j_config full false false (fresh_state Graph.empty_db) in
  r.1 = Return 1%Z ∧ connected r.2 = true ∧ entered r.2 = [].
Proof.
  intros api_config neo4j_config r.
  destruct (invalid_configuration_is_found_after_connecting ScenarioMore.accepting
              Scenario.srv_401_200 {| enable_metrics := true; enable_analytics := true |}
              "ACME" template_step template_step template_step template_step
              template_step template_step template_step
              api_config neo4j_config full false false (fresh_state Graph.empty_db)
              (Graph.empty_db, []))
    as (Hcode & _ & Hconn & Hent & _).
  - reflexivity.
  - left. discriminate.
  - split; [exact Hcode|]. split; [exact Hconn|exact Hent].
Defined.
End CliExtras.

(** * Properties of the index migration *)

Module MigrationExtras.
Import Migration.

Lemma stats_eq (a b : Stats) :
  indexes_created a = indexes_created b →
  constraints_created a = constraints_created b →
  errors a = errors b → a = b.
Proof. destruct a, b. cbn. by intros -> -> ->. Qed.

Lemma constraint_count_app qs1 qs2 :
  constraint_count (qs1 ++ qs2) = (constraint_count qs1 + constraint_count qs2)%Z.
Proof. unfold constraint_count. rewrite filter_app, length_app. lia. Qed.

Lemma index_count_app qs1 qs2 :
  index_count (qs1 ++ qs2) = (index_count qs1 + index_count qs2)%Z.
Proof. unfold index_count. rewrite filter_app, length_app. lia. Qed.

Lemma constraint_count_nonneg qs : (0 ≤ constraint_count qs)%Z.
Proof. unfold constraint_count. lia. Qed.

Lemma index_count_nonneg qs : (0 ≤ index_count qs)%Z.
Proof. unfold index_count. lia. Qed.

Section WithSchema.
Variable exec : Schema.
Variable Entity3 Entity4 : string.

Lemma sends_nil s s' :
  dry_run s' = dry_run s → sent s' = sent s → stats s' = stats s →
  sends exec [] s s'.
Proof.
  intros Hdry Hsent Hstats. unfold sends. rewrite Hdry, Hsent, Hstats.
  change (constraint_count []) with 0%Z. change (index_count []) with 0%Z.
  repeat split; try lia.
  - destruct (dry_run s); by rewrite app_nil_r.
  - intros _ _. apply stats_eq; cbn; try lia. done.
Qed.

Lemma sends_app qs1 qs2 s s1 s2 :
  sends exec qs1 s s1 → sends exec qs2 s1 s2 → sends exec (qs1 ++ qs2) s s2.
Proof.
  intros (Hd1 & Hs1 & Hk1 & Hc1 & Hi1 & Ha1) (Hd2 & Hs2 & Hk2 & Hc2 & Hi2 & Ha2).
  pose proof (constraint_count_nonneg qs1). pose proof (constraint_count_nonneg qs2).
  pose proof (index_count_nonneg qs1). pose proof (index_count_nonneg qs2).
  unfold sends. rewrite constraint_count_app, index_count_app.
  rewrite Hd1 in *.
  split; [done|]. split; [|split; [|split; [|split]]].
  - rewrite Hs2, Hs1. destruct (dry_run s); by rewrite <- ?app_assoc.
  - intros Hdry. by rewrite Hk2, Hk1.
  - lia.
  - lia.
  - intros Hdry Hacc.
    rewrite Ha2; [rewrite Ha1|done|]; [|done| |].
    + apply stats_eq; cbn; try lia. done.
    + intros h q Hq. apply Hacc, elem_of_app. by left.
    + intros h q Hq. apply Hacc, elem_of_app. by right.
Qed.

Lemma execute_migration_sends query description s :
  ∃ s', _execute_migration exec query description s = (Return tt, s')
        ∧ sends exec [query] s s'.
Proof.
  unfold _execute_migration. destruct (dry_run s) eqn:Hdry.
  - eexists. split; [reflexivity|]. unfold sends. cbn. rewrite Hdry.
    pose proof (constraint_count_nonneg [query]).
    pose proof (index_count_nonneg [query]).
    repeat split; try done; try lia. by rewrite app_nil_r.
  - unfold try_except, bind, session_run, logger, modify.
    assert (Hcount : (constraint_count [query], index_count [query]) =
                     if contains "CONSTRAINT" query then (1, 0)%Z else (0, 1)%Z).
    { unfold constraint_count, index_count. cbn.
      destruct (contains "CONSTRAINT" query) eqn:Hc.
      - rewrite decide_True by done. rewrite decide_False by done. done.
      - rewrite decide_False by done. rewrite decide_True by done. done. }
    destruct (exec (sent s) query) as [rows|e] eqn:Hexec; cbn.
    + destruct (contains "CONSTRAINT" query); injection Hcount as Hc Hi;
        eexists; (split; [reflexivity|]); unfold sends; cbn; rewrite Hdry, Hc, Hi;
        repeat split; try done; try lia; intros _ _; apply stats_eq; cbn; try lia; done.
    + assert (Hcases : (0 ≤ constraint_count [query])%Z ∧ (0 ≤ index_count [query])%Z).
      { split; [apply constraint_count_nonneg|apply index_count_nonneg]. }
      destruct (contains "already exists" _ || contains "equivalent" _); cbn;
        eexists; (split; [reflexivity|]); unfold sends; cbn; rewrite Hdry;
        repeat split; try done; try lia.
      all: intros _ Hacc; destruct (Hacc (sent s) query) as [rows Hrows];
        [apply elem_of_cons; by left|congruence].
Qed.

Lemma for_each_sends {A} (l : list A) (body : A → M State unit)
    (query description : A → string) s :
  (∀ x s0, body x s0 = _execute_migration exec (query x) (description x) s0) →
  ∃ s', for_each l body s = (Return tt, s') ∧ sends exec (query <$> l) s s'.
Proof.
  intros Hbody. revert s. induction l as [|x l IH]; intros s.
  - exists s. split; [done|]. by apply sends_nil.
  - cbn [for_each]. unfold bind. rewrite Hbody.
    destruct (execute_migration_sends (query x) (description x) s) as (s1 & -> & H1).
    destruct (IH s1) as (s2 & -> & H2).
    exists s2. split; [done|]. rewrite fmap_cons.
    change (query x :: (query <$> l)) with ([query x] ++ (query <$> l)).
    by eapply sends_app.
Qed.

Lemma logger_sends l s : sends exec [] s (logger l s).2.
Proof. by apply sends_nil. Qed.

Lemma create_steps_send s :
  ∃ s',
    (_create_unique_constraints exec Entity3 Entity4 ;;;
     _create_property_indexes exec ;;;
     _create_composite_indexes exec ;;;
     _create_fulltext_indexes exec) s = (Return tt, s')
    ∧ sends exec (statements Entity3 Entity4) s s'.
Proof.
  unfold _create_unique_constraints, _create_property_indexes,
    _create_composite_indexes, _create_fulltext_indexes, statements.
  unfold bind at 1 2. cbn [logger modify].
  match goal with |- context [for_each (constraints _ _) ?b ?s0] =>
    destruct (for_each_sends (constraints Entity3 Entity4) b
                (fun '(label, property_name) => constraint_query label property_name)
                (fun '(label, property_name) => "UNIQUE " +:+ label +:+ "." +:+ property_name)
                s0) as (s1 & -> & H1); [by intros [??] ?|]
  end.
  unfold bind at 1 2. cbn [logger modify].
  match goal with |- context [for_each indexes ?b ?s0] =>
    destruct (for_each_sends indexes b
                (fun '(label, property_name) => index_query label property_name)
                (fun '(label, property_name) => "INDEX " +:+ label +:+ "." +:+ property_name)
                s0) as (s2 & -> & H2); [by intros [??] ?|]
  end.
  unfold bind at 1 2. cbn [logger modify].
  match goal with |- context [for_each composite_indexes ?b ?s0] =>
    destruct (for_each_sends composite_indexes b
                (fun '(label, properties, index_name) =>
                   composite_query label properties index_name)
                (fun '(label, properties, index_name) =>
                   "COMPOSITE " +:+ label +:+ "." +:+ String.concat "+" properties)
                s0) as (s3 & -> & H3); [by intros [[??]?] ?|]
  end.
  unfold bind at 1. cbn [logger modify].
  match goal with |- context [for_each fulltext_indexes ?b ?s0] =>
    destruct (for_each_sends fulltext_indexes b
                (fun '(index_name, labels, properties) =>
                   fulltext_query index_name labels properties)
                (fun '(index_name, labels, properties) => "FULLTEXT " +:+ index_name)
                s0) as (s4 & -> & H4); [by intros [[??]?] ?|]
  end.
  exists s4. split; [done|].
  eapply sends_app; [|eapply sends_app; [|eapply sends_app]].
  - eapply (sends_app [] _ _ _ _ (logger_sends _ s)). exact H1.
  - eapply (sends_app [] _ _ _ _ (logger_sends _ s1)). exact H2.
  - eapply (sends_app [] _ _ _ _ (logger_sends _ s2)). exact H3.
  - eapply (sends_app [] _ _ _ _ (logger_sends _ s3)). exact H4.
Qed.

Lemma only_logs_refl s : only_logs s s.
Proof. done. Qed.

Lemma only_logs_trans s1 s2 s3 : only_logs s1 s2 → only_logs s2 s3 → only_logs s1 s3.
Proof. intros (? & ? & ?) (? & ? & ?). unfold only_logs. repeat split; congruence. Qed.

Lemma logger_only_logs l s : only_logs s (logger l s).2.
Proof. done. Qed.

Lemma field_pure record key s : ∃ r, field record key s = (r, s).
Proof. unfold field. destruct (record !! key); by eexists. Qed.

Lemma fields_pure result key s : ∃ r, fields result key s = (r, s).
Proof.
  induction result as [|record rest IH]; cbn; [by eexists|].
  unfold bind. destruct (field_pure record key s) as [[v|e] ->]; [|by eexists].
  destruct IH as [[vs|e] ->]; by eexists.
Qed.

Lemma warnings_only_log pending s :
  ∃ r s',
    for_each pending (fun record =>
      name <- field record "name" ;;
      state <- field record "state" ;;
      logger (Warning ("    - " +:+ name +:+ ": " +:+ state))) s = (r, s')
    ∧ only_logs s s'.
Proof.
  revert s. induction pending as [|record rest IH]; intros s; cbn.
  - by exists (Return tt), s.
  - unfold bind at 1 2.
    destruct (field_pure record "name" s) as [[name|e] ->]; [|by eexists _, s].
    unfold bind at 1.
    destruct (field_pure record "state" s) as [[state|e] ->]; [|by eexists _, s].
    cbn [logger modify].
    destruct (IH {| dry_run := dry_run s; stats := stats s; sent := sent s;
                    out := out s ++ [Warning ("    - " +:+ name +:+ ": " +:+ state)] |})
      as (r & s' & -> & Hlogs).
    exists r, s'. split; [done|]. exact Hlogs.
Qed.

Lemma errors_only_log errs s :
  ∃ s', for_each errs (fun error => logger (Error ("  - " +:+ error))) s = (Return tt, s')
        ∧ only_logs s s'.
Proof.
  revert s. induction errs as [|e errs IH]; intros s; cbn.
  - by exists s.
  - unfold bind. cbn [logger modify].
    destruct (IH {| dry_run := dry_run s; stats := stats s; sent := sent s;
                    out := out s ++ [Error ("  - " +:+ e)] |}) as (s' & -> & Hlogs).
    exists s'. split; [done|]. exact Hlogs.
Qed.

Lemma verify_indexes_verifies s :
  ∃ s', _verify_indexes exec s = (Return tt, s') ∧ verifies s s'.
Proof.
  unfold _verify_indexes, try_except, bind at 1. cbn [logger modify].
  unfold bind at 1, session_run at 1. cbn [sent dry_run stats out].
  destruct (exec (sent s) show_indexes) as [result|e]; cbn [fst snd].
  - unfold bind at 1.
    match goal with |- context [fields result "name" ?s0] =>
      destruct (fields_pure result "name" s0) as [[names|e] ->]
    end.
    + unfold bind at 1 2. cbn [logger modify].
      unfold session_run. cbn [sent dry_run stats out].
      destruct (exec _ show_pending) as [[|record rest]|e]; cbn [fst snd].
      * eexists. split; [reflexivity|]. unfold verifies. cbn.
        rewrite <- app_assoc. repeat split; auto.
      * unfold bind at 1. cbn [logger modify].
        match goal with |- context [for_each ?l ?b ?s0] =>
          destruct (warnings_only_log l s0) as ([[]|e] & s1 & -> & Hd & Hst & Hse)
        end; cbn in *.
        -- eexists. split; [reflexivity|]. unfold verifies.
           rewrite Hd, Hst, Hse, <- app_assoc. repeat split; auto.
        -- eexists. split; [reflexivity|]. unfold verifies. cbn.
           rewrite Hd, Hst, Hse, <- app_assoc. repeat split; eauto.
      * eexists. split; [reflexivity|]. unfold verifies. cbn.
        rewrite <- app_assoc. repeat split; eauto.
    + eexists. split; [reflexivity|]. unfold verifies. cbn. repeat split; eauto.
  - eexists. split; [reflexivity|]. unfold verifies. cbn. repeat split; eauto.
Qed.

Lemma print_summary_only_logs s :
  ∃ s', _print_summary s = (Return tt, s') ∧ only_logs s s'.
Proof.
  unfold _print_summary, bind. cbn [logger modify stats].
  destruct (errors (stats s)) as [|e errs] eqn:Herrs.
  - eexists. split; [reflexivity|]. done.
  - cbn [logger modify].
    match goal with |- context [for_each ?l ?b ?s0] =>
      destruct (errors_only_log l s0) as (s1 & -> & Hd & Hst & Hse)
    end.
    eexists. split; [reflexivity|]. unfold only_logs. cbn in *. by rewrite Hd, Hst, Hse.
Qed.

Lemma body_outcome s0 :
  ∃ s1 s2 s',
    (_create_unique_constraints exec Entity3 Entity4 ;;;
     _create_property_indexes exec ;;;
     _create_composite_indexes exec ;;;
     _create_fulltext_indexes exec ;;;
     _verify_indexes exec ;;;
     _print_summary ;;;
     (fun s => (Return (stats s), s))) s0 = (Return (stats s'), s')
    ∧ sends exec (statements Entity3 Entity4) s0 s1
    ∧ verifies s1 s2
    ∧ only_logs s2 s'.
Proof.
  destruct (create_steps_send s0) as (s1 & Hsteps & H1).
  destruct (verify_indexes_verifies s1) as (s2 & Hverify & H2).
  destruct (print_summary_only_logs s2) as (s3 & Hprint & H3).
  exists s1, s2, s3. split; [|done].
  revert Hsteps. unfold bind.
  destruct (_create_unique_constraints exec Entity3 Entity4 s0) as [[[]|e] sa]; [|done].
  destruct (_create_property_indexes exec sa) as [[[]|e] sb]; [|done].
  destruct (_create_composite_indexes exec sb) as [[[]|e] sc]; [|done].
  destruct (_create_fulltext_indexes exec sc) as [[[]|e] sd]; [|done].
  intros [= ->]. by rewrite Hverify, Hprint.
Qed.

(** The whole of [run]: it returns its counters, having gone through the
    four steps and the verification. *)
Lemma run_outcome s :
  ∃ s1 s2 s',
    run exec Entity3 Entity4 s = (Return (stats s'), s')
    ∧ sends exec (statements Entity3 Entity4) s s1
    ∧ verifies s1 s2
    ∧ only_logs s2 s'.
Proof.
  unfold run, bind at 1 2 3 4. cbn [logger modify dry_run stats sent out].
  unfold try_except.
  match goal with |- context [let (_, _) := _ ?st in _] =>
    destruct (body_outcome st) as (s1 & s2 & s' & -> & H1 & H2 & H3);
    assert (H0 : sends exec [] s st) by (by apply sends_nil)
  end.
  exists s1, s2, s'. split; [done|]. split; [|done].
  change (statements Entity3 Entity4) with ([] ++ statements Entity3 Entity4).
  by eapply sends_app.
Qed.

Lemma statements_counts :
  constraint_count (statements Entity3 Entity4) = 6%Z
  ∧ index_count (statements Entity3 Entity4) = 16%Z.
Proof. split; vm_compute; reflexivity. Qed.

(** X29: a dry run of the migration creates nothing, yet it is not
    silent on the store: [run] returns its counters unchanged and none
    of the CREATE statements is sent, but the verification step still
    sends SHOW INDEXES (and, when that succeeds, the query for indexes
    that are not online). *)
Theorem dry_run_migration_creates_nothing s :
  dry_run s = true →
  let r := run exec Entity3 Entity4 s in
  r.1 = Return (stats r.2)
  ∧ indexes_created (stats r.2) = indexes_created (stats s)
  ∧ constraints_created (stats r.2) = constraints_created (stats s)
  ∧ (sent r.2 = sent s ++ [show_indexes]
     ∨ sent r.2 = sent s ++ [show_indexes; show_pending]).
Proof.
  intros Hdry. cbn zeta.
  destruct (run_outcome s) as (s1 & s2 & s' & -> & Hsends & Hverifies & Hlogs).
  destruct Hsends as (_ & Hsent1 & Hkeep & _).
  destruct Hverifies as (_ & Hsent2 & Hi & Hc & _).
  destruct Hlogs as (_ & Hstats & Hsent3).
  rewrite Hdry, app_nil_r in Hsent1. specialize (Hkeep Hdry).
  cbn. rewrite Hstats, Hsent3, Hi, Hc, Hkeep, <- Hsent1. auto.
Qed.

(** X30: outside a dry run, [run] never raises and sends every statement
    of its four steps exactly once, in order, whether or not some of
    them fail, followed by the verification. At most 6 constraints and
    16 indexes are counted, and exactly that many when the store accepts
    every statement. *)
Theorem migration_sends_every_statement s :
  dry_run s = false →
  let r := run exec Entity3 Entity4 s in
  r.1 = Return (stats r.2)
  ∧ (sent r.2 = sent s ++ statements Entity3 Entity4 ++ [show_indexes]
     ∨ sent r.2 = sent s ++ statements Entity3 Entity4 ++ [show_indexes; show_pending])
  ∧ (constraints_created (stats s) ≤ constraints_created (stats r.2)
     ≤ constraints_created (stats s) + 6)%Z
  ∧ (indexes_created (stats s) ≤ indexes_created (stats r.2)
     ≤ indexes_created (stats s) + 16)%Z
  ∧ ((∀ h q, q ∈ statements Entity3 Entity4 → ∃ rows, exec h q = Return rows) →
     constraints_created (stats r.2) = (constraints_created (stats s) + 6)%Z
     ∧ indexes_created (stats r.2) = (indexes_created (stats s) + 16)%Z).
Proof.
  intros Hdry. cbn zeta.
  destruct (run_outcome s) as (s1 & s2 & s' & -> & Hsends & Hverifies & Hlogs).
  destruct Hsends as (_ & Hsent1 & _ & Hcb & Hib & Hacc).
  destruct Hverifies as (_ & Hsent2 & Hi & Hc & _).
  destruct Hlogs as (_ & Hstats & Hsent3).
  destruct statements_counts as [Hcount_c Hcount_i].
  rewrite Hdry in Hsent1. rewrite Hcount_c in Hcb. rewrite Hcount_i in Hib.
  cbn. rewrite Hstats, Hsent3, Hi, Hc.
  split; [done|]. split; [|split; [done|split; [done|]]].
  - destruct Hsent2 as [H|H]; [left|right]; by rewrite H, Hsent1, <- app_assoc.
  - intros Haccepts. rewrite (Hacc Hdry Haccepts).
    cbn [constraints_created indexes_created]. by rewrite Hcount_c, Hcount_i.
Qed.
End WithSchema.

Lemma dry_run_migration_creates_nothing_witness :
  let r := run accepting "Invoice" "Contact" (new_migration true) in
  r.1 = Return {| indexes_created := 0; constraints_created := 0; errors := [] |}
  ∧ sent r.2 = [show_indexes; show_pending].
Proof.
  intros r.
  destruct (dry_run_migration_creates_nothing accepting "Invoice" "Contact"
              (new_migration true)) as (Hres & _ & _ & Hsent); [reflexivity|].
  split; [reflexivity|reflexivity].
Defined.

Lemma migration_sends_every_statement_witness :
  let r := run accepting "Invoice" "Contact" (new_migration false) in
  constraints_created (stats r.2) = 6%Z ∧ indexes_created (stats r.2) = 16%Z.
Proof.
  intros r.
  destruct (migration_sends_every_statement accepting "Invoice" "Contact"
              (new_migration false)) as (_ & _ & _ & _ & Hacc); [reflexivity|].
  apply Hacc. intros h q _. by exists [].
Defined.
End MigrationExtras.
